(** * py-cheriplot: layout, address resolution and arrow routing

    A shallow embedding of the two plotting scripts of the repository,
    [CapabilityClassVis.py] (module [ClassVis]) and
    [CapabilityVisualization.py] (module [Visualization]), and the
    properties of their layout pipeline.

    Conventions of the embedding:
    - Python integers are [Z]; Python floats are read as exact rationals
      [Q] (the constants 1.5, 0.6, 0.5, 0.3 are 15/10, 6/10, 5/10, 3/10), so
      binary rounding is not represented;
    - a JSON record is the record [item], one optional field per key the
      scripts read; the grouping key "Type" is a string when present;
    - the [dict] of groups keeps insertion order and is an association
      list; dictionaries that are only looked up are [gmap]s, and the
      occupied rows are a [gset];
    - matplotlib is external: an axis is its index in the flattened grid,
      drawing calls are recorded as data, and the horizontal centre of an
      axis and the stream of [random.random()] draws are parameters. *)

From Stdlib Require Import ZArith QArith Qminmax Lqa Lia Bool Ascii String List.
From Stdlib Require Import Sorting.Permutation Sorting.Sorted.
From Stdlib Require Import OrderedTypeEx.
From stdpp Require Import base option list gmap strings sorting.

Set Warnings "-clear-no-such-hyp".

Local Open Scope Z_scope.

(** ** JSON values and Python's conversions *)

(** The value stored under a key of a record.  [VObj] stands for a JSON
    object; arrays and numbers with a fraction are not represented. *)
Inductive value : Type :=
  | VNull
  | VBool (b : bool)
  | VInt (z : Z)
  | VStr (s : string)
  | VObj.

(** The two exceptions [int] can raise. *)
Inductive int_error : Type := ValueError | TypeError.

(** Exceptions that leave the strict script unhandled. *)
Inductive exn : Type :=
  | KeyError (key : string)
  | UnhandledTypeError.

Inductive result (A : Type) : Type :=
  | Ok (a : A)
  | Raise (e : exn).
Arguments Ok {A} a.
Arguments Raise {A} e.

#[global] Instance result_ret : MRet result := fun A a => Ok a.
#[global] Instance result_bind : MBind result := fun A B k m =>
  match m with
  | Ok a => k a
  | Raise e => Raise e
  end.

(** Two runs of a loop agree when both raise the same exception, or both
    yield related lists after the same number of random draws. *)
Definition agree {C} (R : C -> C -> Prop) (r1 r2 : result (list C * nat)) : Prop :=
  match r1, r2 with
  | Ok (ys1, k1), Ok (ys2, k2) => k1 = k2 /\ Forall2 R ys1 ys2
  | Raise e1, Raise e2 => e1 = e2
  | _, _ => False
  end.

(** *** [int(s)] for a string, base 10, ASCII *)

Definition is_space (c : ascii) : bool :=
  let n := nat_of_ascii c in
  ((9 <=? n) && (n <=? 13) || (28 <=? n) && (n <=? 32))%nat.

Definition is_digit (c : ascii) : bool :=
  let n := nat_of_ascii c in ((48 <=? n) && (n <=? 57))%nat.

Definition digit_value (c : ascii) : Z := Z.of_nat (nat_of_ascii c) - 48.

Fixpoint lstrip (l : list ascii) : list ascii :=
  match l with
  | c :: l' => if is_space c then lstrip l' else l
  | [] => []
  end.

Definition strip (l : list ascii) : list ascii :=
  rev (lstrip (rev (lstrip l))).

(** Digits with single underscores between them; [prev] tells whether the
    previous character was a digit. *)
Fixpoint digits_value (acc : Z) (prev : bool) (l : list ascii) : option Z :=
  match l with
  | [] => if prev then Some acc else None
  | c :: l' =>
      if is_digit c then digits_value (10 * acc + digit_value c) true l'
      else if Ascii.eqb c "_"%char
           then (if prev then digits_value acc false l' else None)
           else None
  end.

Definition int_of_string (s : string) : option Z :=
  match strip (list_ascii_of_string s) with
  | "+"%char :: l => digits_value 0 false l
  | "-"%char :: l => Z.opp <$> digits_value 0 false l
  | l => digits_value 0 false l
  end.

(** [int(v)]. *)
Definition py_int (v : value) : Z + int_error :=
  match v with
  | VNull => inr TypeError
  | VBool b => inl (Z.b2z b)
  | VInt z => inl z
  | VStr s => match int_of_string s with
              | Some z => inl z
              | None => inr ValueError
              end
  | VObj => inr TypeError
  end.

(** [int(str(v))]: [str] of an integer is its decimal numeral, which [int]
    reads back; [str] of [None], of a boolean and of an object is no
    numeral.  [None] is [ValueError], the only exception [int] raises on
    a string. *)
Definition py_int_of_str (v : value) : option Z :=
  match v with
  | VInt z => Some z
  | VStr s => int_of_string s
  | VNull | VBool _ | VObj => None
  end.

(** ** [sorted]

    Python's sort is stable, and [reverse=True] keeps the stability, so
    its result is the one of this insertion sort: [before y x] says that
    [y] has to move in front of an [x] that was ahead of it. *)
Section Sorted.
Context {A : Type} (before : A -> A -> bool).

Fixpoint insert_sorted (x : A) (l : list A) : list A :=
  match l with
  | [] => [x]
  | y :: l' => if before y x then y :: insert_sorted x l' else x :: l
  end.

Definition py_sorted (l : list A) : list A := foldr insert_sorted [] l.

(** [x] may stay ahead of [y]: the order of a sorted list. *)
Definition keeps (x y : A) : Prop := before y x = false.
End Sorted.

(** [sorted(keys)] for strings and for integers. *)
Definition sorted_strings : list string -> list string := py_sorted String.ltb.
Definition sorted_ints : list Z -> list Z := py_sorted Z.ltb.

(** The strict lexicographic order of strings. *)
Definition string_lt (s t : string) : Prop := String.ltb s t = true.

(** [min(l)] and [max(l)] of a list with head [x]. *)
Definition py_min (x : Z) (l : list Z) : Z := foldl Z.min x l.
Definition py_max (x : Z) (l : list Z) : Z := foldl Z.max x l.

(** The range of a list of references, [(0, 1)] for none. *)
Definition range_of (refs : list Z) : Z * Z :=
  match refs with
  | [] => (0, 1)
  | r :: rs => (py_min r rs, py_max r rs)
  end.

(** [max(a, b, c)] on numbers: the first of the largest arguments. *)
Definition Qgtb (x y : Q) : bool := negb (Qle_bool x y).
Definition Qltb (x y : Q) : bool := Qgtb y x.
Definition py_max2 (a b : Q) : Q := if Qgtb b a then b else a.
Definition py_min2 (a b : Q) : Q := if Qgtb a b then b else a.
Definition py_max3 (a b c : Q) : Q := py_max2 (py_max2 a b) c.

(** [range(a, b)]. *)
Definition py_range (a b : Z) : list Z := seqZ a (b - a).

(** ** The input records *)

(** One object of the JSON array; [None] is a missing key. *)
Record item : Type := mkItem {
  i_Tag : option value;
  i_Permissions : option value;
  i_Executive : option value;
  i_Global : option value;
  i_ObjectType : option value;
  i_Bounds : option value;
  i_Address : option value;
  i_Reference : option value;
  i_Type : option string
}.

(** [data.get(key, default)] and [data[key]]. *)
Definition get (field : option value) (dflt : value) : value := default dflt field.

Definition getitem {A} (key : string) (field : option A) : result A :=
  match field with
  | Some v => Ok v
  | None => Raise (KeyError key)
  end.

(** The grouping key of a record: the empty string stands in for a
    missing one where the script has a default. *)
Definition type_of (cap : item) : string := default EmptyString (i_Type cap).

(** A record with the display fields of the specification's scenario. *)
Definition labelled (ty : option string) (ref addr : option value) : item :=
  mkItem (Some (VStr "t")) (Some (VStr "p")) (Some (VStr "e")) (Some (VStr "g"))
         (Some (VStr "o")) (Some (VStr "b")) addr ref ty.

(** Sample externals: panels of equal width side by side in each row of
    the grid, and a constant random draw. *)
Definition even_centres (nrows ncols i : nat) : Q :=
  (inject_Z (2 * Z.of_nat (i mod ncols) + 1) / inject_Z (2 * Z.of_nat ncols))%Q.
Definition half (k : nat) : Q := 1 # 2.
Definition quarter (k : nat) : Q := 1 # 4.

(** ** Insertion-ordered dictionaries keyed by type *)

Definition odict (V : Type) : Type := list (string * V).

Fixpoint od_lookup {V} (k : string) (d : odict V) : option V :=
  match d with
  | [] => None
  | (k', v) :: d' => if String.eqb k k' then Some v else od_lookup k d'
  end.

(** [d.setdefault(k, []).append(x)]. *)
Fixpoint od_append {V} (k : string) (x : V) (d : odict (list V)) : odict (list V) :=
  match d with
  | [] => [(k, [x])]
  | (k', v) :: d' =>
      if String.eqb k k' then (k', v ++ [x]) :: d' else (k', v) :: od_append k x d'
  end.

Definition od_keys {V} (d : odict V) : list string := map fst d.

(** [d[k]] for a key of [d]. *)
Definition od_get {V} (k : string) (d : odict (list V)) : list V :=
  default [] (od_lookup k d).

(** ** What is drawn *)

Inductive color : Type :=
  | tab20 (i : nat)
  | lightgrey
  | rosybrown.

Inductive label : Type :=
  | Field (v : value)          (* a field value, shown as it is *)
  | StrOf (v : value)          (* [str(v)] *)
  | RefLabel (v : value).      (* [f"Ref: {v}"] *)

Inductive prim : Type :=
  | broken_barh (xrange : Z * Z) (yrange : Q * Q) (c : color)
  | text (x y : Q) (s : label)
  | set_xlim (lo hi : Z).

(** [connectionstyle]: the string "arc3", with a radius or without, or
    the argument left out. *)
Inductive connectionstyle : Type :=
  | arc3 (rad : option Q)
  | style_omitted.

(** matplotlib draws "arc3" without a radius with radius 0, and a patch
    without a connection style as "arc3". *)
Definition curvature (s : connectionstyle) : Q :=
  match s with
  | arc3 (Some r) => r
  | arc3 None | style_omitted => 0
  end.

(** An arrow between two axes, each end in the data coordinates of its
    axis. *)
Record Arrow : Type := mkArrow {
  src_ax : nat;
  src_pt : Z * Q;
  tgt_ax : nat;
  tgt_pt : Z * Q;
  style : connectionstyle
}.

(** The x limits every capability row sets, as the arrow loops repeat
    them. *)
Definition x_min : Z := -1.
Definition x_max : Z := 65.

(** The four ways an arrow is anchored: a loop outside the left or the
    right edge of one panel, bent outwards, or a straight connector from
    the facing edges of two panels. *)
Definition left_loop (a : Arrow) : Prop :=
  (src_pt a).1 = x_min - 1 /\ (tgt_pt a).1 = x_min - 1 /\ (0 < curvature (style a))%Q.
Definition right_loop (a : Arrow) : Prop :=
  (src_pt a).1 = x_max + 1 /\ (tgt_pt a).1 = x_max + 1 /\ (curvature (style a) < 0)%Q.
Definition rightwards (a : Arrow) : Prop :=
  (src_pt a).1 = x_max /\ (tgt_pt a).1 = x_min /\ (curvature (style a) == 0)%Q.
Definition leftwards (a : Arrow) : Prop :=
  (src_pt a).1 = x_min /\ (tgt_pt a).1 = x_max /\ (curvature (style a) == 0)%Q.

(** A height that lies in [[0.1, 0.6)] above an integer address. *)
Definition jittered (addr : Z) (y : Q) : Prop :=
  (inject_Z addr + (1 # 10) <= y /\ y < inject_Z addr + (6 # 10))%Q.

(** Two arrows with the same axes, anchors' sides and style, whose
    targets may differ in the jitter above one address. *)
Definition same_route (a1 a2 : Arrow) : Prop :=
  src_ax a1 = src_ax a2 /\ src_pt a1 = src_pt a2 /\ tgt_ax a1 = tgt_ax a2
  /\ (tgt_pt a1).1 = (tgt_pt a2).1 /\ style a1 = style a2
  /\ exists addr, jittered addr (tgt_pt a1).2 /\ jittered addr (tgt_pt a2).2.

(** What a run leaves on the screen. *)
Record Figure : Type := mkFigure {
  fig_grid : nat * nat;
  fig_size : Q * Q;
  fig_axes : gmap string nat;
  fig_drawn : list (nat * prim);
  fig_arrows : list Arrow
}.

(** Two figures with the same grid, size, axes and drawn rows, and the
    same arrows up to the jitter. *)
Definition same_figure (f1 f2 : Figure) : Prop :=
  fig_grid f1 = fig_grid f2 /\ fig_size f1 = fig_size f2 /\ fig_axes f1 = fig_axes f2
  /\ fig_drawn f1 = fig_drawn f2 /\ Forall2 same_route (fig_arrows f1) (fig_arrows f2).

(** ** Grid layout *)

Definition grid_layout (n_types : nat) : nat * nat :=
  match n_types with
  | 1 => (1, 1)
  | 2 => (1, 2)
  | 3 => (1, 3)
  | 4 => (2, 2)
  | 5 | 6 => (2, 3)
  | _ => (1, n_types)
  end%nat.

(** ** Panel height *)

(** [max(base, (max_ref - min_ref) * factor, count * per_cap)]. *)
Definition height_of (min_ref max_ref : Z) (count : nat) (base per_cap factor : Q) : Q :=
  py_max3 base (inject_Z (max_ref - min_ref) * factor)%Q
          (inject_Z (Z.of_nat count) * per_cap)%Q.

(** ** Empty rows *)

(** [sorted(set(range(lo, hi + 1)) - occupied)]. *)
Definition empty_addresses (lo hi : Z) (occupied : gset Z) : list Z :=
  sorted_ints (elements (list_to_set (py_range lo (hi + 1)) ∖ occupied)).

Definition empty_block (addr : Z) : prim :=
  broken_barh (0, 64) (inject_Z addr, 8 # 10) rosybrown.

(** ** One capability row *)

(** The loop over [zip(sections, widths, colors)]: the boxes of the top
    row and the final [start]. *)
Fixpoint draw_fields (y : Z) (start : Z) (i : nat) (l : list (value * Z))
  : list prim * Z :=
  match l with
  | [] => ([], start)
  | (lab, width) :: l' =>
      let '(ps, final) := draw_fields y (start + width) (S i) l' in
      (broken_barh (start, width) (inject_Z y + (44 # 100), 4 # 10)%Q (tab20 i)
         :: text (inject_Z start + inject_Z width / 2)%Q (inject_Z y + (6 # 10))%Q (Field lab)
         :: ps, final)
  end.

(** The calls of [draw_capability], in their order.  The colour map has
    20 colours. *)
Definition draw_row (widths : list Z) (sections : list value) (addr : value)
    (ref : option value) (y : Z) : list prim :=
  let '(boxes, start) := draw_fields y (-1) 0 (take 20 (zip sections widths)) in
  boxes
  ++ [broken_barh (0, start) (inject_Z y, 4 # 10)%Q lightgrey;
      text (inject_Z start / 2)%Q (inject_Z y + (18 # 100))%Q (StrOf addr)]
  ++ match ref with
     | Some r => [text (inject_Z (start + 1)) (inject_Z y + (5 # 100))%Q (RefLabel r)]
     | None => []
     end
  ++ [set_xlim (-1) (start + 1)].

(** The horizontal span of what a list of calls draws: boxes from their
    left to their right side, a text at its anchor. *)
Definition prim_span (p : prim) : option (Q * Q) :=
  match p with
  | broken_barh (x, w) _ _ => Some (inject_Z x, inject_Z (x + w))
  | text x _ _ => Some (x, x)
  | set_xlim _ _ => None
  end.

Definition join_span (a b : option (Q * Q)) : option (Q * Q) :=
  match a, b with
  | Some (l1, r1), Some (l2, r2) => Some (py_min2 l1 l2, py_max2 r1 r2)
  | Some s, None | None, Some s => Some s
  | None, None => None
  end.

Definition drawn_span (ps : list prim) : option (Q * Q) :=
  foldl (fun s p => join_span s (prim_span p)) None ps.

(** The limits the last [set_xlim] leaves. *)
Definition xlim_of (ps : list prim) : option (Z * Z) :=
  foldl (fun s p => match p with set_xlim lo hi => Some (lo, hi) | _ => s end) None ps.

(** ** Address resolution *)

Definition covers (lo hi addr : Z) : bool := (lo <=? addr) && (addr <=? hi).

(** ** Random jitter *)

(** [random.uniform(a, b)] from one draw [r] of [random.random()]. *)
Definition uniform (a b r : Q) : Q := (a + (b - a) * r)%Q.

(** [for k, v in l: d[k] = v] from the empty dictionary. *)
Definition dict_of_pairs {V} (l : list (string * V)) : gmap string V :=
  foldl (fun m kv => <[kv.1 := kv.2]> m) ∅ l.

(** [not s] for a [str] or [None]. *)
Definition py_not (o : option string) : bool :=
  match o with
  | None => true
  | Some s => String.eqb s EmptyString
  end.

(** Threading a counter of random draws through a loop that collects the
    arrows its body yields. *)
Fixpoint collect {A B} (body : A -> nat -> list B * nat) (l : list A) (k : nat)
  : list B * nat :=
  match l with
  | [] => ([], k)
  | x :: l' =>
      let '(ys, k1) := body x k in
      let '(zs, k2) := collect body l' k1 in
      (ys ++ zs, k2)
  end.

(** * CapabilityClassVis.py *)
Module ClassVis.

Definition FIXED_WIDTHS : list Z := [1; 16; 1; 1; 15; 31].
Definition MAX_SUBPLOT_HEIGHT : Q := 10.

Record Capability : Type := mkCapability {
  tag : value;
  permissions : value;
  executive : value;
  global_flag : value;
  object_type : value;
  bounds : value;
  address : value;
  reference : option Z;
  type : string
}.

(** [try: return int(value) except (ValueError, TypeError): return None]. *)
Definition _to_int (v : value) : option Z :=
  match py_int v with
  | inl z => Some z
  | inr ValueError => None
  | inr TypeError => None
  end.

Definition Capability_init (data : item) : Capability := {|
  tag := get (i_Tag data) (VStr EmptyString);
  permissions := get (i_Permissions data) (VStr EmptyString);
  executive := get (i_Executive data) (VStr EmptyString);
  global_flag := get (i_Global data) (VStr EmptyString);
  object_type := get (i_ObjectType data) (VStr EmptyString);
  bounds := get (i_Bounds data) (VStr EmptyString);
  address := get (i_Address data) (VStr EmptyString);
  reference := _to_int (get (i_Reference data) VNull);
  type := type_of data
|}.

Definition getAddress (c : Capability) : option Z := _to_int (address c).

Definition draw_sections (c : Capability) : list value * value * option Z :=
  ([tag c; permissions c; executive c; global_flag c; object_type c; bounds c],
   address c, reference c).

Definition capabilities (data : list item) : list Capability :=
  map Capability_init data.

(** *** Grouping by type, sorting by reference *)

Definition group (caps : list Capability) : odict (list Capability) :=
  foldl (fun d cap => od_append (type cap) cap d) [] caps.

(** [c.reference if c.reference is not None else -1]. *)
Definition sort_key (c : Capability) : Z :=
  match reference c with
  | Some r => r
  | None => -1
  end.

(** [sorted(caps, key=sort_key, reverse=True)]. *)
Definition sort_caps : list Capability -> list Capability :=
  py_sorted (fun y x => sort_key x <? sort_key y).

Definition type_caps (caps : list Capability) : odict (list Capability) :=
  map (fun kv => (kv.1, sort_caps kv.2)) (group caps).

Definition types (caps : list Capability) : list string :=
  sorted_strings (od_keys (type_caps caps)).

(** *** Helpers *)

Definition get_ref_range (caps : list Capability) : Z * Z :=
  match omap reference caps with
  | [] => (0, 1)
  | r :: refs => (py_min r refs, py_max r refs)
  end.

Definition calc_height (min_ref max_ref : Z) (count : nat) : Q :=
  height_of min_ref max_ref count 6 (6 # 10) (15 # 10).

Definition draw_capability (cap : Capability) (y : Z) : list prim :=
  let '(sections, addr_label, ref) := draw_sections cap in
  draw_row FIXED_WIDTHS sections addr_label (VInt <$> ref) y.

(** *** Type info *)

Record TypeInfo : Type := mkTypeInfo {
  ti_min : Z;
  ti_max : Z;
  ti_height : Q;
  ti_caps : list Capability;
  ti_y_positions : gmap Z Z
}.

#[global] Instance TypeInfo_inhabited : Inhabited TypeInfo :=
  populate (mkTypeInfo 0 0 0 [] ∅).

(** [{cap.reference: cap.reference for cap in caps if cap.reference is not None}]. *)
Definition y_positions_of (caps : list Capability) : gmap Z Z :=
  foldl (fun m r => <[r := r]> m) ∅ (omap reference caps).

Definition info_of (caps : list Capability) : TypeInfo :=
  let '(min_ref, max_ref) := get_ref_range caps in
  {| ti_min := min_ref;
     ti_max := max_ref;
     ti_height := py_min2 (calc_height min_ref max_ref (length caps)) MAX_SUBPLOT_HEIGHT;
     ti_caps := caps;
     ti_y_positions := y_positions_of caps |}.

Definition type_info (caps : list Capability) : gmap string TypeInfo :=
  dict_of_pairs (map (fun typ => (typ, info_of (od_get typ (type_caps caps)))) (types caps)).

Definition max_height (caps : list Capability) : Q :=
  foldl (fun m typ => py_max2 m (ti_height (type_info caps !!! typ))) 0%Q (types caps).

(** *** Grid and axes *)

Definition n_types (caps : list Capability) : nat := length (types caps).

Definition figsize (caps : list Capability) : Q * Q :=
  let '(nrows, ncols) := grid_layout (n_types caps) in
  (inject_Z (7 * Z.of_nat ncols), max_height caps * inject_Z (Z.of_nat nrows))%Q.

(** [for i, typ in enumerate(types): type_axes[typ] = axes[i]]. *)
Definition type_axes (caps : list Capability) : gmap string nat :=
  dict_of_pairs (imap (fun i typ => (typ, i)) (types caps)).

(** *** Drawing the rows and the empty blocks *)

Definition draw_caps (info : TypeInfo) : list prim :=
  flat_map (fun cap =>
    match reference cap with
    | None => []
    | Some r => draw_capability cap (default r (ti_y_positions info !! r))
    end) (ti_caps info).

Definition occupied (info : TypeInfo) : gset Z :=
  list_to_set (map snd (map_to_list (ti_y_positions info))).

Definition draw_empty (info : TypeInfo) : list prim :=
  map empty_block (empty_addresses (ti_min info) (ti_max info) (occupied info)).

Definition draw_type (caps : list Capability) (typ : string) : list (nat * prim) :=
  let ax := type_axes caps !!! typ in
  let info := type_info caps !!! typ in
  map (pair ax) (draw_caps info ++ draw_empty info).

Definition draw_all (caps : list Capability) : list (nat * prim) :=
  flat_map (draw_type caps) (types caps).

(** The row of [cap] is on the figure: every call of [draw_capability]
    for it, at some height, is among the calls on the axis of its type. *)
Definition row_drawn (caps : list Capability) (cap : Capability) : Prop :=
  exists y, forall p, p ∈ draw_capability cap y ->
                      (type_axes caps !!! type cap, p) ∈ draw_all caps.

(** *** Arrows *)

Record AxesInfo : Type := mkAxesInfo {
  axis : nat;
  ai_min : Z;
  ai_max : Z;
  center_x : Q
}.

#[global] Instance AxesInfo_inhabited : Inhabited AxesInfo :=
  populate (mkAxesInfo 0 0 0 0).

Section Arrows.
(** [axes_center nrows ncols i] is the horizontal centre of axis [i] in
    figure coordinates, and [random k] the [k]-th draw of the run. *)
Context (axes_center : nat -> nat -> nat -> Q) (random : nat -> Q).

Definition type_axes_info (caps : list Capability) : gmap string AxesInfo :=
  let '(nrows, ncols) := grid_layout (n_types caps) in
  dict_of_pairs (map (fun typ =>
    let ax := type_axes caps !!! typ in
    (typ, {| axis := ax;
             ai_min := ti_min (type_info caps !!! typ);
             ai_max := ti_max (type_info caps !!! typ);
             center_x := axes_center nrows ncols ax |})) (types caps)).

(** [next((t for t in types if min <= addr_val <= max), None)]. *)
Definition find_target (tys : list string) (tai : gmap string AxesInfo) (addr_val : Z)
  : option string :=
  List.find (fun t => covers (ai_min (tai !!! t)) (ai_max (tai !!! t)) addr_val) tys.

(** The target an arrow is drawn to: [if not target_type: continue]. *)
Definition target_type (tys : list string) (tai : gmap string AxesInfo) (addr_val : Z)
  : option string :=
  let t := find_target tys tai addr_val in
  if py_not t then None else t.

(** The body of the inner loop; no arrow is [continue]. *)
Definition arrow_of (tys : list string) (ti : gmap string TypeInfo)
    (tai : gmap string AxesInfo) (typ : string) (cap : Capability) (k : nat)
  : list Arrow * nat :=
  match reference cap with
  | None => ([], k)
  | Some ref =>
      let src_y := default ref (ti_y_positions (ti !!! typ) !! ref) in
      match getAddress cap with
      | None => ([], k)
      | Some addr_val =>
          match target_type tys tai addr_val with
          | None => ([], k)
          | Some target =>
              let tgt_y := (inject_Z addr_val + uniform (1 # 10) (6 # 10) (random k))%Q in
              let '(src_x, tgt_x, sty) :=
                if String.eqb typ target then
                  if addr_val <? ref
                  then (-2, -2, arc3 (Some (3 # 10)))
                  else (x_max + 1, x_max + 1, arc3 (Some (- (3 # 10))%Q))
                else
                  let src_center := center_x (tai !!! typ) in
                  let tgt_center := center_x (tai !!! target) in
                  if Qltb src_center tgt_center
                  then (x_max, x_min, arc3 None)
                  else (x_min, x_max, arc3 None) in
              ([{| src_ax := axis (tai !!! typ);
                   src_pt := (src_x, (inject_Z src_y + (5 # 10))%Q);
                   tgt_ax := axis (tai !!! target);
                   tgt_pt := (tgt_x, tgt_y);
                   style := sty |}], S k)
          end
      end
  end.

Definition arrows_from (caps : list Capability) (k : nat) : list Arrow * nat :=
  let tys := types caps in
  let ti := type_info caps in
  let tai := type_axes_info caps in
  collect (fun typ => collect (arrow_of tys ti tai typ) (ti_caps (ti !!! typ))) tys k.

Definition arrows (caps : list Capability) : list Arrow := (arrows_from caps 0).1.

(** *** The whole run on the parsed input *)

Definition run (data : list item) : Figure :=
  let caps := capabilities data in
  {| fig_grid := grid_layout (n_types caps);
     fig_size := figsize caps;
     fig_axes := type_axes caps;
     fig_drawn := draw_all caps;
     fig_arrows := arrows caps |}.
End Arrows.

End ClassVis.

(** * CapabilityVisualization.py *)
Module Visualization.

Definition fixed_widths : list Z := [1; 16; 1; 1; 15; 31].

(** *** Python's comparison and subtraction on JSON values *)

Definition num_of (v : value) : option Z :=
  match v with
  | VInt z => Some z
  | VBool b => Some (Z.b2z b)
  | _ => None
  end.

Definition is_num (v : value) : bool :=
  match num_of v with
  | Some _ => true
  | None => false
  end.
Definition is_str (v : value) : bool :=
  match v with
  | VStr _ => true
  | _ => false
  end.

(** [a < b] where it is defined: two numbers or two strings. *)
Definition value_lt (a b : value) : bool :=
  match a, b with
  | VStr s, VStr t => String.ltb s t
  | _, _ => match num_of a, num_of b with
            | Some x, Some y => x <? y
            | _, _ => false
            end
  end.

(** Sorting two or more values compares each with another one: it
    succeeds on numbers and on strings, and raises [TypeError] on a mix,
    on [None] and on objects. *)
Definition sortable (keys : list value) : bool :=
  forallb is_num keys || forallb is_str keys.

(** [a - b]. *)
Definition py_sub (a b : value) : result Z :=
  match num_of a, num_of b with
  | Some x, Some y => Ok (x - y)
  | _, _ => Raise UnhandledTypeError
  end.

(** A value used as a number: arithmetic and [range] raise on the others. *)
Definition as_int (v : value) : result Z :=
  match num_of v with
  | Some z => Ok z
  | None => Raise UnhandledTypeError
  end.

(** [cap["Reference"]] where a number is needed. *)
Definition ref_int (cap : item) : result Z :=
  v ← getitem "Reference" (i_Reference cap);
  as_int v.



(** *** Grouping by type, sorting by reference *)

Fixpoint group_into (d : odict (list item)) (data : list item) : result (odict (list item)) :=
  match data with
  | [] => Ok d
  | cap :: rest =>
      typ ← getitem "Type" (i_Type cap);
      group_into (od_append typ cap d) rest
  end.

Definition group (data : list item) : result (odict (list item)) := group_into [] data.

(** [sorted(caps, key=lambda cap: cap["Reference"], reverse=True)]: the
    keys are taken first, then compared. *)
Definition sort_caps (caps : list item) : result (list item) :=
  keys ← mapM (fun cap => getitem "Reference" (i_Reference cap)) caps;
  if (2 <=? length caps)%nat && negb (sortable keys)
  then Raise UnhandledTypeError
  else Ok (map snd (py_sorted (fun y x => value_lt x.1 y.1) (zip keys caps))).

Definition type_caps (data : list item) : result (odict (list item)) :=
  d ← group data;
  mapM (fun kv => l ← sort_caps kv.2; Ok (kv.1, l)) d.

Definition types (tc : odict (list item)) : list string := sorted_strings (od_keys tc).

(** *** Helpers *)

(** [min(refs)] and [max(refs)] on values that compare. *)
Definition value_min (x : value) (l : list value) : value :=
  foldl (fun m v => if value_lt v m then v else m) x l.
Definition value_max (x : value) (l : list value) : value :=
  foldl (fun m v => if value_lt m v then v else m) x l.

Definition get_reference_range (capabilities : list item) : result (value * value) :=
  match capabilities with
  | [] => Ok (VInt 0, VInt 1)
  | _ =>
      refs ← mapM (fun cap => getitem "Reference" (i_Reference cap)) capabilities;
      match refs with
      | [] => Ok (VInt 0, VInt 1)
      | r :: rs => Ok (value_min r rs, value_max r rs)
      end
  end.

Definition calculate_figure_height (min_ref max_ref : value) (num_caps : nat) : result Q :=
  ref_range ← py_sub max_ref min_ref;
  let range_based := (inject_Z ref_range * (15 # 10))%Q in
  let num_based := (inject_Z (Z.of_nat num_caps) * (6 # 10))%Q in
  Ok (py_max3 6 range_based num_based).

(** [sections = [capability[key] for key in expected_keys if key != "Reference"]],
    then the same calls as the other script. *)
Definition draw_capability (capability : item) (y_position : Z) : result (list prim) :=
  tag ← getitem "Tag" (i_Tag capability);
  permissions ← getitem "Permissions" (i_Permissions capability);
  executive ← getitem "Executive" (i_Executive capability);
  global ← getitem "Global" (i_Global capability);
  object_type ← getitem "Object Type" (i_ObjectType capability);
  bounds ← getitem "Bounds" (i_Bounds capability);
  address ← getitem "Address" (i_Address capability);
  Ok (draw_row fixed_widths [tag; permissions; executive; global; object_type; bounds]
        address
        (match i_Reference capability with
         | Some VNull | None => None
         | Some r => Some r
         end)
        y_position).

(** *** Type info *)

Record TypeInfo : Type := mkTypeInfo {
  ti_min : Z;
  ti_max : Z;
  ti_height : Q;
  ti_caps : list item;
  ti_y_positions : gmap Z Z
}.

#[global] Instance TypeInfo_inhabited : Inhabited TypeInfo :=
  populate (mkTypeInfo 0 0 0 [] ∅).

(** [{cap["Reference"]: cap["Reference"] for cap in caps}]; the height has
    been computed, so the references are numbers. *)
Definition y_positions_of (caps : list item) : result (gmap Z Z) :=
  refs ← mapM ref_int caps;
  Ok (foldl (fun m r => <[r := r]> m) ∅ refs).

Definition info_of (caps : list item) : result TypeInfo :=
  range ← get_reference_range caps;
  height ← calculate_figure_height range.1 range.2 (length caps);
  min_ref ← as_int range.1;
  max_ref ← as_int range.2;
  y_positions ← y_positions_of caps;
  Ok {| ti_min := min_ref;
        ti_max := max_ref;
        ti_height := height;
        ti_caps := caps;
        ti_y_positions := y_positions |}.

Definition type_info (tc : odict (list item)) : result (gmap string TypeInfo) :=
  l ← mapM (fun typ => info ← info_of (od_get typ tc); Ok (typ, info)) (types tc);
  Ok (dict_of_pairs l).

Definition max_subplot_height (tys : list string) (ti : gmap string TypeInfo) : Q :=
  foldl (fun m typ => py_max2 m (ti_height (ti !!! typ))) 0%Q tys.

(** *** Grid and axes *)

Definition figsize (tys : list string) (ti : gmap string TypeInfo) : Q * Q :=
  let '(nrows, ncols) := grid_layout (length tys) in
  (inject_Z (7 * Z.of_nat ncols), max_subplot_height tys ti * inject_Z (Z.of_nat nrows))%Q.

Definition type_to_axis (tys : list string) : gmap string nat :=
  dict_of_pairs (imap (fun i typ => (typ, i)) tys).

(** *** Drawing the rows and the empty blocks *)

Definition draw_caps (info : TypeInfo) : result (list prim) :=
  l ← mapM (fun cap =>
         ref ← ref_int cap;
         draw_capability cap (default ref (ti_y_positions info !! ref)))
       (ti_caps info);
  Ok (concat l).

Definition occupied (info : TypeInfo) : gset Z :=
  list_to_set (map snd (map_to_list (ti_y_positions info))).

Definition draw_empty (info : TypeInfo) : list prim :=
  map empty_block (empty_addresses (ti_min info) (ti_max info) (occupied info)).

Definition draw_type (tys : list string) (ti : gmap string TypeInfo) (typ : string)
  : result (list (nat * prim)) :=
  let ax := type_to_axis tys !!! typ in
  let info := ti !!! typ in
  rows ← draw_caps info;
  Ok (map (pair ax) (rows ++ draw_empty info)).

Definition draw_all (tys : list string) (ti : gmap string TypeInfo)
  : result (list (nat * prim)) :=
  l ← mapM (draw_type tys ti) tys;
  Ok (concat l).

(** *** Arrows *)

Record AxesInfo : Type := mkAxesInfo {
  axis : nat;
  ai_min : Z;
  ai_max : Z;
  center_x : Q
}.

#[global] Instance AxesInfo_inhabited : Inhabited AxesInfo :=
  populate (mkAxesInfo 0 0 0 0).

(** A loop whose body may raise and may draw from the random stream. *)
Fixpoint collectM {A B} (body : A -> nat -> result (list B * nat)) (l : list A) (k : nat)
  : result (list B * nat) :=
  match l with
  | [] => Ok ([], k)
  | x :: l' =>
      r1 ← body x k;
      r2 ← collectM body l' r1.2;
      Ok (r1.1 ++ r2.1, r2.2)
  end.

Section Arrows.
Context (axes_center : nat -> nat -> nat -> Q) (random : nat -> Q).

Definition type_axes_info (tys : list string) (ti : gmap string TypeInfo)
  : gmap string AxesInfo :=
  let '(nrows, ncols) := grid_layout (length tys) in
  dict_of_pairs (map (fun typ =>
    let ax := type_to_axis tys !!! typ in
    (typ, {| axis := ax;
             ai_min := ti_min (ti !!! typ);
             ai_max := ti_max (ti !!! typ);
             center_x := axes_center nrows ncols ax |})) tys).

(** [target_type = None; for t in types: if tmin <= address_val <= tmax:
    target_type = t; break]. *)
Fixpoint find_target (tys : list string) (tai : gmap string AxesInfo) (address_val : Z)
  : option string :=
  match tys with
  | [] => None
  | t :: rest =>
      let tmin := ai_min (tai !!! t) in
      let tmax := ai_max (tai !!! t) in
      if covers tmin tmax address_val then Some t
      else find_target rest tai address_val
  end.

Definition arrow_of (tys : list string) (ti : gmap string TypeInfo)
    (tai : gmap string AxesInfo) (typ : string) (cap : item) (k : nat)
  : result (list Arrow * nat) :=
  ref ← ref_int cap;
  let source_y := default ref (ti_y_positions (ti !!! typ) !! ref) in
  address ← getitem "Address" (i_Address cap);
  match py_int_of_str address with
  | None => Ok ([], k)
  | Some address_val =>
      match find_target tys tai address_val with
      | None => Ok ([], k)
      | Some target =>
          let target_y :=
            (inject_Z address_val + uniform (1 # 10) (6 # 10) (random k))%Q in
          let '(source_x, target_x, sty) :=
            if String.eqb typ target then
              if address_val <? ref
              then (-2, -2, arc3 (Some (3 # 10)))
              else (x_max + 1, x_max + 1, arc3 (Some (- (3 # 10))%Q))
            else
              let source_center := center_x (tai !!! typ) in
              let target_center := center_x (tai !!! target) in
              if Qltb source_center target_center
              then (x_max, x_min, style_omitted)
              else (x_min, x_max, style_omitted) in
          Ok ([{| src_ax := axis (tai !!! typ);
                  src_pt := (source_x, (inject_Z source_y + (5 # 10))%Q);
                  tgt_ax := axis (tai !!! target);
                  tgt_pt := (target_x, target_y);
                  style := sty |}], S k)
      end
  end.

Definition arrows_from (tys : list string) (ti : gmap string TypeInfo) (k : nat)
  : result (list Arrow * nat) :=
  let tai := type_axes_info tys ti in
  collectM (fun typ => collectM (arrow_of tys ti tai typ) (ti_caps (ti !!! typ))) tys k.

(** *** The whole run on the parsed input *)


Definition run (data : list item) : result Figure :=
  tc ← type_caps data;
  let tys := types tc in
  ti ← type_info tc;
  drawn ← draw_all tys ti;
  arrows ← arrows_from tys ti 0;
  Ok {| fig_grid := grid_layout (length tys);
        fig_size := figsize tys ti;
        fig_axes := type_to_axis tys;
        fig_drawn := drawn;
        fig_arrows := arrows.1 |}.
End Arrows.

End Visualization.

(** ** Exceptions of the strict script *)



(** * Facts about the helpers *)

Section SortedFacts.
Context {A : Type} (before : A -> A -> bool).

Lemma insert_sorted_perm x l : insert_sorted before x l ≡ₚ x :: l.
Proof.
  induction l as [|y l IH]; simpl; [done|].
  destruct (before y x); [|done].
  rewrite IH. apply Permutation_swap.
Qed.

Lemma py_sorted_perm l : py_sorted before l ≡ₚ l.
Proof.
  induction l as [|x l IH]; simpl; [done|].
  rewrite insert_sorted_perm. by rewrite IH.
Qed.

Lemma py_sorted_elem x l : x ∈ py_sorted before l ↔ x ∈ l.
Proof. by rewrite py_sorted_perm. Qed.

Lemma py_sorted_length l : length (py_sorted before l) = length l.
Proof. by rewrite py_sorted_perm. Qed.

Hypothesis before_asym : ∀ x y, before x y = true → before y x = false.
Hypothesis keeps_trans : ∀ x y z, keeps before x y → keeps before y z → keeps before x z.

Lemma insert_sorted_sorted x l :
  StronglySorted (keeps before) l → StronglySorted (keeps before) (insert_sorted before x l).
Proof.
  induction 1 as [|y l Hl IH Hy]; simpl.
  - repeat constructor.
  - destruct (before y x) eqn:E.
    + constructor; [done|].
      rewrite insert_sorted_perm. constructor; [|done].
      by apply before_asym.
    + constructor; [by constructor|].
      constructor; [done|].
      eapply Forall_impl; [exact Hy|]. intros z Hz. by eapply keeps_trans.
Qed.

Lemma py_sorted_sorted l : StronglySorted (keeps before) (py_sorted before l).
Proof.
  induction l as [|x l IH]; simpl; [constructor|].
  by apply insert_sorted_sorted.
Qed.

End SortedFacts.

Lemma string_ltb_lt s t : String.ltb s t = true ↔ String_as_OT.lt s t.
Proof.
  unfold String.ltb. rewrite <- String_as_OT.cmp_lt. unfold String_as_OT.cmp.
  destruct (String.compare s t); split; congruence.
Qed.

Lemma string_ltb_irrefl s : String.ltb s s = false.
Proof.
  destruct (String.ltb s s) eqn:E; [|done].
  apply string_ltb_lt in E. by apply String_as_OT.lt_not_eq in E.
Qed.

Lemma string_ltb_trans s t u :
  String.ltb s t = true → String.ltb t u = true → String.ltb s u = true.
Proof. rewrite !string_ltb_lt. apply String_as_OT.lt_trans. Qed.

Lemma string_ltb_asym s t : String.ltb s t = true → String.ltb t s = false.
Proof.
  intros H. destruct (String.ltb t s) eqn:E; [|done].
  pose proof (string_ltb_trans _ _ _ H E) as H'. by rewrite string_ltb_irrefl in H'.
Qed.

Lemma string_ltb_total s t : String.ltb s t = false → String.ltb t s = false → s = t.
Proof.
  unfold String.ltb. rewrite (String.compare_antisym t s).
  destruct (String.compare s t) eqn:E; simpl; try done.
  intros _ _. by apply String.compare_eq_iff.
Qed.

Lemma string_keeps_trans s t u :
  String.ltb t s = false → String.ltb u t = false → String.ltb u s = false.
Proof.
  intros H1 H2. destruct (String.ltb u s) eqn:E; [|done].
  destruct (String.ltb s t) eqn:E1.
  - by rewrite (string_ltb_trans _ _ _ E E1) in H2.
  - rewrite (string_ltb_total _ _ E1 H1) in E. congruence.
Qed.

Lemma sorted_strings_perm l : sorted_strings l ≡ₚ l.
Proof. apply py_sorted_perm. Qed.

Lemma sorted_strings_increasing l :
  NoDup l → StronglySorted string_lt (sorted_strings l).
Proof.
  intros Hnd.
  assert (NoDup (sorted_strings l)) as Hnd' by by rewrite sorted_strings_perm.
  pose proof (py_sorted_sorted String.ltb string_ltb_asym string_keeps_trans l) as Hs.
  fold (sorted_strings l) in Hs.
  induction Hs as [|x l' Hs IH Hx]; [constructor|].
  apply NoDup_cons in Hnd' as [Hx' Hnd'].
  constructor; [by apply IH|].
  apply Forall_forall. intros y Hy.
  rewrite Forall_forall in Hx. specialize (Hx y Hy). unfold keeps in Hx.
  unfold string_lt. destruct (String.ltb x y) eqn:E; [done|].
  rewrite (string_ltb_total _ _ E Hx) in Hx'. done.
Qed.

Lemma string_eqb_decide (s t : string) : String.eqb s t = bool_decide (s = t).
Proof.
  destruct (String.eqb_spec s t).
  - by rewrite bool_decide_eq_true_2.
  - by rewrite bool_decide_eq_false_2.
Qed.

Section OdictFacts.
Context {V : Type}.
Implicit Types (d : odict (list V)) (k : string).

Lemma od_lookup_append k k' x d :
  od_lookup k (od_append k' x d) =
    if decide (k = k') then Some (default [] (od_lookup k d) ++ [x]) else od_lookup k d.
Proof.
  induction d as [|[k0 v] d IH]; simpl.
  - rewrite string_eqb_decide. case_bool_decide; case_decide; naive_solver.
  - destruct (String.eqb_spec k' k0) as [->|Hne]; simpl.
    + destruct (String.eqb_spec k k0) as [->|Hne']; case_decide; naive_solver.
    + destruct (String.eqb_spec k k0) as [->|Hne']; [|done].
      case_decide; naive_solver.
Qed.

Lemma od_get_append k k' x d :
  od_get k (od_append k' x d) = od_get k d ++ (if decide (k = k') then [x] else []).
Proof.
  unfold od_get. rewrite od_lookup_append. case_decide; simpl; [done|].
  by rewrite app_nil_r.
Qed.

Lemma od_keys_append k x d :
  od_keys (od_append k x d) = if decide (k ∈ od_keys d) then od_keys d else od_keys d ++ [k].
Proof.
  induction d as [|[k0 v] d IH]; simpl; [done|].
  destruct (String.eqb_spec k k0) as [->|Hne]; simpl.
  - rewrite decide_True; [done|]. apply list_elem_of_here.
  - rewrite IH. fold (od_keys d).
    destruct (decide (k ∈ od_keys d)) as [Hin|Hnin].
    + rewrite decide_True; [done|]. by apply list_elem_of_further.
    + rewrite decide_False; [done|]. rewrite elem_of_cons. naive_solver.
Qed.

Lemma od_keys_append_NoDup k x d : NoDup (od_keys d) → NoDup (od_keys (od_append k x d)).
Proof.
  intros H. rewrite od_keys_append. case_decide; [done|].
  apply NoDup_app. split_and!; [done| |apply NoDup_singleton].
  intros y Hy Hy'. apply list_elem_of_singleton in Hy'. by subst.
Qed.

Lemma od_keys_append_elem k k' x d :
  k ∈ od_keys (od_append k' x d) ↔ k = k' ∨ k ∈ od_keys d.
Proof.
  rewrite od_keys_append. case_decide.
  - naive_solver.
  - rewrite elem_of_app, list_elem_of_singleton. naive_solver.
Qed.

Lemma od_lookup_keys k d : is_Some (od_lookup k d) ↔ k ∈ od_keys d.
Proof.
  induction d as [|[k0 v] d IH]; simpl.
  - rewrite elem_of_nil. split; [by intros [? ?]|done].
  - rewrite elem_of_cons. simpl.
    destruct (String.eqb_spec k k0); [naive_solver|].
    rewrite IH. naive_solver.
Qed.

Lemma od_lookup_map {W} (f : list V → list W) k d :
  od_lookup k (map (λ kv, (kv.1, f kv.2)) d) = f <$> od_lookup k d.
Proof.
  induction d as [|[k0 v] d IH]; simpl; [done|].
  by destruct (String.eqb k k0).
Qed.

Lemma od_keys_map {W} (f : list V → list W) d :
  od_keys (map (λ kv, (kv.1, f kv.2)) d) = od_keys d.
Proof. unfold od_keys. rewrite map_map. by apply map_ext. Qed.
End OdictFacts.

Section GroupFacts.
Context {V : Type} (key : V → string).
Implicit Types (d : odict (list V)) (l : list V).

Lemma od_group_get d l k :
  od_get k (foldl (λ d x, od_append (key x) x d) d l)
  = od_get k d ++ filter (λ x, key x = k) l.
Proof.
  revert d. induction l as [|c l IH]; intros d; simpl.
  - by rewrite app_nil_r.
  - rewrite IH, od_get_append, <- app_assoc. f_equal.
    rewrite filter_cons. repeat case_decide; naive_solver.
Qed.

Lemma od_group_keys d l :
  NoDup (od_keys d) →
  NoDup (od_keys (foldl (λ d x, od_append (key x) x d) d l))
  ∧ ∀ k, k ∈ od_keys (foldl (λ d x, od_append (key x) x d) d l)
         ↔ k ∈ od_keys d ∨ k ∈ map key l.
Proof.
  revert d. induction l as [|c l IH]; intros d Hd; simpl.
  - split; [done|]. intros k. rewrite elem_of_nil. naive_solver.
  - destruct (IH (od_append (key c) c d)) as [H1 H2]; [by apply od_keys_append_NoDup|].
    split; [done|]. intros k. rewrite H2, od_keys_append_elem, elem_of_cons. naive_solver.
Qed.

End GroupFacts.

Section DictFacts.
Context {V : Type}.

Lemma dict_of_pairs_snoc (l : list (string * V)) k v :
  dict_of_pairs (l ++ [(k, v)]) = <[k := v]> (dict_of_pairs l).
Proof. unfold dict_of_pairs. by rewrite foldl_app. Qed.

Lemma dict_of_pairs_lookup_None (l : list (string * V)) k :
  k ∉ l.*1 → dict_of_pairs l !! k = None.
Proof.
  induction l as [|[k' v] l IH] using rev_ind; [done|].
  rewrite fmap_app, dict_of_pairs_snoc. simpl.
  rewrite elem_of_app, list_elem_of_singleton. intros H.
  rewrite lookup_insert_ne; [|naive_solver]. apply IH. naive_solver.
Qed.

Lemma dict_of_pairs_lookup (l : list (string * V)) k v :
  NoDup l.*1 → (k, v) ∈ l → dict_of_pairs l !! k = Some v.
Proof.
  induction l as [|[k' v'] l IH] using rev_ind; [by intros _ ?%elem_of_nil|].
  rewrite fmap_app, dict_of_pairs_snoc. simpl.
  intros [Hnd [Hdisj _]]%NoDup_app Hin.
  apply elem_of_app in Hin as [Hin|Hin].
  - assert (k ≠ k').
    { intros ->. apply (Hdisj k'); [|apply list_elem_of_here].
      apply list_elem_of_fmap. by exists (k', v). }
    rewrite lookup_insert_ne; [|done]. by apply IH.
  - apply list_elem_of_singleton in Hin. simplify_eq. by rewrite lookup_insert_eq.
Qed.

Lemma dict_of_keys_lookup (f : string → V) (ks : list string) k :
  k ∈ ks → dict_of_pairs (map (λ k, (k, f k)) ks) !! k = Some (f k).
Proof.
  induction ks as [|k' ks IH] using rev_ind; [by intros ?%elem_of_nil|].
  rewrite map_app. simpl. rewrite dict_of_pairs_snoc.
  intros Hin. destruct (decide (k = k')) as [->|Hne].
  - by rewrite lookup_insert_eq.
  - rewrite lookup_insert_ne; [|done]. apply IH.
    apply elem_of_app in Hin as [?|Hin]; [done|].
    by apply list_elem_of_singleton in Hin.
Qed.

Lemma dict_of_keys_total `{Inhabited V} (f : string → V) (ks : list string) k :
  k ∈ ks → dict_of_pairs (map (λ k, (k, f k)) ks) !!! k = f k.
Proof. intros Hin. rewrite lookup_total_alt, dict_of_keys_lookup; done. Qed.
End DictFacts.

Lemma enumerate_lookup (tys : list string) i typ :
  NoDup tys → tys !! i = Some typ →
  dict_of_pairs (imap (λ i typ, (typ, i)) tys) !!! typ = i.
Proof.
  intros Hnd Hi. rewrite lookup_total_alt.
  rewrite (dict_of_pairs_lookup _ typ i); [done| |].
  - replace ((imap (λ i typ, (typ, i)) tys).*1) with tys; [done|].
    apply list_eq. intros j. rewrite list_lookup_fmap, list_lookup_imap.
    by destruct (tys !! j).
  - apply list_elem_of_lookup. exists i. by rewrite list_lookup_imap, Hi.
Qed.

Lemma find_Some_first {A} (P : A → bool) l x :
  List.find P l = Some x ↔
  ∃ l1 l2, l = l1 ++ x :: l2 ∧ P x = true ∧ ∀ y, y ∈ l1 → P y = false.
Proof.
  induction l as [|z l IH]; simpl.
  - split; [done|]. intros (l1 & l2 & H & _). by destruct l1.
  - destruct (P z) eqn:E.
    + split.
      * intros [= ->]. exists [], l. split_and!; [done..|]. by intros y ?%elem_of_nil.
      * intros (l1 & l2 & H & Hx & Hl1). destruct l1 as [|z' l1]; simplify_eq/=; [done|].
        rewrite Hl1 in E; [done|]. apply list_elem_of_here.
    + rewrite IH. split.
      * intros (l1 & l2 & -> & Hx & Hl1). exists (z :: l1), l2. split_and!; [done..|].
        intros y [->|?]%elem_of_cons; auto.
      * intros (l1 & l2 & H & Hx & Hl1). destruct l1 as [|z' l1]; simplify_eq/=.
        { congruence. }
        exists l1, l2. split_and!; [done..|]. intros y Hy. apply Hl1. by apply list_elem_of_further.
Qed.

Lemma find_None_all {A} (P : A → bool) l :
  List.find P l = None ↔ ∀ y, y ∈ l → P y = false.
Proof.
  induction l as [|z l IH]; simpl.
  - split; [|done]. by intros _ y ?%elem_of_nil.
  - destruct (P z) eqn:E.
    + split; [done|]. intros H. rewrite H in E; [done|]. apply list_elem_of_here.
    + rewrite IH. split.
      * intros H y [->|?]%elem_of_cons; auto.
      * intros H y Hy. apply H. by apply list_elem_of_further.
Qed.

Lemma covers_spec lo hi a : covers lo hi a = true ↔ lo ≤ a ≤ hi.
Proof. unfold covers. rewrite andb_true_iff, !Z.leb_le. done. Qed.

Lemma py_min_le x l : py_min x l ≤ x ∧ Forall (λ y, py_min x l ≤ y) l.
Proof.
  unfold py_min. revert x. induction l as [|y l IH]; intros x; simpl.
  - split; [lia|constructor].
  - destruct (IH (Z.min x y)) as [H1 H2]. split; [lia|]. constructor; [lia|done].
Qed.

Lemma py_max_ge x l : x ≤ py_max x l ∧ Forall (λ y, y ≤ py_max x l) l.
Proof.
  unfold py_max. revert x. induction l as [|y l IH]; intros x; simpl.
  - split; [lia|constructor].
  - destruct (IH (Z.max x y)) as [H1 H2]. split; [lia|]. constructor; [lia|done].
Qed.

Lemma py_min_elem x l : py_min x l ∈ x :: l.
Proof.
  unfold py_min. revert x. induction l as [|y l IH]; intros x; simpl.
  - apply list_elem_of_here.
  - specialize (IH (Z.min x y)). apply elem_of_cons in IH as [IH|IH].
    + rewrite IH. destruct (Z.min_spec x y) as [[_ E]|[_ E]]; rewrite E, !elem_of_cons; auto.
    + rewrite !elem_of_cons; auto.
Qed.

Lemma py_max_elem x l : py_max x l ∈ x :: l.
Proof.
  unfold py_max. revert x. induction l as [|y l IH]; intros x; simpl.
  - apply list_elem_of_here.
  - specialize (IH (Z.max x y)). apply elem_of_cons in IH as [IH|IH].
    + rewrite IH. destruct (Z.max_spec x y) as [[_ E]|[_ E]]; rewrite E, !elem_of_cons; auto.
    + rewrite !elem_of_cons; auto.
Qed.

Lemma rows_lookup (refs : list Z) k :
  foldl (λ m r, <[r := r]> m) (∅ : gmap Z Z) refs !! k = if decide (k ∈ refs) then Some k else None.
Proof.
  induction refs as [|r refs IH] using rev_ind.
  - cbn [foldl]. rewrite lookup_empty, decide_False; [done|]. by intros ?%elem_of_nil.
  - rewrite foldl_app. cbn [foldl]. destruct (decide (k = r)) as [->|Hne].
    + rewrite lookup_insert_eq, decide_True; [done|]. rewrite elem_of_app, list_elem_of_singleton. auto.
    + rewrite lookup_insert_ne, IH; [|done].
      repeat case_decide; try done; exfalso;
        rewrite elem_of_app, list_elem_of_singleton in *; naive_solver.
Qed.

Lemma rows_values (refs : list Z) k :
  k ∈ (list_to_set (map snd (map_to_list (foldl (λ m r, <[r := r]> m) (∅ : gmap Z Z) refs))) : gset Z)
  ↔ k ∈ refs.
Proof.
  rewrite elem_of_list_to_set, list_elem_of_fmap. split.
  - intros ([a b] & -> & H). apply elem_of_map_to_list in H. rewrite rows_lookup in H.
    case_decide; by simplify_eq/=.
  - intros H. exists (k, k). split; [done|]. apply elem_of_map_to_list.
    rewrite rows_lookup. by rewrite decide_True.
Qed.

(** *** Empty rows *)

Lemma sorted_ints_perm l : sorted_ints l ≡ₚ l.
Proof. apply py_sorted_perm. Qed.

Lemma StronglySorted_weaken {A} (R R' : A → A → Prop) l :
  (∀ x y, R x y → R' x y) → StronglySorted R l → StronglySorted R' l.
Proof.
  intros HR. induction 1 as [|x l Hl IH Hx]; constructor; [done|].
  eapply Forall_impl; [exact Hx|]. auto.
Qed.

Lemma sorted_ints_sorted l : StronglySorted Z.le (sorted_ints l).
Proof.
  apply (StronglySorted_weaken (keeps Z.ltb)).
  - unfold keeps. intros x y. lia.
  - apply py_sorted_sorted; unfold keeps; intros; lia.
Qed.

Lemma py_range_elem a b x : x ∈ py_range a b ↔ a ≤ x < b.
Proof. unfold py_range. rewrite elem_of_seqZ. lia. Qed.

Lemma empty_addresses_elem lo hi occ a :
  a ∈ empty_addresses lo hi occ ↔ lo ≤ a ≤ hi ∧ a ∉ occ.
Proof.
  unfold empty_addresses. rewrite sorted_ints_perm, elem_of_elements, elem_of_difference.
  rewrite elem_of_list_to_set, py_range_elem. intuition lia.
Qed.


Lemma empty_addresses_sorted lo hi occ : StronglySorted Z.le (empty_addresses lo hi occ).
Proof. apply sorted_ints_sorted. Qed.


Lemma bind_Ok_inv {A B} (m : result A) (k : A → result B) b :
  m ≫= k = Ok b ↔ ∃ a, m = Ok a ∧ k a = Ok b.
Proof. destruct m as [a|e]; simpl; [|naive_solver]. naive_solver. Qed.

(** Splitting a successful chain of binds in [H] into its steps. *)
Ltac inv_bind H :=
  repeat match type of H with
         | _ ≫= _ = Ok _ => apply bind_Ok_inv in H as (? & ? & H)
         end.

Lemma mapM_Ok_iff {A B} (f : A → result B) l ys :
  mapM f l = Ok ys ↔ Forall2 (λ x y, f x = Ok y) l ys.
Proof.
  revert ys. induction l as [|x l IH]; intros ys; simpl.
  - split; [intros [= <-]; constructor|]. by inversion 1.
  - rewrite bind_Ok_inv. split.
    + intros (y & Hy & H). apply bind_Ok_inv in H as (zs & Hzs & [= <-]).
      constructor; [done|]. by apply IH.
    + inversion 1 as [|? y ? zs Hy Hzs]; subst. exists y. split; [done|].
      apply IH in Hzs. by rewrite Hzs.
Qed.


Lemma mapM_length {A B} (f : A → result B) l ys : mapM f l = Ok ys → length ys = length l.
Proof. rewrite mapM_Ok_iff. intros H. symmetry. by eapply Forall2_length. Qed.

Section HeightFacts.
Local Open Scope Q_scope.

Lemma Qgtb_true x y : Qgtb x y = true ↔ y < x.
Proof.
  unfold Qgtb. rewrite negb_true_iff. split.
  - intros H. apply Qnot_le_lt. intros Hle. apply Qle_bool_iff in Hle. congruence.
  - intros H. destruct (Qle_bool x y) eqn:E; [|done].
    apply Qle_bool_iff in E. exfalso. by apply (Qlt_not_le _ _ H).
Qed.

Lemma Qgtb_false x y : Qgtb x y = false ↔ x <= y.
Proof. unfold Qgtb. by rewrite negb_false_iff, Qle_bool_iff. Qed.

Lemma Qltb_true x y : Qltb x y = true ↔ x < y.
Proof. apply Qgtb_true. Qed.

Lemma Qltb_false x y : Qltb x y = false ↔ y <= x.
Proof. apply Qgtb_false. Qed.

Lemma py_max2_Qmax a b : py_max2 a b == Qmax a b.
Proof.
  unfold py_max2. destruct (Qgtb b a) eqn:E.
  - apply Qgtb_true in E. symmetry. apply Q.max_r. by apply Qlt_le_weak.
  - apply Qgtb_false in E. symmetry. by apply Q.max_l.
Qed.

Lemma py_min2_Qmin a b : py_min2 a b == Qmin a b.
Proof.
  unfold py_min2. destruct (Qgtb a b) eqn:E.
  - apply Qgtb_true in E. symmetry. apply Q.min_r. by apply Qlt_le_weak.
  - apply Qgtb_false in E. symmetry. by apply Q.min_l.
Qed.

Lemma py_max3_Qmax a b c : py_max3 a b c == Qmax a (Qmax b c).
Proof.
  unfold py_max3. rewrite py_max2_Qmax.
  transitivity (Qmax (Qmax a b) c); [|by rewrite Q.max_assoc].
  apply Q.max_compat; [apply py_max2_Qmax|reflexivity].
Qed.

Lemma height_of_Qmax lo hi n base per_cap factor :
  height_of lo hi n base per_cap factor
  == Qmax base (Qmax (inject_Z (hi - lo) * factor) (inject_Z (Z.of_nat n) * per_cap)).
Proof. apply py_max3_Qmax. Qed.

Lemma height_of_base lo hi n base per_cap factor :
  base <= height_of lo hi n base per_cap factor.
Proof. rewrite height_of_Qmax. apply Q.le_max_l. Qed.

Lemma height_of_mono lo hi n lo' hi' n' base per_cap factor :
  0 <= per_cap → 0 <= factor →
  (hi - lo ≤ hi' - lo')%Z → (n ≤ n')%nat →
  height_of lo hi n base per_cap factor <= height_of lo' hi' n' base per_cap factor.
Proof.
  intros Hp Hf Hspan Hn. rewrite !height_of_Qmax.
  apply Q.max_le_compat; [apply Qle_refl|].
  apply Q.max_le_compat.
  - apply Qmult_le_compat_r; [|done]. rewrite <- Zle_Qle. done.
  - apply Qmult_le_compat_r; [|done]. rewrite <- Zle_Qle. lia.
Qed.

Lemma capped_mono h h' cap : h <= h' → py_min2 h cap <= py_min2 h' cap.
Proof.
  intros H. rewrite !py_min2_Qmin. apply Q.min_le_compat; [done|apply Qle_refl].
Qed.

Lemma capped_base h base cap : base <= h → base <= cap → base <= py_min2 h cap.
Proof. intros H1 H2. rewrite py_min2_Qmin. by apply Q.min_glb. Qed.
End HeightFacts.

Section CollectFacts.
Context {A B : Type}.
Implicit Types (body : A → nat → list B * nat) (l : list A) (k : nat).



Lemma collect_rel (R : B → B → Prop) body1 body2 l k :
  (∀ x k, x ∈ l → (body1 x k).2 = (body2 x k).2 ∧ Forall2 R (body1 x k).1 (body2 x k).1) →
  (collect body1 l k).2 = (collect body2 l k).2
  ∧ Forall2 R (collect body1 l k).1 (collect body2 l k).1.
Proof.
  revert k. induction l as [|x l IH]; intros k H; simpl; [by split|].
  destruct (H x k) as [H1 H2]; [apply list_elem_of_here|].
  destruct (body1 x k) as [ys1 k1], (body2 x k) as [ys2 k2]. simpl in *. subst k2.
  destruct (IH k1) as [H3 H4].
  { intros y k' Hy. apply H. by apply list_elem_of_further. }
  destruct (collect body1 l k1) as [zs1 k3], (collect body2 l k1) as [zs2 k4]. simpl in *.
  split; [done|]. by apply Forall2_app.
Qed.

End CollectFacts.

Section CollectMFacts.
Import Visualization.
Context {A B : Type}.
Implicit Types (body : A → nat → result (list B * nat)) (l : list A) (k : nat).



Lemma collectM_rel (R : B → B → Prop) body1 body2 l k :
  (∀ x k, x ∈ l → agree R (body1 x k) (body2 x k)) →
  agree R (collectM body1 l k) (collectM body2 l k).
Proof.
  revert k. induction l as [|x l IH]; intros k H; simpl; [by split|].
  pose proof (H x k (list_elem_of_here _ _)) as Hx.
  destruct (body1 x k) as [[ys1 k1]|e1], (body2 x k) as [[ys2 k2]|e2]; simpl in *; try done.
  destruct Hx as [<- Hys].
  assert (agree R (collectM body1 l k1) (collectM body2 l k1)) as IH'.
  { apply IH. intros y k' Hy. apply H. by apply list_elem_of_further. }
  clear IH. rename IH' into IH.
  destruct (collectM body1 l k1) as [[zs1 k3]|], (collectM body2 l k1) as [[zs2 k4]|];
    simpl in *; try done.
  destruct IH as [<- Hzs]. split; [done|]. by apply Forall2_app.
Qed.

End CollectMFacts.

(** * Facts about CapabilityClassVis.py *)

Section ClassVisFacts.
Import ClassVis.
Implicit Types (caps : list Capability) (cap c : Capability) (r a : Z).

Lemma group_get caps k : od_get k (group caps) = filter (λ c, type c = k) caps.
Proof. unfold group. by rewrite od_group_get. Qed.

Lemma group_keys_NoDup caps : NoDup (od_keys (group caps)).
Proof. apply (od_group_keys type). constructor. Qed.

Lemma group_keys_elem caps k : k ∈ od_keys (group caps) ↔ k ∈ map type caps.
Proof.
  unfold group. destruct (od_group_keys type [] caps) as [_ H]; [constructor|].
  rewrite H. simpl. rewrite elem_of_nil. naive_solver.
Qed.

Lemma sort_caps_perm l : sort_caps l ≡ₚ l.
Proof. apply py_sorted_perm. Qed.

Lemma type_caps_get caps k :
  od_get k (type_caps caps) = sort_caps (filter (λ c, type c = k) caps).
Proof.
  unfold od_get, type_caps. rewrite od_lookup_map.
  pose proof (group_get caps k) as H. unfold od_get in H.
  destruct (od_lookup k (group caps)) as [l|] eqn:E; simpl in *; by rewrite <- H.
Qed.

Lemma types_perm caps : types caps ≡ₚ od_keys (group caps).
Proof. unfold types, type_caps. by rewrite sorted_strings_perm, od_keys_map. Qed.

Lemma types_NoDup caps : NoDup (types caps).
Proof. rewrite types_perm. apply group_keys_NoDup. Qed.

Lemma types_elem caps k : k ∈ types caps ↔ ∃ c, c ∈ caps ∧ type c = k.
Proof.
  rewrite types_perm, group_keys_elem, list_elem_of_fmap. naive_solver.
Qed.

Lemma types_increasing caps : StronglySorted string_lt (types caps).
Proof.
  unfold types. apply sorted_strings_increasing.
  unfold type_caps. rewrite od_keys_map. apply group_keys_NoDup.
Qed.

Lemma type_info_lookup caps typ :
  typ ∈ types caps →
  type_info caps !!! typ = info_of (sort_caps (filter (λ c, type c = typ) caps)).
Proof.
  intros H. unfold type_info.
  rewrite (dict_of_keys_total (λ typ, info_of (od_get typ (type_caps caps)))); [|done].
  by rewrite type_caps_get.
Qed.

Lemma type_axes_lookup caps i typ :
  types caps !! i = Some typ → type_axes caps !!! typ = i.
Proof. apply enumerate_lookup, types_NoDup. Qed.

Lemma type_axes_info_lookup ctr caps typ :
  typ ∈ types caps →
  type_axes_info ctr caps !!! typ =
    {| axis := type_axes caps !!! typ;
       ai_min := ti_min (type_info caps !!! typ);
       ai_max := ti_max (type_info caps !!! typ);
       center_x := ctr (grid_layout (n_types caps)).1 (grid_layout (n_types caps)).2
                       (type_axes caps !!! typ) |}.
Proof.
  intros H. unfold type_axes_info. destruct (grid_layout (n_types caps)) as [nrows ncols].
  by rewrite (dict_of_keys_total (λ typ, mkAxesInfo _ _ _ _)).
Qed.

Lemma get_ref_range_none caps :
  (∀ c, c ∈ caps → reference c = None) → get_ref_range caps = (0, 1).
Proof.
  intros H. unfold get_ref_range.
  replace (omap reference caps) with (@nil Z); [done|].
  symmetry. induction caps as [|c caps IH]; [done|]. simpl.
  rewrite (H c); [|apply list_elem_of_here].
  apply IH. intros c' Hc'. apply H. by apply list_elem_of_further.
Qed.

Lemma elem_of_refs caps r : r ∈ omap reference caps ↔ ∃ c, c ∈ caps ∧ reference c = Some r.
Proof. rewrite list_elem_of_omap. naive_solver. Qed.

Lemma get_ref_range_bounds caps c r :
  c ∈ caps → reference c = Some r →
  (get_ref_range caps).1 ≤ r ≤ (get_ref_range caps).2.
Proof.
  intros Hc Hr. assert (r ∈ omap reference caps) as Hin by (apply elem_of_refs; eauto).
  unfold get_ref_range. destruct (omap reference caps) as [|r0 refs]; [by apply elem_of_nil in Hin|].
  simpl. destruct (py_min_le r0 refs) as [H1 H2], (py_max_ge r0 refs) as [H3 H4].
  rewrite Forall_forall in H2, H4.
  apply elem_of_cons in Hin as [->|Hin]; [lia|].
  specialize (H2 _ Hin). specialize (H4 _ Hin). lia.
Qed.

Lemma info_of_range caps : (ti_min (info_of caps), ti_max (info_of caps)) = get_ref_range caps.
Proof. unfold info_of. by destruct (get_ref_range caps). Qed.

Lemma info_of_caps caps : ti_caps (info_of caps) = caps.
Proof. unfold info_of. by destruct (get_ref_range caps). Qed.

Lemma info_of_rows caps : ti_y_positions (info_of caps) = y_positions_of caps.
Proof. unfold info_of. by destruct (get_ref_range caps). Qed.

Lemma info_of_height caps :
  ti_height (info_of caps) =
    py_min2 (calc_height (ti_min (info_of caps)) (ti_max (info_of caps)) (length caps))
            MAX_SUBPLOT_HEIGHT.
Proof. unfold info_of. by destruct (get_ref_range caps). Qed.

Lemma y_positions_lookup caps r :
  y_positions_of caps !! r = if decide (r ∈ omap reference caps) then Some r else None.
Proof. apply rows_lookup. Qed.

Lemma row_of_reference caps r : default r (y_positions_of caps !! r) = r.
Proof. rewrite y_positions_lookup. by case_decide. Qed.

Lemma occupied_elem caps a :
  a ∈ occupied (info_of caps) ↔ ∃ c, c ∈ caps ∧ reference c = Some a.
Proof. unfold occupied. rewrite info_of_rows, <- elem_of_refs. apply rows_values. Qed.


(** *** Rows *)

Lemma draw_capability_span cap y r :
  reference cap = Some r →
  drawn_span (draw_capability cap y) = Some (inject_Z x_min, inject_Z x_max).
Proof. intros H. unfold draw_capability, draw_sections. rewrite H. reflexivity. Qed.

Lemma draw_capability_xlim cap y :
  xlim_of (draw_capability cap y) = Some (x_min, x_max).
Proof. unfold draw_capability, draw_sections. by destruct (reference cap). Qed.

(** *** The loop body *)

Lemma target_type_Some tys tai addr t :
  target_type tys tai addr = Some t ↔ find_target tys tai addr = Some t ∧ t ≠ EmptyString.
Proof.
  unfold target_type. destruct (find_target tys tai addr) as [u|]; simpl; [|naive_solver].
  destruct (String.eqb_spec u EmptyString); naive_solver.
Qed.

Lemma arrow_of_intra rnd tys ti tai typ cap k ref addr :
  reference cap = Some ref → getAddress cap = Some addr →
  target_type tys tai addr = Some typ →
  arrow_of rnd tys ti tai typ cap k =
    ([{| src_ax := axis (tai !!! typ);
         src_pt := (if addr <? ref then x_min - 1 else x_max + 1,
                    (inject_Z (default ref (ti_y_positions (ti !!! typ) !! ref)) + (5 # 10))%Q);
         tgt_ax := axis (tai !!! typ);
         tgt_pt := (if addr <? ref then x_min - 1 else x_max + 1,
                    (inject_Z addr + uniform (1 # 10) (6 # 10) (rnd k))%Q);
         style := arc3 (Some (if addr <? ref then 3 # 10 else - (3 # 10))%Q) |}], S k).
Proof.
  intros Href Haddr Ht. unfold arrow_of. rewrite Href, Haddr, Ht, String.eqb_refl.
  by destruct (addr <? ref).
Qed.

Lemma arrow_of_cross rnd tys ti tai typ cap k ref addr target :
  reference cap = Some ref → getAddress cap = Some addr →
  target_type tys tai addr = Some target → target ≠ typ →
  arrow_of rnd tys ti tai typ cap k =
    ([{| src_ax := axis (tai !!! typ);
         src_pt := (if Qltb (center_x (tai !!! typ)) (center_x (tai !!! target))
                    then x_max else x_min,
                    (inject_Z (default ref (ti_y_positions (ti !!! typ) !! ref)) + (5 # 10))%Q);
         tgt_ax := axis (tai !!! target);
         tgt_pt := (if Qltb (center_x (tai !!! typ)) (center_x (tai !!! target))
                    then x_min else x_max,
                    (inject_Z addr + uniform (1 # 10) (6 # 10) (rnd k))%Q);
         style := arc3 None |}], S k).
Proof.
  intros Href Haddr Ht Hne. unfold arrow_of. rewrite Href, Haddr, Ht.
  destruct (String.eqb_spec typ target) as [->|_]; [done|].
  by destruct (Qltb _ _).
Qed.


Lemma arrow_of_skip_reference rnd tys ti tai typ cap k :
  reference cap = None → arrow_of rnd tys ti tai typ cap k = ([], k).
Proof. intros H. unfold arrow_of. by rewrite H. Qed.

Lemma arrow_of_skip_target rnd tys ti tai typ cap k addr :
  getAddress cap = Some addr → target_type tys tai addr = None →
  arrow_of rnd tys ti tai typ cap k = ([], k).
Proof. intros H1 H2. unfold arrow_of. rewrite H1, H2. by destruct (reference cap). Qed.

End ClassVisFacts.

(** * Facts about CapabilityVisualization.py *)

Section VisualizationFacts.
Import Visualization.
Implicit Types (caps data : list item) (cap : item) (r a : Z).

Lemma vz_find_target_find tys tai addr :
  find_target tys tai addr
  = List.find (λ t, covers (ai_min (tai !!! t)) (ai_max (tai !!! t)) addr) tys.
Proof. induction tys as [|t tys IH]; simpl; [done|]. by rewrite IH. Qed.

Lemma vz_arrow_of_intra rnd tys ti tai typ cap k ref v addr :
  ref_int cap = Ok ref → i_Address cap = Some v → py_int_of_str v = Some addr →
  find_target tys tai addr = Some typ →
  arrow_of rnd tys ti tai typ cap k =
    Ok ([{| src_ax := axis (tai !!! typ);
            src_pt := (if addr <? ref then x_min - 1 else x_max + 1,
                       (inject_Z (default ref (ti_y_positions (ti !!! typ) !! ref)) + (5 # 10))%Q);
            tgt_ax := axis (tai !!! typ);
            tgt_pt := (if addr <? ref then x_min - 1 else x_max + 1,
                       (inject_Z addr + uniform (1 # 10) (6 # 10) (rnd k))%Q);
            style := arc3 (Some (if addr <? ref then 3 # 10 else - (3 # 10))%Q) |}], S k).
Proof.
  intros Href Hv Haddr Ht. unfold arrow_of. rewrite Href, Hv. simpl.
  rewrite Haddr, Ht, String.eqb_refl. by destruct (addr <? ref).
Qed.

Lemma vz_arrow_of_cross rnd tys ti tai typ cap k ref v addr target :
  ref_int cap = Ok ref → i_Address cap = Some v → py_int_of_str v = Some addr →
  find_target tys tai addr = Some target → target ≠ typ →
  arrow_of rnd tys ti tai typ cap k =
    Ok ([{| src_ax := axis (tai !!! typ);
            src_pt := (if Qltb (center_x (tai !!! typ)) (center_x (tai !!! target))
                       then x_max else x_min,
                       (inject_Z (default ref (ti_y_positions (ti !!! typ) !! ref)) + (5 # 10))%Q);
            tgt_ax := axis (tai !!! target);
            tgt_pt := (if Qltb (center_x (tai !!! typ)) (center_x (tai !!! target))
                       then x_min else x_max,
                       (inject_Z addr + uniform (1 # 10) (6 # 10) (rnd k))%Q);
            style := style_omitted |}], S k).
Proof.
  intros Href Hv Haddr Ht Hne. unfold arrow_of. rewrite Href, Hv. simpl.
  rewrite Haddr, Ht. destruct (String.eqb_spec typ target) as [->|_]; [done|].
  by destruct (Qltb _ _).
Qed.


Lemma vz_arrow_of_skip_target rnd tys ti tai typ cap k ref v addr :
  ref_int cap = Ok ref → i_Address cap = Some v → py_int_of_str v = Some addr →
  find_target tys tai addr = None →
  arrow_of rnd tys ti tai typ cap k = Ok ([], k).
Proof.
  intros Href Hv Haddr Ht. unfold arrow_of. rewrite Href, Hv. simpl. by rewrite Haddr, Ht.
Qed.

(** The run raises nothing on a record exactly when it has every key and
    a number as its reference. *)
Lemma ref_int_Ok cap r :
  ref_int cap = Ok r ↔ ∃ v, i_Reference cap = Some v ∧ num_of v = Some r.
Proof.
  unfold ref_int, as_int, getitem. destruct (i_Reference cap) as [v|]; simpl.
  - destruct (num_of v) as [z|] eqn:E.
    + split; [intros [= ->]; eauto|]. intros (v' & [= <-] & H). congruence.
    + split; [done|]. intros (v' & [= <-] & H). congruence.
  - split; [done|]. by intros (v' & [=] & _).
Qed.


Lemma vz_group_into_Ok d data d' :
  group_into d data = Ok d' ↔
  Forall (λ cap, is_Some (i_Type cap)) data
  ∧ d' = foldl (λ d cap, od_append (type_of cap) cap d) d data.
Proof.
  revert d. induction data as [|cap data IH]; intros d; simpl.
  - split; [intros [= <-]; by split|]. by intros [_ ->].
  - rewrite Forall_cons. unfold getitem, type_of at 2. destruct (i_Type cap) as [t|]; simpl.
    + rewrite IH. split; [intros [? ?]; by repeat split|]. by intros [[_ ?] ?].
    + split; [done|]. by intros [[[? [=]] _] _].
Qed.

Lemma vz_group_Ok data d :
  group data = Ok d ↔
  Forall (λ cap, is_Some (i_Type cap)) data
  ∧ d = foldl (λ d cap, od_append (type_of cap) cap d) [] data.
Proof. apply vz_group_into_Ok. Qed.


Lemma zip_snd_sorted {A B} (before : A * B → A * B → bool) (xs : list A) (ys : list B) :
  length xs = length ys → map snd (py_sorted before (zip xs ys)) ≡ₚ ys.
Proof. intros H. by rewrite py_sorted_perm, snd_zip by lia. Qed.

Lemma vz_sort_caps_perm caps l : sort_caps caps = Ok l → l ≡ₚ caps.
Proof.
  unfold sort_caps. intros (keys & Hk & H)%bind_Ok_inv.
  destruct (_ && _); [done|]. injection H as <-.
  apply zip_snd_sorted. by apply mapM_length in Hk.
Qed.

Lemma forallb_is_num keys :
  forallb is_num keys = true ↔ ∃ zs, map num_of keys = map Some zs.
Proof.
  induction keys as [|v keys IH]; simpl.
  - split; [by exists []|done].
  - rewrite andb_true_iff, IH. unfold is_num. split.
    + intros [Hv [zs Hzs]]. destruct (num_of v) as [z|]; [|done]. exists (z :: zs). by rewrite Hzs.
    + intros [[|z zs] [= Hz Hzs]]. rewrite Hz. eauto.
Qed.


Lemma od_lookup_Forall2 {V} (R : list V → list V → Prop) (d d' : odict (list V)) k :
  Forall2 (λ kv kv', kv'.1 = kv.1 ∧ R kv.2 kv'.2) d d' →
  option_Forall2 R (od_lookup k d) (od_lookup k d').
Proof.
  induction 1 as [|[k1 v1] [k2 v2] d d' [Hk Hv] _ IH]; simpl in *; [constructor|].
  subst. destruct (String.eqb k k1); [by constructor|done].
Qed.

Lemma vz_type_caps_Ok data tc :
  type_caps data = Ok tc →
  Forall (λ cap, is_Some (i_Type cap)) data
  ∧ od_keys tc = od_keys (foldl (λ d cap, od_append (type_of cap) cap d) [] data)
  ∧ ∀ k, od_get k tc ≡ₚ filter (λ c, type_of c = k) data.
Proof.
  unfold type_caps. intros (d & [Hty ->]%vz_group_Ok & H)%bind_Ok_inv.
  set (d := foldl _ _ _) in *. apply mapM_Ok_iff in H.
  assert (Forall2 (λ kv kv', kv'.1 = kv.1 ∧ kv'.2 ≡ₚ kv.2) d tc) as HF.
  { eapply Forall2_impl; [exact H|]. intros [k l] [k' l'] (l0 & Hs & [= <- <-])%bind_Ok_inv.
    split; [done|]. by apply vz_sort_caps_perm. }
  split_and!; [done| |].
  - unfold od_keys. clear H. induction HF as [|?? ?? [? _]]; simpl; [done|]. by f_equal.
  - intros k. rewrite <- (app_nil_l (filter _ _)).
    change (@nil item) with (od_get k (@nil (string * list item))).
    rewrite <- (od_group_get type_of). fold d. unfold od_get.
    pose proof (od_lookup_Forall2 (λ l l', l' ≡ₚ l) d tc k HF) as Hl.
    destruct Hl; simpl; done.
Qed.

Lemma vz_types_NoDup data tc : type_caps data = Ok tc → NoDup (types tc).
Proof.
  intros (_ & Hk & _)%vz_type_caps_Ok. unfold types. rewrite sorted_strings_perm, Hk.
  apply (od_group_keys type_of). constructor.
Qed.

Lemma vz_types_elem data tc k :
  type_caps data = Ok tc → k ∈ types tc ↔ ∃ c, c ∈ data ∧ type_of c = k.
Proof.
  intros (_ & Hk & _)%vz_type_caps_Ok. unfold types. rewrite sorted_strings_perm, Hk.
  destruct (od_group_keys type_of [] data) as [_ H]; [constructor|].
  rewrite H. simpl. rewrite elem_of_nil, list_elem_of_fmap. naive_solver.
Qed.

Lemma vz_types_increasing data tc :
  type_caps data = Ok tc → StronglySorted string_lt (types tc).
Proof.
  intros (_ & Hk & _)%vz_type_caps_Ok. unfold types. apply sorted_strings_increasing.
  rewrite Hk. apply (od_group_keys type_of). constructor.
Qed.


Lemma vz_refs_keys caps refs :
  mapM ref_int caps = Ok refs →
  ∃ keys, mapM (λ cap, getitem "Reference" (i_Reference cap)) caps = Ok keys
          ∧ map num_of keys = map Some refs.
Proof.
  rewrite mapM_Ok_iff. induction 1 as [|c r caps refs Hr _ (keys & Hk & Hn)]; [by exists []|].
  apply ref_int_Ok in Hr as (v & Hv & Hr). exists (v :: keys). simpl.
  by rewrite Hv, Hk, Hr, Hn.
Qed.

Lemma value_lt_num v w x y :
  num_of v = Some x → num_of w = Some y → value_lt v w = (x <? y).
Proof. intros Hv Hw. unfold value_lt. rewrite Hv, Hw. by destruct v, w. Qed.

Lemma value_min_num v vs x xs :
  num_of v = Some x → map num_of vs = map Some xs →
  num_of (value_min v vs) = Some (py_min x xs).
Proof.
  unfold value_min, py_min. revert v x xs.
  induction vs as [|w vs IH]; intros v x [|y xs] Hv [=]; simpl; [done|].
  apply IH; [|done]. rewrite (value_lt_num w v y x) by done.
  destruct (Z.ltb_spec y x); [by rewrite Z.min_r by lia|by rewrite Z.min_l by lia].
Qed.

Lemma value_max_num v vs x xs :
  num_of v = Some x → map num_of vs = map Some xs →
  num_of (value_max v vs) = Some (py_max x xs).
Proof.
  unfold value_max, py_max. revert v x xs.
  induction vs as [|w vs IH]; intros v x [|y xs] Hv [=]; simpl; [done|].
  apply IH; [|done]. rewrite (value_lt_num v w x y) by done.
  destruct (Z.ltb_spec x y); [by rewrite Z.max_r by lia|by rewrite Z.max_l by lia].
Qed.

(** What [info_of] computes from the references of a group. *)
Lemma vz_info_of_refs caps refs :
  mapM ref_int caps = Ok refs →
  info_of caps =
    Ok {| ti_min := (range_of refs).1;
          ti_max := (range_of refs).2;
          ti_height := height_of (range_of refs).1 (range_of refs).2 (length caps)
                                 6 (6 # 10) (15 # 10);
          ti_caps := caps;
          ti_y_positions := foldl (λ m r, <[r := r]> m) ∅ refs |}.
Proof.
  intros Hrefs. destruct (vz_refs_keys _ _ Hrefs) as (keys & Hk & Hn).
  unfold info_of, get_reference_range, y_positions_of. rewrite Hrefs, Hk.
  pose proof (mapM_length _ _ _ Hk) as Hlen.
  destruct caps as [|c caps]; simpl.
  { destruct refs; [done|]. by apply mapM_length in Hrefs. }
  destruct keys as [|v keys]; [done|]. destruct refs as [|x refs]; [done|].
  injection Hn as Hv Hn. simpl.
  unfold calculate_figure_height, py_sub, as_int.
  rewrite (value_min_num _ _ _ _ Hv Hn), (value_max_num _ _ _ _ Hv Hn). done.
Qed.

Lemma vz_info_of_Ok caps info :
  info_of caps = Ok info → ∃ refs, mapM ref_int caps = Ok refs.
Proof.
  unfold info_of. intros H. inv_bind H.
  match goal with Hy : y_positions_of _ = Ok _ |- _ =>
    unfold y_positions_of in Hy; inv_bind Hy end.
  eauto.
Qed.


Lemma vz_refs_elem caps refs r :
  mapM ref_int caps = Ok refs → r ∈ refs ↔ ∃ c, c ∈ caps ∧ ref_int c = Ok r.
Proof.
  rewrite mapM_Ok_iff. induction 1 as [|c x caps refs Hx _ IH].
  - rewrite elem_of_nil. split; [done|]. by intros (c & ?%elem_of_nil & _).
  - rewrite elem_of_cons, IH. split.
    + intros [->|(c' & Hc' & Hr)]; [exists c|exists c']; rewrite elem_of_cons; auto.
    + intros (c' & [->|Hc']%elem_of_cons & Hr); [left; congruence|right; eauto].
Qed.

Lemma range_of_bounds refs r : r ∈ refs → (range_of refs).1 ≤ r ≤ (range_of refs).2.
Proof.
  destruct refs as [|r0 refs]; [by intros ?%elem_of_nil|]. simpl.
  destruct (py_min_le r0 refs) as [H1 H2], (py_max_ge r0 refs) as [H3 H4].
  rewrite Forall_forall in H2, H4.
  intros [->|Hin]%elem_of_cons; [lia|].
  specialize (H2 _ Hin). specialize (H4 _ Hin). lia.
Qed.

Lemma vz_type_info_lookup tc ti typ :
  NoDup (types tc) → type_info tc = Ok ti → typ ∈ types tc →
  info_of (od_get typ tc) = Ok (ti !!! typ).
Proof.
  intros Hnd. unfold type_info. intros (l & Hl & [= <-])%bind_Ok_inv Hin.
  apply mapM_Ok_iff in Hl.
  assert (l.*1 = types tc) as Hfst.
  { clear Hnd Hin. induction Hl as [|t [t' i] ?? (i' & _ & [= <- <-])%bind_Ok_inv]; simpl; [done|].
    by f_equal. }
  apply list_elem_of_lookup in Hin as [j Hj].
  destruct (Forall2_lookup_l _ _ _ _ _ Hl Hj) as ([t i] & Hlj & (i' & Hi & [= <- <-])%bind_Ok_inv).
  rewrite lookup_total_alt, (dict_of_pairs_lookup l typ i'); [done| |].
  - by rewrite Hfst.
  - by eapply list_elem_of_lookup_2.
Qed.








Lemma vz_draw_capability_span cap y ps ref :
  ref_int cap = Ok ref → draw_capability cap y = Ok ps →
  drawn_span ps = Some (inject_Z x_min, inject_Z x_max) ∧ xlim_of ps = Some (x_min, x_max).
Proof.
  intros (v & Hv & Hn)%ref_int_Ok. unfold draw_capability. rewrite Hv.
  intros H. inv_bind H. injection H as <-.
  destruct v; try done; by split.
Qed.

Lemma vz_type_axes_info_lookup ctr tys ti typ :
  typ ∈ tys →
  type_axes_info ctr tys ti !!! typ =
    {| axis := type_to_axis tys !!! typ;
       ai_min := ti_min (ti !!! typ);
       ai_max := ti_max (ti !!! typ);
       center_x := ctr (grid_layout (length tys)).1 (grid_layout (length tys)).2
                       (type_to_axis tys !!! typ) |}.
Proof.
  intros H. unfold type_axes_info. destruct (grid_layout (length tys)) as [nrows ncols].
  by rewrite (dict_of_keys_total (λ typ, mkAxesInfo _ _ _ _)).
Qed.

End VisualizationFacts.

(** * Facts about the runs *)

Lemma distinct_count (ks l : list string) :
  NoDup ks → (∀ k, k ∈ ks ↔ k ∈ l) → length ks = size (list_to_set l : gset string).
Proof.
  intros Hnd H. rewrite <- (size_list_to_set (C:=gset string) ks Hnd). f_equal.
  apply set_eq. intros k. by rewrite !elem_of_list_to_set.
Qed.

Lemma cv_types_count caps :
  length (ClassVis.types caps) = size (list_to_set (map ClassVis.type caps) : gset string).
Proof.
  apply distinct_count; [apply types_NoDup|]. intros k.
  rewrite types_elem, list_elem_of_fmap. naive_solver.
Qed.

Lemma cv_types_of_data data :
  map ClassVis.type (ClassVis.capabilities data) = map type_of data.
Proof. unfold ClassVis.capabilities. rewrite map_map. done. Qed.

Lemma vz_types_count data tc :
  Visualization.type_caps data = Ok tc →
  length (Visualization.types tc) = size (list_to_set (map type_of data) : gset string).
Proof.
  intros H. apply distinct_count; [by eapply vz_types_NoDup|]. intros k.
  rewrite (vz_types_elem _ _ _ H), list_elem_of_fmap. naive_solver.
Qed.

Lemma vz_run_grid ctr rnd data fig :
  Visualization.run ctr rnd data = Ok fig →
  ∃ tc, Visualization.type_caps data = Ok tc
        ∧ fig_grid fig = grid_layout (length (Visualization.types tc)).
Proof.
  unfold Visualization.run. intros (tc & Htc & H)%bind_Ok_inv. exists tc. split; [done|].
  inv_bind H. by injection H as <-.
Qed.

Lemma vz_info_of_height caps info :
  Visualization.info_of caps = Ok info →
  Visualization.ti_height info
  = height_of (Visualization.ti_min info) (Visualization.ti_max info) (length caps)
              6 (6 # 10) (15 # 10).
Proof.
  intros H. destruct (vz_info_of_Ok _ _ H) as [refs Hrefs].
  rewrite (vz_info_of_refs _ _ Hrefs) in H. by injection H as <-.
Qed.

Lemma vz_occupied_elem caps info a :
  Visualization.info_of caps = Ok info →
  a ∈ Visualization.occupied info ↔ ∃ c, c ∈ caps ∧ Visualization.ref_int c = Ok a.
Proof.
  intros H. destruct (vz_info_of_Ok _ _ H) as [refs Hrefs].
  rewrite (vz_info_of_refs _ _ Hrefs) in H. injection H as <-.
  unfold Visualization.occupied. simpl. rewrite rows_values. by apply vz_refs_elem.
Qed.


Lemma uniform_jittered addr r :
  (0 <= r)%Q → (r < 1)%Q →
  jittered addr (inject_Z addr + uniform (1 # 10) (6 # 10) r).
Proof. intros H0 H1. unfold jittered, uniform. split; lra. Qed.

Lemma cv_arrow_of_same_route rnd1 rnd2 tys ti tai typ cap k :
  (∀ k, 0 <= rnd1 k ∧ rnd1 k < 1)%Q → (∀ k, 0 <= rnd2 k ∧ rnd2 k < 1)%Q →
  (ClassVis.arrow_of rnd1 tys ti tai typ cap k).2 = (ClassVis.arrow_of rnd2 tys ti tai typ cap k).2
  ∧ Forall2 same_route (ClassVis.arrow_of rnd1 tys ti tai typ cap k).1
                       (ClassVis.arrow_of rnd2 tys ti tai typ cap k).1.
Proof.
  intros H1 H2. unfold ClassVis.arrow_of.
  destruct (ClassVis.reference cap) as [ref|]; [|by split].
  destruct (ClassVis.getAddress cap) as [addr|]; [|by split].
  destruct (ClassVis.target_type tys tai addr) as [target|]; [|by split].
  destruct (if String.eqb typ target then _ else _) as [[sx tx] sty]. simpl.
  split; [done|]. constructor; [|constructor].
  unfold same_route. simpl. split_and!; try done.
  exists addr. split; apply uniform_jittered; by (apply H1 || apply H2).
Qed.

Lemma cv_arrows_same_route ctr rnd1 rnd2 caps :
  (∀ k, 0 <= rnd1 k ∧ rnd1 k < 1)%Q → (∀ k, 0 <= rnd2 k ∧ rnd2 k < 1)%Q →
  Forall2 same_route (ClassVis.arrows ctr rnd1 caps) (ClassVis.arrows ctr rnd2 caps).
Proof.
  intros H1 H2. unfold ClassVis.arrows, ClassVis.arrows_from.
  apply collect_rel. intros typ k _. apply collect_rel. intros cap k' _.
  by apply cv_arrow_of_same_route.
Qed.

Lemma vz_arrow_of_same_route rnd1 rnd2 tys ti tai typ cap k :
  (∀ k, 0 <= rnd1 k ∧ rnd1 k < 1)%Q → (∀ k, 0 <= rnd2 k ∧ rnd2 k < 1)%Q →
  agree same_route (Visualization.arrow_of rnd1 tys ti tai typ cap k)
                   (Visualization.arrow_of rnd2 tys ti tai typ cap k).
Proof.
  intros H1 H2. unfold Visualization.arrow_of.
  destruct (Visualization.ref_int cap) as [ref|e]; simpl; [|done].
  destruct (getitem "Address" (i_Address cap)) as [v|e]; simpl; [|done].
  destruct (py_int_of_str v) as [addr|]; [|by split].
  destruct (Visualization.find_target tys tai addr) as [target|]; [|by split].
  destruct (if String.eqb typ target then _ else _) as [[sx tx] sty]. simpl.
  split; [done|]. constructor; [|constructor].
  unfold same_route. simpl. split_and!; try done.
  exists addr. split; apply uniform_jittered; by (apply H1 || apply H2).
Qed.

Lemma vz_arrows_same_route ctr rnd1 rnd2 tys ti k :
  (∀ k, 0 <= rnd1 k ∧ rnd1 k < 1)%Q → (∀ k, 0 <= rnd2 k ∧ rnd2 k < 1)%Q →
  agree same_route (Visualization.arrows_from ctr rnd1 tys ti k)
                   (Visualization.arrows_from ctr rnd2 tys ti k).
Proof.
  intros H1 H2. unfold Visualization.arrows_from.
  apply collectM_rel. intros typ k1 _. apply collectM_rel. intros cap k2 _.
  by apply vz_arrow_of_same_route.
Qed.

Lemma StronglySorted_lookup_lt {A} (R : A → A → Prop) (l : list A) i j x y :
  StronglySorted R l → l !! i = Some x → l !! j = Some y → (i < j)%nat → R x y.
Proof.
  intros Hs. revert i j. induction Hs as [|z l Hs IH Hz]; intros i j Hi Hj Hlt.
  - done.
  - destruct j as [|j]; [lia|]. simpl in Hj. destruct i as [|i]; simpl in Hi.
    + simplify_eq. rewrite Forall_forall in Hz. apply Hz. by eapply list_elem_of_lookup_2.
    + apply (IH i j); [done..|lia].
Qed.

Lemma cv_sort_caps_sorted l :
  StronglySorted (λ c1 c2, ClassVis.sort_key c2 ≤ ClassVis.sort_key c1) (ClassVis.sort_caps l).
Proof.
  apply (StronglySorted_weaken (keeps (λ y x, ClassVis.sort_key x <? ClassVis.sort_key y))).
  - unfold keeps. intros x y. lia.
  - apply py_sorted_sorted; unfold keeps; intros; lia.
Qed.

Lemma cv_draw_caps_rows caps :
  ClassVis.draw_caps (ClassVis.info_of caps)
  = flat_map (λ c, match ClassVis.reference c with
                   | Some r => ClassVis.draw_capability c r
                   | None => []
                   end) caps.
Proof.
  unfold ClassVis.draw_caps. rewrite info_of_caps, info_of_rows.
  apply flat_map_ext. intros c. destruct (ClassVis.reference c) as [r|]; [|done].
  by rewrite row_of_reference.
Qed.

Lemma cv_row_in_draw_caps info cap r p :
  cap ∈ ClassVis.ti_caps info → ClassVis.reference cap = Some r →
  p ∈ ClassVis.draw_capability cap (default r (ClassVis.ti_y_positions info !! r)) →
  p ∈ ClassVis.draw_caps info.
Proof.
  intros Hc Hr Hp. unfold ClassVis.draw_caps.
  apply list_elem_of_In, in_flat_map. exists cap. rewrite <- !list_elem_of_In.
  split; [done|]. by rewrite Hr.
Qed.

(** Every descriptor that has a reference has its row on the figure. *)
Lemma cv_row_drawn_referenced caps c r :
  c ∈ caps → ClassVis.reference c = Some r → ClassVis.row_drawn caps c.
Proof.
  intros Hc Hr. exists r. intros p Hp.
  assert (ClassVis.type c ∈ ClassVis.types caps) as Hin by (apply types_elem; eauto).
  unfold ClassVis.draw_all. apply list_elem_of_In, in_flat_map.
  exists (ClassVis.type c). rewrite <- !list_elem_of_In. split; [done|].
  unfold ClassVis.draw_type. apply list_elem_of_fmap. exists p. split; [done|].
  apply elem_of_app. left. rewrite type_info_lookup by done.
  eapply cv_row_in_draw_caps; [|exact Hr|].
  - rewrite info_of_caps, sort_caps_perm, list_elem_of_filter. done.
  - by rewrite info_of_rows, row_of_reference.
Qed.

Lemma vz_row_in_draw_caps info ps cap ref :
  Visualization.draw_caps info = Ok ps → cap ∈ Visualization.ti_caps info →
  Visualization.ref_int cap = Ok ref →
  ∃ row, Visualization.draw_capability cap
           (default ref (Visualization.ti_y_positions info !! ref)) = Ok row
         ∧ ∀ p, p ∈ row → p ∈ ps.
Proof.
  unfold Visualization.draw_caps. intros (l & Hl & [= <-])%bind_Ok_inv Hc Href.
  apply mapM_Ok_iff in Hl. apply list_elem_of_lookup in Hc as [i Hi].
  destruct (Forall2_lookup_l _ _ _ _ _ Hl Hi) as (row & Hrow & Hd).
  rewrite Href in Hd. simpl in Hd. exists row. split; [done|].
  intros p Hp. apply list_elem_of_In, in_concat. exists row.
  rewrite <- !list_elem_of_In. split; [|done]. by eapply list_elem_of_lookup_2.
Qed.

(** The scan for a target: the first type of the list whose range covers
    the address, and none exactly when no range covers it. *)
Lemma cv_find_target_first tys (tai : gmap string ClassVis.AxesInfo) addr t :
  ClassVis.find_target tys tai addr = Some t ↔
  ∃ before after, tys = before ++ t :: after
    ∧ ClassVis.ai_min (tai !!! t) ≤ addr ≤ ClassVis.ai_max (tai !!! t)
    ∧ ∀ u, u ∈ before →
           ¬ (ClassVis.ai_min (tai !!! u) ≤ addr ≤ ClassVis.ai_max (tai !!! u)).
Proof.
  unfold ClassVis.find_target. rewrite find_Some_first.
  setoid_rewrite <- covers_spec. setoid_rewrite not_true_iff_false. done.
Qed.

Lemma cv_find_target_none tys (tai : gmap string ClassVis.AxesInfo) addr :
  ClassVis.find_target tys tai addr = None ↔
  ∀ u, u ∈ tys → ¬ (ClassVis.ai_min (tai !!! u) ≤ addr ≤ ClassVis.ai_max (tai !!! u)).
Proof.
  unfold ClassVis.find_target. rewrite find_None_all.
  setoid_rewrite <- covers_spec. setoid_rewrite not_true_iff_false. done.
Qed.

Lemma vz_find_target_first tys (tai : gmap string Visualization.AxesInfo) addr t :
  Visualization.find_target tys tai addr = Some t ↔
  ∃ before after, tys = before ++ t :: after
    ∧ Visualization.ai_min (tai !!! t) ≤ addr ≤ Visualization.ai_max (tai !!! t)
    ∧ ∀ u, u ∈ before →
           ¬ (Visualization.ai_min (tai !!! u) ≤ addr ≤ Visualization.ai_max (tai !!! u)).
Proof.
  rewrite vz_find_target_find, find_Some_first.
  setoid_rewrite <- covers_spec. setoid_rewrite not_true_iff_false. done.
Qed.

Lemma vz_find_target_none tys (tai : gmap string Visualization.AxesInfo) addr :
  Visualization.find_target tys tai addr = None ↔
  ∀ u, u ∈ tys →
       ¬ (Visualization.ai_min (tai !!! u) ≤ addr ≤ Visualization.ai_max (tai !!! u)).
Proof.
  rewrite vz_find_target_find, find_None_all.
  setoid_rewrite <- covers_spec. setoid_rewrite not_true_iff_false. done.
Qed.

(** In a strictly increasing list, the element before which nothing
    qualifies is the least that qualifies. *)
Lemma first_is_least (P : string → Prop) tys before t after :
  StronglySorted string_lt tys → tys = before ++ t :: after →
  (∀ u, u ∈ before → ¬ P u) →
  ∀ u, u ∈ tys → P u → u = t ∨ string_lt t u.
Proof.
  intros Hs -> Hb u Hu HP.
  apply elem_of_app in Hu as [Hu|Hu]; [by destruct (Hb u Hu)|].
  apply elem_of_cons in Hu as [->|Hu]; [by left|right].
  apply StronglySorted_app_1_r in Hs. inversion Hs as [|?? _ Hall]; subst.
  rewrite Forall_forall in Hall. by apply Hall.
Qed.

(** The types A with range [[0, 10]] and B with range [[5, 15]]: address 7
    resolves to A in both scripts. *)
Example resolve_overlap_ClassVis :
  ClassVis.target_type ["A"; "B"]%string
    (<["A"%string := ClassVis.mkAxesInfo 0 0 10 0]>
       (<["B"%string := ClassVis.mkAxesInfo 1 5 15 0]> ∅)) 7
  = Some "A"%string.
Proof. reflexivity. Qed.

Example resolve_overlap_Visualization :
  Visualization.find_target ["A"; "B"]%string
    (<["A"%string := Visualization.mkAxesInfo 0 0 10 0]>
       (<["B"%string := Visualization.mkAxesInfo 1 5 15 0]> ∅)) 7
  = Some "A"%string.
Proof. reflexivity. Qed.

(** The defensive script takes a scan that ends on the empty string for a
    scan that found nothing. *)
Lemma cv_target_type_None tys (tai : gmap string ClassVis.AxesInfo) addr :
  ClassVis.target_type tys tai addr = None ↔
  ClassVis.find_target tys tai addr = None
  ∨ ClassVis.find_target tys tai addr = Some EmptyString.
Proof.
  unfold ClassVis.target_type.
  destruct (ClassVis.find_target tys tai addr) as [u|]; simpl; [|by split; auto].
  destruct (String.eqb_spec u EmptyString) as [->|Hne].
  - split; auto.
  - split; [done|]. intros [[=]|[= ->]]. done.
Qed.

Lemma cv_unreferenced_range caps typ :
  typ ∈ ClassVis.types caps →
  (∀ c, c ∈ caps → ClassVis.type c = typ → ClassVis.reference c = None) →
  ClassVis.ti_min (ClassVis.type_info caps !!! typ) = 0
  ∧ ClassVis.ti_max (ClassVis.type_info caps !!! typ) = 1
  ∧ ClassVis.draw_caps (ClassVis.type_info caps !!! typ) = [].
Proof.
  intros Hin Hnone. rewrite type_info_lookup by done.
  set (members := ClassVis.sort_caps _).
  assert (∀ c, c ∈ members → ClassVis.reference c = None) as Hm.
  { intros c. unfold members. rewrite sort_caps_perm, list_elem_of_filter.
    intros [? ?]. by apply Hnone. }
  pose proof (info_of_range members) as Hr. rewrite (get_ref_range_none _ Hm) in Hr.
  injection Hr as -> ->. split_and!; [done..|].
  rewrite cv_draw_caps_rows. clear -Hm. induction members as [|c l IH]; [done|]. simpl.
  rewrite (Hm c) by apply list_elem_of_here. apply IH.
  intros c' Hc'. apply Hm. by apply list_elem_of_further.
Qed.

(** A group without any reference is the target of the addresses 0 and 1
    that no earlier type covers, unless its type is the empty string. *)
Lemma cv_unreferenced_group_target ctr caps typ addr :
  typ ∈ ClassVis.types caps →
  (∀ c, c ∈ caps → ClassVis.type c = typ → ClassVis.reference c = None) →
  addr = 0 ∨ addr = 1 →
  (∀ u, u ∈ ClassVis.types caps → string_lt u typ →
        ¬ (ClassVis.ti_min (ClassVis.type_info caps !!! u) ≤ addr
           ≤ ClassVis.ti_max (ClassVis.type_info caps !!! u))) →
  ClassVis.find_target (ClassVis.types caps) (ClassVis.type_axes_info ctr caps) addr = Some typ
  ∧ (typ ≠ EmptyString →
     ClassVis.target_type (ClassVis.types caps) (ClassVis.type_axes_info ctr caps) addr
     = Some typ).
Proof.
  intros Hin Hnone Haddr Hbefore.
  assert (ClassVis.find_target (ClassVis.types caps) (ClassVis.type_axes_info ctr caps) addr
          = Some typ) as Hfind.
  { apply cv_find_target_first.
    destruct (list_elem_of_split _ _ Hin) as (before & after & Hsplit).
    exists before, after. split; [done|].
    destruct (cv_unreferenced_range caps typ Hin Hnone) as (Hmin & Hmax & _).
    split.
    - rewrite type_axes_info_lookup by done. simpl. lia.
    - intros u Hu.
      assert (u ∈ ClassVis.types caps) as Hu'.
      { rewrite Hsplit, elem_of_app. by left. }
      rewrite type_axes_info_lookup by done. simpl. apply Hbefore; [done|].
      pose proof (types_increasing caps) as Hs. rewrite Hsplit in Hs.
      eapply (StronglySorted_app_1_elem_of _ _ _ _ _ Hs); [done|apply list_elem_of_here]. }
  split; [done|]. intros Hne. by apply target_type_Some.
Qed.

(** * The properties of the specification *)

(** C1, at the input where the code departs from it.  The record has the
    empty string as its type, reference 0 and address "0".  The scan finds
    the type whose range covers the address, but the defensive script
    tests the result with [not], which holds for the empty string as for
    [None]: it resolves no target and draws no arrow.  The strict script
    tests [is None] and draws the loop. *)
Theorem C1_empty_type_resolves_to_nothing :
  ClassVis.types (ClassVis.capabilities [labelled (Some EmptyString) (Some (VInt 0)) (Some (VStr "0"))])
    = [EmptyString]
  ∧ ClassVis.find_target
      (ClassVis.types (ClassVis.capabilities [labelled (Some EmptyString) (Some (VInt 0)) (Some (VStr "0"))]))
      (ClassVis.type_axes_info even_centres
         (ClassVis.capabilities [labelled (Some EmptyString) (Some (VInt 0)) (Some (VStr "0"))])) 0
    = Some EmptyString
  ∧ ClassVis.target_type
      (ClassVis.types (ClassVis.capabilities [labelled (Some EmptyString) (Some (VInt 0)) (Some (VStr "0"))]))
      (ClassVis.type_axes_info even_centres
         (ClassVis.capabilities [labelled (Some EmptyString) (Some (VInt 0)) (Some (VStr "0"))])) 0
    = None
  ∧ fig_arrows (ClassVis.run even_centres half
                  [labelled (Some EmptyString) (Some (VInt 0)) (Some (VStr "0"))]) = []
  ∧ ∃ fig arrow,
      Visualization.run even_centres half
        [labelled (Some EmptyString) (Some (VInt 0)) (Some (VStr "0"))] = Ok fig
      ∧ fig_arrows fig = [arrow]
      ∧ src_ax arrow = 0%nat ∧ tgt_ax arrow = 0%nat ∧ right_loop arrow.
Proof.
  split_and!; try by vm_compute.
  eexists _, _. split; [by vm_compute|]. split; [reflexivity|]. by vm_compute.
Qed.

(** C2.  A descriptor whose resolved target is its own type gets a loop
    whose side and curvature follow from comparing its address with its
    reference: left of the panel and convex when the address is smaller,
    right of the panel and concave otherwise, equality included.  The
    anchors are one unit outside the span of what a row draws.  Both
    scripts. *)
Theorem C2_intra_panel_arrow :
  (∀ (rnd : nat → Q) tys ti tai typ cap k ref addr,
     ClassVis.reference cap = Some ref →
     ClassVis.getAddress cap = Some addr →
     ClassVis.target_type tys tai addr = Some typ →
     (∀ y, drawn_span (ClassVis.draw_capability cap y) = Some (inject_Z x_min, inject_Z x_max))
     ∧ ∃ arrow, ClassVis.arrow_of rnd tys ti tai typ cap k = ([arrow], S k)
         ∧ tgt_ax arrow = src_ax arrow
         ∧ (addr < ref → left_loop arrow)
         ∧ (ref ≤ addr → right_loop arrow))
  ∧ (∀ (rnd : nat → Q) tys ti tai typ cap k ref v addr,
     Visualization.ref_int cap = Ok ref →
     i_Address cap = Some v → py_int_of_str v = Some addr →
     Visualization.find_target tys tai addr = Some typ →
     (∀ y ps, Visualization.draw_capability cap y = Ok ps →
              drawn_span ps = Some (inject_Z x_min, inject_Z x_max))
     ∧ ∃ arrow, Visualization.arrow_of rnd tys ti tai typ cap k = Ok ([arrow], S k)
         ∧ tgt_ax arrow = src_ax arrow
         ∧ (addr < ref → left_loop arrow)
         ∧ (ref ≤ addr → right_loop arrow)).
Proof.
  split.
  - intros rnd tys ti tai typ cap k ref addr Href Haddr Ht.
    split; [intros y; by eapply draw_capability_span|].
    eexists. split; [by apply arrow_of_intra|]. split; [done|].
    unfold left_loop, right_loop. simpl.
    split; intros H.
    + rewrite (proj2 (Z.ltb_lt addr ref)) by done. done.
    + rewrite (proj2 (Z.ltb_ge addr ref)) by done. done.
  - intros rnd tys ti tai typ cap k ref v addr Href Hv Haddr Ht.
    split; [intros y ps Hps; by eapply vz_draw_capability_span|].
    eexists. split; [by eapply vz_arrow_of_intra|]. split; [done|].
    unfold left_loop, right_loop. simpl.
    split; intros H.
    + rewrite (proj2 (Z.ltb_lt addr ref)) by done. done.
    + rewrite (proj2 (Z.ltb_ge addr ref)) by done. done.
Qed.

(** C3.  A descriptor whose resolved target is another type gets a
    straight connector between the facing edges: from the right edge of
    its panel to the left edge of the target's when the centre of its
    panel is left of the target's, the other way round otherwise.  The
    centres compared are those of the two axes in figure coordinates.
    Both scripts. *)
Theorem C3_cross_panel_arrow :
  (∀ (rnd : nat → Q) tys ti tai typ cap k ref addr target,
     ClassVis.reference cap = Some ref →
     ClassVis.getAddress cap = Some addr →
     ClassVis.target_type tys tai addr = Some target → target ≠ typ →
     ∃ arrow, ClassVis.arrow_of rnd tys ti tai typ cap k = ([arrow], S k)
       ∧ src_ax arrow = ClassVis.axis (tai !!! typ)
       ∧ tgt_ax arrow = ClassVis.axis (tai !!! target)
       ∧ ((ClassVis.center_x (tai !!! typ) < ClassVis.center_x (tai !!! target))%Q
          → rightwards arrow)
       ∧ ((ClassVis.center_x (tai !!! target) <= ClassVis.center_x (tai !!! typ))%Q
          → leftwards arrow))
  ∧ (∀ (rnd : nat → Q) tys ti tai typ cap k ref v addr target,
     Visualization.ref_int cap = Ok ref →
     i_Address cap = Some v → py_int_of_str v = Some addr →
     Visualization.find_target tys tai addr = Some target → target ≠ typ →
     ∃ arrow, Visualization.arrow_of rnd tys ti tai typ cap k = Ok ([arrow], S k)
       ∧ src_ax arrow = Visualization.axis (tai !!! typ)
       ∧ tgt_ax arrow = Visualization.axis (tai !!! target)
       ∧ ((Visualization.center_x (tai !!! typ) < Visualization.center_x (tai !!! target))%Q
          → rightwards arrow)
       ∧ ((Visualization.center_x (tai !!! target) <= Visualization.center_x (tai !!! typ))%Q
          → leftwards arrow))
  ∧ (∀ (ctr : nat → nat → nat → Q) caps typ,
     typ ∈ ClassVis.types caps →
     ClassVis.center_x (ClassVis.type_axes_info ctr caps !!! typ)
     = ctr (grid_layout (ClassVis.n_types caps)).1 (grid_layout (ClassVis.n_types caps)).2
           (ClassVis.type_axes caps !!! typ))
  ∧ (∀ (ctr : nat → nat → nat → Q) tys ti typ,
     typ ∈ tys →
     Visualization.center_x (Visualization.type_axes_info ctr tys ti !!! typ)
     = ctr (grid_layout (length tys)).1 (grid_layout (length tys)).2
           (Visualization.type_to_axis tys !!! typ)).
Proof.
  split_and!.
  - intros rnd tys ti tai typ cap k ref addr target Href Haddr Ht Hne.
    eexists. split; [by apply arrow_of_cross|]. split; [done|]. split; [done|].
    unfold rightwards, leftwards. simpl. split; intros H.
    + rewrite (proj2 (Qltb_true _ _)) by done. by repeat split.
    + rewrite (proj2 (Qltb_false _ _)) by done. by repeat split.
  - intros rnd tys ti tai typ cap k ref v addr target Href Hv Haddr Ht Hne.
    eexists. split; [by eapply vz_arrow_of_cross|]. split; [done|]. split; [done|].
    unfold rightwards, leftwards. simpl. split; intros H.
    + rewrite (proj2 (Qltb_true _ _)) by done. by repeat split.
    + rewrite (proj2 (Qltb_false _ _)) by done. by repeat split.
  - intros ctr caps typ Hin. by rewrite type_axes_info_lookup.
  - intros ctr tys ti typ Hin. by rewrite vz_type_axes_info_lookup.
Qed.

(** C4.  The grid of a run is the entry of the table for the number of
    distinct types of the input: 1x1, 1x2, 1x3, 2x2, 2x3 for five and for
    six, and one row of n panels for every other n.  Both scripts. *)
Theorem C4_grid_shape (ctr : nat → nat → nat → Q) (rnd : nat → Q) (data : list item) :
  let n := size (list_to_set (map type_of data) : gset string) in
  let shape := match n with
               | 1 => (1, 1)
               | 2 => (1, 2)
               | 3 => (1, 3)
               | 4 => (2, 2)
               | 5 | 6 => (2, 3)
               | _ => (1, n)
               end%nat in
  fig_grid (ClassVis.run ctr rnd data) = shape
  ∧ ∀ fig, Visualization.run ctr rnd data = Ok fig → fig_grid fig = shape.
Proof.
  intros n shape. split.
  - unfold ClassVis.run, ClassVis.n_types. simpl.
    by rewrite cv_types_count, cv_types_of_data.
  - intros fig (tc & Htc & ->)%vz_run_grid. by rewrite (vz_types_count _ _ Htc).
Qed.

(** C5.  The height of a panel is the largest of the base height 6, 1.5
    times the span of its references and 0.6 times the number of its
    members, capped at 10 in the script that has a cap; it never falls
    below 6 and does not decrease when the span and the member count
    grow.  Both scripts. *)
Theorem C5_panel_height :
  (∀ caps caps' : list ClassVis.Capability,
     let info := ClassVis.info_of caps in
     let info' := ClassVis.info_of caps' in
     let span := ClassVis.ti_max info - ClassVis.ti_min info in
     let span' := ClassVis.ti_max info' - ClassVis.ti_min info' in
     (ClassVis.ti_min info, ClassVis.ti_max info) = ClassVis.get_ref_range caps
     ∧ (ClassVis.ti_height info ==
          Qmin (Qmax 6 (Qmax (inject_Z span * (15 # 10))
                             (inject_Z (Z.of_nat (length caps)) * (6 # 10)))) 10)%Q
     ∧ (6 <= ClassVis.ti_height info)%Q
     ∧ (span ≤ span' → (length caps ≤ length caps')%nat →
        (ClassVis.ti_height info <= ClassVis.ti_height info')%Q))
  ∧ (∀ (caps caps' : list item) info info',
     Visualization.info_of caps = Ok info →
     Visualization.info_of caps' = Ok info' →
     let span := Visualization.ti_max info - Visualization.ti_min info in
     let span' := Visualization.ti_max info' - Visualization.ti_min info' in
     (∃ refs, mapM Visualization.ref_int caps = Ok refs
              ∧ (Visualization.ti_min info, Visualization.ti_max info) = range_of refs)
     ∧ (Visualization.ti_height info ==
          Qmax 6 (Qmax (inject_Z span * (15 # 10))
                       (inject_Z (Z.of_nat (length caps)) * (6 # 10))))%Q
     ∧ (6 <= Visualization.ti_height info)%Q
     ∧ (span ≤ span' → (length caps ≤ length caps')%nat →
        (Visualization.ti_height info <= Visualization.ti_height info')%Q)).
Proof.
  split.
  - intros caps caps' info info' span span'. subst info info' span span'.
    split; [apply info_of_range|]. rewrite !info_of_height.
    unfold ClassVis.calc_height, ClassVis.MAX_SUBPLOT_HEIGHT. split_and!.
    + rewrite py_min2_Qmin. apply Q.min_compat; [apply height_of_Qmax|reflexivity].
    + apply capped_base; [apply height_of_base|done].
    + intros Hspan Hlen. apply capped_mono. by apply height_of_mono.
  - intros caps caps' info info' Hi Hi' span span'. subst span span'.
    rewrite (vz_info_of_height _ _ Hi), (vz_info_of_height _ _ Hi'). split_and!.
    + destruct (vz_info_of_Ok _ _ Hi) as [refs Hrefs]. exists refs. split; [done|].
      rewrite (vz_info_of_refs _ _ Hrefs) in Hi. injection Hi as <-. simpl.
      by destruct (range_of refs).
    + apply height_of_Qmax.
    + apply height_of_base.
    + intros Hspan Hlen. by apply height_of_mono.
Qed.


(** C7 as stated fails: a record without reference stays in its group,
    but the figure has no row for it, only the two empty blocks of the
    default range. *)
Lemma C7_counterexample :
  (∃ c, c ∈ od_get "A" (ClassVis.type_caps (ClassVis.capabilities [labelled (Some "A") None (Some (VStr "3"))]))
        ∧ ClassVis.reference c = None
        ∧ ¬ ClassVis.row_drawn (ClassVis.capabilities [labelled (Some "A") None (Some (VStr "3"))]) c)
  ∧ ClassVis.draw_all (ClassVis.capabilities [labelled (Some "A") None (Some (VStr "3"))])
    = [(0%nat, empty_block 0); (0%nat, empty_block 1)].
Proof.
  split; [|by vm_compute].
  exists (ClassVis.Capability_init (labelled (Some "A") None (Some (VStr "3")))).
  split_and!; [by vm_compute; left|done|].
  intros [y Hy]. specialize (Hy (set_xlim (-1) 65)).
  rewrite !list_elem_of_In in Hy. vm_compute in Hy.
  destruct Hy as [Hy|[Hy|[]]]; [|discriminate Hy..].
  repeat (first [by left|right]).
Qed.

(** C7, amended.  Grouping keeps every descriptor in the member sequence
    of its type, sorted by the sort key descending, the key of a
    descriptor without reference being -1, so that it comes after every
    member whose reference is at least 0.  The member sequence is what the
    panel's info holds and counts; the draw loop draws the row of each
    member that has a reference, at that reference, and no row for a
    member without one. *)
Theorem C7_grouping_sorted_unreferenced_skipped (data : list item) (typ : string) :
  let caps := ClassVis.capabilities data in
  let members := od_get typ (ClassVis.type_caps caps) in
  members ≡ₚ filter (λ c, ClassVis.type c = typ) caps
  ∧ StronglySorted (λ c1 c2, ClassVis.sort_key c2 ≤ ClassVis.sort_key c1) members
  ∧ (∀ c, ClassVis.reference c = None → ClassVis.sort_key c = -1)
  ∧ (∀ c r, ClassVis.reference c = Some r → ClassVis.sort_key c = r)
  ∧ (∀ i j c1 c2 r,
       members !! i = Some c1 → members !! j = Some c2 →
       ClassVis.reference c1 = None → ClassVis.reference c2 = Some r → 0 ≤ r →
       (j < i)%nat)
  ∧ (typ ∈ ClassVis.types caps →
     ClassVis.ti_caps (ClassVis.type_info caps !!! typ) = members
     ∧ ClassVis.draw_caps (ClassVis.type_info caps !!! typ)
       = flat_map (λ c, match ClassVis.reference c with
                        | Some r => ClassVis.draw_capability c r
                        | None => []
                        end) members).
Proof.
  intros caps members. subst members. rewrite type_caps_get.
  split_and!.
  - apply sort_caps_perm.
  - apply cv_sort_caps_sorted.
  - intros c H. unfold ClassVis.sort_key. by rewrite H.
  - intros c r H. unfold ClassVis.sort_key. by rewrite H.
  - intros i j c1 c2 r Hi Hj H1 H2 Hr.
    destruct (Nat.lt_trichotomy i j) as [Hlt|[->|Hgt]]; [|congruence|done].
    pose proof (StronglySorted_lookup_lt _ _ _ _ _ _ (cv_sort_caps_sorted _) Hi Hj Hlt) as H.
    unfold ClassVis.sort_key in H. rewrite H1, H2 in H. lia.
  - intros Hin. rewrite type_info_lookup by done. split; [apply info_of_caps|].
    apply cv_draw_caps_rows.
Qed.



(** C9.  Two runs on one input, whatever the random draws of each are,
    leave the same figure: the same grid and panel of every type, the same
    rows and empty blocks, and arrow for arrow the same axes, anchors and
    style; only the height of an arrow's target differs, by the jitter in
    [[0.1, 0.6)] above the address.  The strict script also raises the same
    exception in both runs.  Both scripts. *)
Theorem C9_rerun_same_figure (ctr : nat → nat → nat → Q) (rnd1 rnd2 : nat → Q)
    (data : list item) :
  (∀ k, 0 <= rnd1 k ∧ rnd1 k < 1)%Q → (∀ k, 0 <= rnd2 k ∧ rnd2 k < 1)%Q →
  same_figure (ClassVis.run ctr rnd1 data) (ClassVis.run ctr rnd2 data)
  ∧ match Visualization.run ctr rnd1 data, Visualization.run ctr rnd2 data with
    | Ok f1, Ok f2 => same_figure f1 f2
    | Raise e1, Raise e2 => e1 = e2
    | _, _ => False
    end.
Proof.
  intros H1 H2. split.
  - unfold same_figure, ClassVis.run. simpl. split_and!; try done.
    by apply cv_arrows_same_route.
  - unfold Visualization.run.
    destruct (Visualization.type_caps data) as [tc|e]; simpl; [|done].
    destruct (Visualization.type_info tc) as [ti|e]; simpl; [|done].
    destruct (Visualization.draw_all (Visualization.types tc) ti) as [drawn|e]; simpl; [|done].
    pose proof (vz_arrows_same_route ctr rnd1 rnd2 (Visualization.types tc) ti 0 H1 H2) as H.
    destruct (Visualization.arrows_from ctr rnd1 _ _ _) as [[a1 k1]|e1],
             (Visualization.arrows_from ctr rnd2 _ _ _) as [[a2 k2]|e2]; simpl in *; try done.
    destruct H as [_ H]. by unfold same_figure.
Qed.

(** C10, at the input where the code departs from it.  The first record
    has no type, no reference and no numeric address; the second has type
    B, reference 5 and address "0".  The group of the first record has
    the default range [[0, 1]] and is the first type that covers address
    0, but its key is the empty string and the defensive script takes the
    result of the scan for no target: no arrow is drawn.  With the type A
    in place of the missing one the arrow goes from the panel of B to the
    panel of A, which draws no row. *)
Theorem C10_unreferenced_group_with_empty_type :
  ClassVis.types (ClassVis.capabilities
      [labelled None None (Some (VStr "-")); labelled (Some "B") (Some (VInt 5)) (Some (VStr "0"))])
    = [EmptyString; "B"]%string
  ∧ ClassVis.get_ref_range
      (od_get EmptyString (ClassVis.type_caps (ClassVis.capabilities
        [labelled None None (Some (VStr "-")); labelled (Some "B") (Some (VInt 5)) (Some (VStr "0"))])))
    = (0, 1)
  ∧ ClassVis.find_target
      (ClassVis.types (ClassVis.capabilities
        [labelled None None (Some (VStr "-")); labelled (Some "B") (Some (VInt 5)) (Some (VStr "0"))]))
      (ClassVis.type_axes_info even_centres (ClassVis.capabilities
        [labelled None None (Some (VStr "-")); labelled (Some "B") (Some (VInt 5)) (Some (VStr "0"))]))
      0
    = Some EmptyString
  ∧ fig_arrows (ClassVis.run even_centres half
      [labelled None None (Some (VStr "-")); labelled (Some "B") (Some (VInt 5)) (Some (VStr "0"))])
    = []
  ∧ (∃ arrow,
       fig_arrows (ClassVis.run even_centres half
         [labelled (Some "A") None (Some (VStr "-"));
          labelled (Some "B") (Some (VInt 5)) (Some (VStr "0"))]) = [arrow]
       ∧ src_ax arrow = 1%nat ∧ tgt_ax arrow = 0%nat ∧ leftwards arrow)
  ∧ ClassVis.draw_caps (ClassVis.type_info (ClassVis.capabilities
         [labelled (Some "A") None (Some (VStr "-"));
          labelled (Some "B") (Some (VInt 5)) (Some (VStr "0"))]) !!! "A"%string)
    = [].
Proof.
  split_and!; try by vm_compute.
  eexists. split; [by vm_compute|]. by vm_compute.
Qed.

(** * Further properties of the scripts

    Where a property below says that a run succeeds, the input has at
    least one record: matplotlib refuses a grid without columns, and the
    call that would refuse it is not part of the embedding. *)

Section StableSort.
Context {A : Type} (before : A → A → bool) (P : A → Prop) `{∀ x, Decision (P x)}.
Hypothesis same_rank : ∀ x y, P x → P y → before y x = false.

Lemma insert_sorted_filter x l :
  filter P (insert_sorted before x l) = filter P (x :: l).
Proof.
  induction l as [|y l IH]; simpl; [done|].
  destruct (before y x) eqn:E; [|done].
  rewrite (filter_cons _ y), IH, !filter_cons.
  destruct (decide (P y)) as [Hy|Hy]; [|done].
  destruct (decide (P x)) as [Hx|Hx]; [|done].
  by rewrite (same_rank x y) in E.
Qed.

Lemma py_sorted_stable l : filter P (py_sorted before l) = filter P l.
Proof.
  induction l as [|x l IH]; simpl; [done|].
  by rewrite insert_sorted_filter, !filter_cons, IH.
Qed.

End StableSort.

(** X1.  The panels of a run are the distinct types of the input in
    strictly increasing lexicographic order, in both scripts (the strict
    one when its grouping succeeds). *)
Theorem X1_types_strictly_sorted :
  (∀ caps : list ClassVis.Capability,
     StronglySorted string_lt (ClassVis.types caps)
     ∧ NoDup (ClassVis.types caps)
     ∧ ∀ k, k ∈ ClassVis.types caps ↔ ∃ c, c ∈ caps ∧ ClassVis.type c = k)
  ∧ (∀ (data : list item) tc,
     Visualization.type_caps data = Ok tc →
     StronglySorted string_lt (Visualization.types tc)
     ∧ NoDup (Visualization.types tc)
     ∧ ∀ k, k ∈ Visualization.types tc ↔ ∃ c, c ∈ data ∧ i_Type c = Some k).
Proof.
  split.
  - intros caps. split_and!; [apply types_increasing|apply types_NoDup|apply types_elem].
  - intros data tc Htc. split_and!.
    + by eapply vz_types_increasing.
    + by eapply vz_types_NoDup.
    + intros k. rewrite (vz_types_elem _ _ _ Htc).
      destruct (vz_type_caps_Ok _ _ Htc) as (Hty & _). rewrite Forall_forall in Hty.
      split; intros (c & Hc & Hk); exists c; (split; [done|]).
      * destruct (Hty c Hc) as [t Ht]. unfold type_of in Hk. rewrite Ht in *. by simplify_eq/=.
      * unfold type_of. by rewrite Hk.
Qed.

(** X2.  Sorting a group is stable: the members of a type that have the
    same sort key (the same reference, or none) keep the order they have
    in the input. *)
Theorem X2_equal_keys_keep_input_order (caps : list ClassVis.Capability) (typ : string) (k : Z) :
  filter (λ c, ClassVis.sort_key c = k) (od_get typ (ClassVis.type_caps caps))
  = filter (λ c, ClassVis.sort_key c = k) (filter (λ c, ClassVis.type c = typ) caps).
Proof.
  rewrite type_caps_get. unfold ClassVis.sort_caps.
  apply py_sorted_stable. intros x y Hx Hy. rewrite Hx, Hy. lia.
Qed.

Lemma range_of_ordered refs : (range_of refs).1 ≤ (range_of refs).2.
Proof.
  destruct refs as [|r rs]; simpl; [lia|].
  destruct (py_min_le r rs) as [H1 _], (py_max_ge r rs) as [H2 _]. lia.
Qed.

Lemma range_of_attained refs :
  refs ≠ [] → (range_of refs).1 ∈ refs ∧ (range_of refs).2 ∈ refs.
Proof.
  destruct refs as [|r rs]; [done|]. intros _. simpl.
  split; [apply py_min_elem|apply py_max_elem].
Qed.

Lemma cv_get_ref_range_range_of caps :
  ClassVis.get_ref_range caps = range_of (omap ClassVis.reference caps).
Proof. done. Qed.

(** X3.  The range of a group is never empty and is tight: its lower
    bound is at most its upper bound; without any reference it is (0, 1);
    otherwise both bounds are references of members and every member's
    reference lies between them.  Both scripts. *)
Theorem X3_reference_range_tight :
  (∀ caps : list ClassVis.Capability,
     let lo := (ClassVis.get_ref_range caps).1 in
     let hi := (ClassVis.get_ref_range caps).2 in
     lo ≤ hi
     ∧ ((∀ c, c ∈ caps → ClassVis.reference c = None) → lo = 0 ∧ hi = 1)
     ∧ ((∃ c, c ∈ caps ∧ is_Some (ClassVis.reference c)) →
        (∃ c, c ∈ caps ∧ ClassVis.reference c = Some lo)
        ∧ (∃ c, c ∈ caps ∧ ClassVis.reference c = Some hi))
     ∧ (∀ c r, c ∈ caps → ClassVis.reference c = Some r → lo ≤ r ≤ hi))
  ∧ (∀ (caps : list item) info,
     Visualization.info_of caps = Ok info →
     let lo := Visualization.ti_min info in
     let hi := Visualization.ti_max info in
     lo ≤ hi
     ∧ (caps = [] → lo = 0 ∧ hi = 1)
     ∧ (caps ≠ [] →
        (∃ c, c ∈ caps ∧ Visualization.ref_int c = Ok lo)
        ∧ (∃ c, c ∈ caps ∧ Visualization.ref_int c = Ok hi))
     ∧ (∀ c r, c ∈ caps → Visualization.ref_int c = Ok r → lo ≤ r ≤ hi)).
Proof.
  split.
  - intros caps lo hi. subst lo hi. rewrite cv_get_ref_range_range_of. split_and!.
    + apply range_of_ordered.
    + intros H. rewrite <- cv_get_ref_range_range_of, (get_ref_range_none _ H). done.
    + intros (c & Hc & [r Hr]).
      destruct (range_of_attained (omap ClassVis.reference caps)) as [H1 H2].
      { intros E. assert (r ∈ omap ClassVis.reference caps) as Hin by (apply elem_of_refs; eauto).
        rewrite E in Hin. by apply elem_of_nil in Hin. }
      apply elem_of_refs in H1. apply elem_of_refs in H2. done.
    + intros c r Hc Hr. rewrite <- cv_get_ref_range_range_of. by eapply get_ref_range_bounds.
  - intros caps info Hinfo lo hi. subst lo hi.
    destruct (vz_info_of_Ok _ _ Hinfo) as [refs Hrefs].
    rewrite (vz_info_of_refs _ _ Hrefs) in Hinfo. injection Hinfo as <-. simpl.
    split_and!.
    + apply range_of_ordered.
    + intros ->. simpl in Hrefs. by injection Hrefs as <-.
    + intros Hne. destruct (range_of_attained refs) as [H1 H2].
      { intros ->. apply mapM_length in Hrefs. by destruct caps. }
      apply (vz_refs_elem _ _ _ Hrefs) in H1. apply (vz_refs_elem _ _ _ Hrefs) in H2. done.
    + intros c r Hc Hr. apply range_of_bounds. rewrite (vz_refs_elem _ _ _ Hrefs). eauto.
Qed.

Lemma grid_layout_capacity n :
  (n ≤ (grid_layout n).1 * (grid_layout n).2
   ∧ (grid_layout n).1 * (grid_layout n).2 ≤ n + 1)%nat.
Proof. do 7 (destruct n as [|n]; [simpl; lia|]). simpl. lia. Qed.

(** X4.  Every type gets an axis of its own inside the grid: the axis of
    a type is its position in the sorted list of types, so distinct types
    have distinct axes, and the position is below rows times columns of
    the grid; the grid has at most one cell more than there are types.
    Both scripts. *)
Theorem X4_axes_fit_the_grid :
  (∀ (caps : list ClassVis.Capability) typ,
     typ ∈ ClassVis.types caps →
     ClassVis.types caps !! (ClassVis.type_axes caps !!! typ) = Some typ
     ∧ (ClassVis.type_axes caps !!! typ
        < (grid_layout (ClassVis.n_types caps)).1 * (grid_layout (ClassVis.n_types caps)).2)%nat)
  ∧ (∀ (tys : list string) typ,
     NoDup tys → typ ∈ tys →
     tys !! (Visualization.type_to_axis tys !!! typ) = Some typ
     ∧ (Visualization.type_to_axis tys !!! typ
        < (grid_layout (length tys)).1 * (grid_layout (length tys)).2)%nat)
  ∧ (∀ n, (n ≤ (grid_layout n).1 * (grid_layout n).2
           ∧ (grid_layout n).1 * (grid_layout n).2 ≤ n + 1)%nat).
Proof.
  split_and!.
  - intros caps typ [i Hi]%list_elem_of_lookup.
    rewrite (type_axes_lookup _ _ _ Hi). split; [done|].
    apply lookup_lt_Some in Hi. unfold ClassVis.n_types.
    pose proof (grid_layout_capacity (length (ClassVis.types caps))). lia.
  - intros tys typ Hnd [i Hi]%list_elem_of_lookup.
    unfold Visualization.type_to_axis. rewrite (enumerate_lookup _ _ _ Hnd Hi).
    split; [done|]. apply lookup_lt_Some in Hi.
    pose proof (grid_layout_capacity (length tys)). lia.
  - apply grid_layout_capacity.
Qed.

Section CollectMore.
Context {A B : Type}.
Implicit Types (body : A → nat → list B * nat) (l : list A) (k : nat).

Lemma collect_elem body l k b :
  b ∈ (collect body l k).1 → ∃ x k', x ∈ l ∧ b ∈ (body x k').1.
Proof.
  revert k. induction l as [|x l IH]; intros k; simpl; [by intros ?%elem_of_nil|].
  destruct (body x k) as [ys k1] eqn:E.
  destruct (collect body l k1) as [zs k2] eqn:E'. simpl.
  intros [Hb|Hb]%elem_of_app.
  - exists x, k. split; [apply list_elem_of_here|]. by rewrite E.
  - destruct (IH k1 ltac:(by rewrite E')) as (x' & k' & Hx' & Hb').
    exists x', k'. split; [by apply list_elem_of_further|done].
Qed.

Lemma collect_count body l k :
  (∀ x k, (body x k).2 = k + length (body x k).1)%nat →
  ((collect body l k).2 = k + length (collect body l k).1)%nat.
Proof.
  intros Hb. revert k. induction l as [|x l IH]; intros k; simpl; [lia|].
  specialize (Hb x k). destruct (body x k) as [ys k1]. simpl in Hb.
  specialize (IH k1). destruct (collect body l k1) as [zs k2]. simpl in *.
  rewrite length_app. lia.
Qed.

Lemma collect_numbered (Q : nat → B → Prop) body l k i b :
  (∀ x k, (body x k).2 = k + length (body x k).1)%nat →
  (∀ x k j b, (body x k).1 !! j = Some b → Q (k + j)%nat b) →
  (collect body l k).1 !! i = Some b → Q (k + i)%nat b.
Proof.
  intros Hc HQ. revert k i. induction l as [|x l IH]; intros k i; simpl; [done|].
  pose proof (Hc x k) as Hk. pose proof (HQ x k) as Hq.
  destruct (body x k) as [ys k1]. simpl in Hk, Hq.
  specialize (IH k1). destruct (collect body l k1) as [zs k2]. simpl in *.
  intros Hi. apply lookup_app_Some in Hi as [Hi|[Hlen Hi]].
  - by apply Hq.
  - apply IH in Hi. replace (k + i)%nat with (k1 + (i - length ys))%nat by lia. done.
Qed.

End CollectMore.

Lemma cv_arrow_of_count rnd tys ti tai typ cap k :
  ((ClassVis.arrow_of rnd tys ti tai typ cap k).2
   = k + length (ClassVis.arrow_of rnd tys ti tai typ cap k).1)%nat.
Proof.
  unfold ClassVis.arrow_of.
  destruct (ClassVis.reference cap); [|simpl; lia].
  destruct (ClassVis.getAddress cap); [|simpl; lia].
  destruct (ClassVis.target_type tys tai _); [|simpl; lia].
  destruct (if String.eqb typ _ then _ else _) as [[? ?] ?]. simpl. lia.
Qed.

Lemma cv_arrow_of_draw rnd tys ti tai typ cap k j a :
  (ClassVis.arrow_of rnd tys ti tai typ cap k).1 !! j = Some a →
  ∃ addr, ClassVis.getAddress cap = Some addr
          ∧ (tgt_pt a).2 = (inject_Z addr + uniform (1 # 10) (6 # 10) (rnd (k + j)%nat))%Q.
Proof.
  unfold ClassVis.arrow_of.
  destruct (ClassVis.reference cap); [|done].
  destruct (ClassVis.getAddress cap) as [addr|]; [|done].
  destruct (ClassVis.target_type tys tai _); [|done].
  destruct (if String.eqb typ _ then _ else _) as [[? ?] ?]. simpl.
  destruct j as [|j]; [|done]. intros [= <-]. exists addr. simpl.
  by rewrite Nat.add_0_r.
Qed.

(** X5.  The defensive script makes one random draw per arrow, in the
    order the arrows are drawn: after a run from draw number k the next
    draw is k plus the number of arrows, and the target of the i-th arrow
    lies above an integer address by the uniform jitter made of draw
    number k + i. *)
Theorem X5_one_draw_per_arrow (ctr : nat → nat → nat → Q) (rnd : nat → Q)
    (caps : list ClassVis.Capability) (k : nat) :
  ((ClassVis.arrows_from ctr rnd caps k).2
   = k + length (ClassVis.arrows_from ctr rnd caps k).1)%nat
  ∧ ∀ i a, (ClassVis.arrows_from ctr rnd caps k).1 !! i = Some a →
           ∃ addr : Z,
             (tgt_pt a).2 = (inject_Z addr + uniform (1 # 10) (6 # 10) (rnd (k + i)%nat))%Q.
Proof.
  unfold ClassVis.arrows_from.
  assert (∀ typ k0,
    ((collect (ClassVis.arrow_of rnd (ClassVis.types caps) (ClassVis.type_info caps)
                 (ClassVis.type_axes_info ctr caps) typ)
              (ClassVis.ti_caps (ClassVis.type_info caps !!! typ)) k0).2
     = k0 + length (collect (ClassVis.arrow_of rnd (ClassVis.types caps) (ClassVis.type_info caps)
                 (ClassVis.type_axes_info ctr caps) typ)
              (ClassVis.ti_caps (ClassVis.type_info caps !!! typ)) k0).1)%nat) as Hinner.
  { intros typ k0. apply collect_count. intros. apply cv_arrow_of_count. }
  split.
  - by apply collect_count.
  - intros i a Hi.
    apply (collect_numbered
             (λ n a, ∃ addr : Z,
                (tgt_pt a).2 = (inject_Z addr + uniform (1 # 10) (6 # 10) (rnd n))%Q)
             _ _ _ _ _ Hinner) in Hi; [done|].
    intros typ k0 j b Hj.
    apply (collect_numbered
             (λ n a, ∃ addr : Z,
                (tgt_pt a).2 = (inject_Z addr + uniform (1 # 10) (6 # 10) (rnd n))%Q)
             _ _ _ _ _ (λ x k, cv_arrow_of_count _ _ _ _ _ x k)) in Hj; [done|].
    intros cap k1 j1 b1 Hb1. destruct (cv_arrow_of_draw _ _ _ _ _ _ _ _ _ Hb1) as (addr & _ & H).
    by exists addr.
Qed.

Lemma cv_members_elem caps typ c :
  c ∈ ClassVis.ti_caps (ClassVis.type_info caps !!! typ) → typ ∈ ClassVis.types caps →
  c ∈ caps ∧ ClassVis.type c = typ.
Proof.
  intros Hc Hin. rewrite type_info_lookup in Hc by done.
  rewrite info_of_caps, sort_caps_perm, list_elem_of_filter in Hc. tauto.
Qed.

Lemma cv_find_target_elem tys (tai : gmap string ClassVis.AxesInfo) addr t :
  ClassVis.find_target tys tai addr = Some t → t ∈ tys.
Proof.
  intros (l1 & l2 & -> & _)%cv_find_target_first.
  rewrite elem_of_app, elem_of_cons. auto.
Qed.

(** X6.  Every arrow of a run of the defensive script belongs to a
    descriptor of the input that has a reference and a numeric address: it
    leaves the axis of the descriptor's type half a unit above the row of
    the reference, and it ends on the axis of a type of the input, not the
    empty string, whose range covers the address, above the address by
    the jitter; its anchors are the four fixed ones. *)
Theorem X6_arrows_join_rows_to_covering_panels (ctr : nat → nat → nat → Q) (rnd : nat → Q)
    (caps : list ClassVis.Capability) (a : Arrow) :
  a ∈ ClassVis.arrows ctr rnd caps →
  ∃ c ref addr target n,
    c ∈ caps ∧ ClassVis.reference c = Some ref ∧ ClassVis.getAddress c = Some addr
    ∧ target ∈ ClassVis.types caps ∧ target ≠ EmptyString
    ∧ ClassVis.ti_min (ClassVis.type_info caps !!! target) ≤ addr
      ≤ ClassVis.ti_max (ClassVis.type_info caps !!! target)
    ∧ src_ax a = ClassVis.type_axes caps !!! ClassVis.type c
    ∧ tgt_ax a = ClassVis.type_axes caps !!! target
    ∧ (src_pt a).2 = (inject_Z ref + (5 # 10))%Q
    ∧ (tgt_pt a).2 = (inject_Z addr + uniform (1 # 10) (6 # 10) (rnd n))%Q
    ∧ ((src_pt a).1, (tgt_pt a).1) ∈ [(-2, -2); (66, 66); (65, -1); (-1, 65)].
Proof.
  unfold ClassVis.arrows, ClassVis.arrows_from.
  intros (typ & k1 & Htyp & Ha)%collect_elem.
  apply collect_elem in Ha as (c & k2 & Hc & Ha).
  destruct (cv_members_elem _ _ _ Hc Htyp) as [Hcaps Hty].
  unfold ClassVis.arrow_of in Ha.
  destruct (ClassVis.reference c) as [ref|] eqn:Href; [|by apply elem_of_nil in Ha].
  destruct (ClassVis.getAddress c) as [addr|] eqn:Haddr; [|by apply elem_of_nil in Ha].
  destruct (ClassVis.target_type _ _ addr) as [target|] eqn:Ht; [|by apply elem_of_nil in Ha].
  apply target_type_Some in Ht as [Hfind Hne].
  pose proof (cv_find_target_elem _ _ _ _ Hfind) as Htarget.
  apply cv_find_target_first in Hfind as (l1 & l2 & _ & Hcov & _).
  rewrite type_axes_info_lookup in Hcov by done. simpl in Hcov.
  exists c, ref, addr, target, k2.
  assert (default ref (ClassVis.ti_y_positions (ClassVis.type_info caps !!! typ) !! ref) = ref)
    as Hrow.
  { rewrite type_info_lookup by done. by rewrite info_of_rows, row_of_reference. }
  destruct (String.eqb typ target).
  - destruct (addr <? ref); apply list_elem_of_singleton in Ha; subst a; simpl;
      rewrite Hrow, !type_axes_info_lookup by done; simpl; subst typ;
      split_and!; try done; try lia; try by (rewrite !elem_of_cons; auto 10).
  - destruct (Qltb _ _); apply list_elem_of_singleton in Ha; subst a; simpl;
      rewrite Hrow, !type_axes_info_lookup by done; simpl; subst typ;
      split_and!; try done; try lia; try by (rewrite !elem_of_cons; auto 10).
Qed.

Section CollectMMore.
Context {A B : Type}.
Implicit Types (body : A → nat → result (list B * nat)) (l : list A) (k : nat).

Lemma collectM_elem body l k res b :
  Visualization.collectM body l k = Ok res → b ∈ res.1 →
  ∃ x k' r, x ∈ l ∧ body x k' = Ok r ∧ b ∈ r.1.
Proof.
  revert k res. induction l as [|x l IH]; intros k res; simpl.
  - intros [= <-]. by intros ?%elem_of_nil.
  - intros (r1 & Hr1 & H)%bind_Ok_inv. apply bind_Ok_inv in H as (r2 & Hr2 & [= <-]). simpl.
    intros [Hb|Hb]%elem_of_app.
    + exists x, k, r1. split; [apply list_elem_of_here|done].
    + destruct (IH _ _ Hr2 Hb) as (x' & k' & r & Hx' & Hr & Hb').
      exists x', k', r. split; [by apply list_elem_of_further|done].
Qed.

Lemma collectM_numbered (Q : nat → B → Prop) body l k res i b :
  (∀ x k r, body x k = Ok r → r.2 = k + length r.1)%nat →
  (∀ x k r j b, body x k = Ok r → r.1 !! j = Some b → Q (k + j)%nat b) →
  Visualization.collectM body l k = Ok res →
  (res.2 = k + length res.1)%nat
  ∧ (res.1 !! i = Some b → Q (k + i)%nat b).
Proof.
  intros Hc HQ. revert k res i. induction l as [|x l IH]; intros k res i; simpl.
  - intros [= <-]. simpl. split; [lia|done].
  - intros (r1 & Hr1 & H)%bind_Ok_inv. apply bind_Ok_inv in H as (r2 & Hr2 & [= <-]). simpl.
    pose proof (Hc _ _ _ Hr1) as Hk. destruct (IH _ _ (i - length r1.1)%nat Hr2) as [Hk2 Hq2].
    split; [rewrite length_app; lia|].
    intros Hi. apply lookup_app_Some in Hi as [Hi|[Hlen Hi]].
    + by eapply HQ.
    + apply Hq2 in Hi. replace (k + i)%nat with (r1.2 + (i - length r1.1))%nat by lia. done.
Qed.

End CollectMMore.

Lemma vz_arrow_of_draw rnd tys ti tai typ cap k r :
  Visualization.arrow_of rnd tys ti tai typ cap k = Ok r →
  (r.2 = k + length r.1)%nat
  ∧ ∀ j a, r.1 !! j = Some a →
      ∃ addr : Z, (tgt_pt a).2 = (inject_Z addr + uniform (1 # 10) (6 # 10) (rnd (k + j)%nat))%Q.
Proof.
  unfold Visualization.arrow_of. intros (ref & _ & H)%bind_Ok_inv.
  apply bind_Ok_inv in H as (v & _ & H).
  destruct (py_int_of_str v) as [addr|]; [|injection H as <-; simpl; split; [lia|done]].
  destruct (Visualization.find_target tys tai addr); [|injection H as <-; simpl; split; [lia|done]].
  destruct (if String.eqb typ _ then _ else _) as [[? ?] ?]. injection H as <-. simpl.
  split; [lia|]. intros [|j] a; [|done]. intros [= <-]. exists addr. simpl.
  by rewrite Nat.add_0_r.
Qed.

(** X7.  The strict script, too, makes one random draw per arrow, in
    the order the arrows are drawn: when the arrow loop succeeds from draw
    number k, the next draw is k plus the number of arrows, and the target
    of the i-th arrow lies above an integer address by the uniform jitter
    made of draw number k + i. *)
Theorem X7_one_draw_per_arrow_strict (ctr : nat → nat → nat → Q) (rnd : nat → Q)
    (tys : list string) (ti : gmap string Visualization.TypeInfo) (k : nat)
    (res : list Arrow * nat) :
  Visualization.arrows_from ctr rnd tys ti k = Ok res →
  (res.2 = k + length res.1)%nat
  ∧ ∀ i a, res.1 !! i = Some a →
           ∃ addr : Z,
             (tgt_pt a).2 = (inject_Z addr + uniform (1 # 10) (6 # 10) (rnd (k + i)%nat))%Q.
Proof.
  unfold Visualization.arrows_from. intros H.
  set (Q := λ n a, ∃ addr : Z,
         (tgt_pt a).2 = (inject_Z addr + uniform (1 # 10) (6 # 10) (rnd n))%Q).
  assert (∀ typ k0 r,
    Visualization.collectM
      (Visualization.arrow_of rnd tys ti (Visualization.type_axes_info ctr tys ti) typ)
      (Visualization.ti_caps (ti !!! typ)) k0 = Ok r →
    (r.2 = k0 + length r.1)%nat ∧ ∀ j b, r.1 !! j = Some b → Q (k0 + j)%nat b) as Hinner.
  { intros typ k0 r Hr. split.
    - eapply (collectM_numbered Q _ _ _ _ 0%nat (mkArrow 0 (0, 0%Q) 0 (0, 0%Q) style_omitted));
        [| |exact Hr].
      + intros x k1 r1 Hr1. by apply vz_arrow_of_draw in Hr1 as [? _].
      + intros x k1 r1 j b Hr1 Hj. apply vz_arrow_of_draw in Hr1 as [_ Hq]. by apply Hq.
    - intros j b. eapply (collectM_numbered Q); [| |exact Hr].
      + intros x k1 r1 Hr1. by apply vz_arrow_of_draw in Hr1 as [? _].
      + intros x k1 r1 j1 b1 Hr1 Hj. apply vz_arrow_of_draw in Hr1 as [_ Hq]. by apply Hq. }
  split.
  - eapply (collectM_numbered Q _ _ _ _ 0%nat (mkArrow 0 (0, 0%Q) 0 (0, 0%Q) style_omitted));
      [| |exact H].
    + intros typ k0 r Hr. by apply Hinner in Hr as [? _].
    + intros typ k0 r j b Hr Hj. apply Hinner in Hr as [_ Hq]. by apply Hq.
  - intros i a. eapply (collectM_numbered Q); [| |exact H].
    + intros typ k0 r Hr. by apply Hinner in Hr as [? _].
    + intros typ k0 r j b Hr Hj. apply Hinner in Hr as [_ Hq]. by apply Hq.
Qed.

(** What a successful run of the strict script has computed on the way. *)
Lemma vz_run_inv ctr rnd data fig :
  Visualization.run ctr rnd data = Ok fig →
  ∃ tc ti drawn res,
    Visualization.type_caps data = Ok tc
    ∧ Visualization.type_info tc = Ok ti
    ∧ Visualization.draw_all (Visualization.types tc) ti = Ok drawn
    ∧ Visualization.arrows_from ctr rnd (Visualization.types tc) ti 0 = Ok res
    ∧ fig = {| fig_grid := grid_layout (length (Visualization.types tc));
               fig_size := Visualization.figsize (Visualization.types tc) ti;
               fig_axes := Visualization.type_to_axis (Visualization.types tc);
               fig_drawn := drawn;
               fig_arrows := res.1 |}.
Proof.
  unfold Visualization.run. intros H. inv_bind H. injection H as <-.
  eexists _, _, _, _. split_and!; done.
Qed.

(** The info of a type in a successful run: its members, the range of
    their references and the rows. *)
Lemma vz_type_info_of_run data tc ti typ :
  Visualization.type_caps data = Ok tc → Visualization.type_info tc = Ok ti →
  typ ∈ Visualization.types tc →
  ∃ refs, mapM Visualization.ref_int (od_get typ tc) = Ok refs
    ∧ od_get typ tc ≡ₚ filter (λ c, type_of c = typ) data
    ∧ Visualization.ti_caps (ti !!! typ) = od_get typ tc
    ∧ Visualization.ti_min (ti !!! typ) = (range_of refs).1
    ∧ Visualization.ti_max (ti !!! typ) = (range_of refs).2
    ∧ Visualization.ti_y_positions (ti !!! typ) = foldl (λ m r, <[r := r]> m) ∅ refs
    ∧ refs ≠ [].
Proof.
  intros Htc Hti Hin.
  pose proof (vz_type_info_lookup _ _ _ (vz_types_NoDup _ _ Htc) Hti Hin) as Hinfo.
  destruct (vz_info_of_Ok _ _ Hinfo) as [refs Hrefs]. exists refs.
  rewrite (vz_info_of_refs _ _ Hrefs) in Hinfo. injection Hinfo as <-. simpl.
  destruct (vz_type_caps_Ok _ _ Htc) as (_ & _ & Hget).
  split_and!; try done.
  intros ->. apply mapM_length in Hrefs.
  apply (vz_types_elem _ _ _ Htc) in Hin as (c & Hc & Hty).
  assert (c ∈ od_get typ tc) as Hm by (rewrite Hget, list_elem_of_filter; done).
  destruct (od_get typ tc); [by apply elem_of_nil in Hm|done].
Qed.

Lemma vz_find_target_elem tys (tai : gmap string Visualization.AxesInfo) addr t :
  Visualization.find_target tys tai addr = Some t → t ∈ tys.
Proof.
  intros (l1 & l2 & -> & _)%vz_find_target_first.
  rewrite elem_of_app, elem_of_cons. auto.
Qed.

(** X8.  Every arrow of a successful run of the strict script belongs
    to a record of the input with a numeric address: it leaves the axis
    of the record's type half a unit above the row of its reference, and
    it ends on the axis of a type two of whose records have references
    that enclose the address, above the address by the jitter; its anchors
    are the four fixed ones. *)
Theorem X8_arrows_join_rows_to_covering_panels_strict (ctr : nat → nat → nat → Q)
    (rnd : nat → Q) (data : list item) (fig : Figure) (a : Arrow) :
  Visualization.run ctr rnd data = Ok fig → a ∈ fig_arrows fig →
  ∃ c ref v addr c1 c2 lo hi n,
    c ∈ data ∧ Visualization.ref_int c = Ok ref
    ∧ i_Address c = Some v ∧ py_int_of_str v = Some addr
    ∧ c1 ∈ data ∧ c2 ∈ data ∧ type_of c1 = type_of c2
    ∧ Visualization.ref_int c1 = Ok lo ∧ Visualization.ref_int c2 = Ok hi
    ∧ lo ≤ addr ≤ hi
    ∧ src_ax a = fig_axes fig !!! type_of c
    ∧ tgt_ax a = fig_axes fig !!! type_of c1
    ∧ (src_pt a).2 = (inject_Z ref + (5 # 10))%Q
    ∧ (tgt_pt a).2 = (inject_Z addr + uniform (1 # 10) (6 # 10) (rnd n))%Q
    ∧ ((src_pt a).1, (tgt_pt a).1) ∈ [(-2, -2); (66, 66); (65, -1); (-1, 65)].
Proof.
  intros (tc & ti & drawn & res & Htc & Hti & _ & Hres & ->)%vz_run_inv. simpl.
  unfold Visualization.arrows_from in Hres. intros Ha.
  destruct (collectM_elem _ _ _ _ _ Hres Ha) as (typ & k1 & r1 & Htyp & Hr1 & Ha1).
  destruct (collectM_elem _ _ _ _ _ Hr1 Ha1) as (c & k2 & r2 & Hc & Hr2 & Ha2).
  destruct (vz_type_info_of_run _ _ _ _ Htc Hti Htyp)
    as (refs & Hrefs & Hperm & Hcaps & _ & _ & Hrows & _).
  rewrite Hcaps in Hc.
  assert (c ∈ data ∧ type_of c = typ) as [Hdata Hty].
  { rewrite Hperm, list_elem_of_filter in Hc. tauto. }
  unfold Visualization.arrow_of in Hr2.
  apply bind_Ok_inv in Hr2 as (ref & Href & Hr2).
  apply bind_Ok_inv in Hr2 as (v & Hv & Hr2).
  assert (i_Address c = Some v) as Hv'.
  { unfold getitem in Hv. destruct (i_Address c); by simplify_eq. }
  destruct (py_int_of_str v) as [addr|] eqn:Haddr;
    [|injection Hr2 as <-; by apply elem_of_nil in Ha2].
  destruct (Visualization.find_target _ _ addr) as [target|] eqn:Hfind;
    [|injection Hr2 as <-; by apply elem_of_nil in Ha2].
  pose proof (vz_find_target_elem _ _ _ _ Hfind) as Htarget.
  apply vz_find_target_first in Hfind as (l1 & l2 & _ & Hcov & _).
  rewrite vz_type_axes_info_lookup in Hcov by done. simpl in Hcov.
  destruct (vz_type_info_of_run _ _ _ _ Htc Hti Htarget)
    as (trefs & Htrefs & Htperm & _ & Hlo & Hhi & _ & Hne).
  rewrite Hlo, Hhi in Hcov.
  destruct (range_of_attained trefs Hne) as [H1 H2].
  apply (vz_refs_elem _ _ _ Htrefs) in H1 as (c1 & Hc1 & Hlo1).
  apply (vz_refs_elem _ _ _ Htrefs) in H2 as (c2 & Hc2 & Hhi2).
  rewrite Htperm, list_elem_of_filter in Hc1, Hc2.
  destruct Hc1 as [Hty1 Hc1], Hc2 as [Hty2 Hc2].
  assert (default ref (Visualization.ti_y_positions (ti !!! typ) !! ref) = ref) as Hrow.
  { rewrite Hrows, rows_lookup. by case_decide. }
  exists c, ref, v, addr, c1, c2, (range_of trefs).1, (range_of trefs).2, k2.
  rewrite Hty, Hty1.
  destruct (String.eqb typ target).
  - destruct (addr <? ref); injection Hr2 as <-; apply list_elem_of_singleton in Ha2; subst a;
      simpl; rewrite Hrow, !vz_type_axes_info_lookup by done; simpl;
      split_and!; try done; try lia; try congruence;
      try by (rewrite !elem_of_cons; auto 10).
  - destruct (Qltb _ _); injection Hr2 as <-; apply list_elem_of_singleton in Ha2; subst a;
      simpl; rewrite Hrow, !vz_type_axes_info_lookup by done; simpl;
      split_and!; try done; try lia; try congruence;
      try by (rewrite !elem_of_cons; auto 10).
Qed.

(** ** The exceptions of the strict script *)















(** ** The order of the records in the input *)

Lemma string_lt_unique l1 l2 :
  StronglySorted string_lt l1 → StronglySorted string_lt l2 → l1 ≡ₚ l2 → l1 = l2.
Proof.
  apply StronglySorted_unique_strong. unfold string_lt. intros x1 x2 _ _ H1 H2.
  pose proof (string_ltb_trans _ _ _ H1 H2) as H. by rewrite string_ltb_irrefl in H.
Qed.

Lemma range_of_perm l l' : l ≡ₚ l' → range_of l = range_of l'.
Proof.
  intros Hp. destruct l as [|x l].
  { by apply Permutation_nil in Hp as ->. }
  destruct l' as [|x' l'].
  { by apply Permutation_nil_r in Hp. }
  destruct (range_of_attained (x :: l)) as [H1 H2]; [done|].
  destruct (range_of_attained (x' :: l')) as [H1' H2']; [done|].
  pose proof (range_of_bounds (x :: l)) as Hb.
  pose proof (range_of_bounds (x' :: l')) as Hb'.
  destruct (range_of (x :: l)) as [lo hi], (range_of (x' :: l')) as [lo' hi']. simpl in *.
  rewrite Hp in H1, H2. rewrite <- Hp in H1', H2'.
  apply Hb' in H1, H2. apply Hb in H1', H2'. f_equal; lia.
Qed.

Lemma rows_perm (l l' : list Z) :
  l ≡ₚ l' →
  foldl (λ m r, <[r := r]> m) (∅ : gmap Z Z) l = foldl (λ m r, <[r := r]> m) ∅ l'.
Proof.
  intros Hp. apply map_eq. intros k. rewrite !rows_lookup.
  destruct (decide (k ∈ l)) as [H|H]; rewrite Hp in H;
    [by rewrite decide_True|by rewrite decide_False].
Qed.

Lemma flat_map_perm {A B} (f : A → list B) l l' :
  l ≡ₚ l' → flat_map f l ≡ₚ flat_map f l'.
Proof.
  induction 1 as [|x l l' _ IH|x y l|l1 l2 l3 _ IH1 _ IH2]; simpl.
  - done.
  - by rewrite IH.
  - rewrite !app_assoc. f_equiv. apply Permutation_app_comm.
  - by rewrite IH1.
Qed.

Lemma flat_map_perm_ext {A B} (f g : A → list B) l :
  (∀ x, x ∈ l → f x ≡ₚ g x) → flat_map f l ≡ₚ flat_map g l.
Proof.
  induction l as [|x l IH]; intros H; simpl; [done|].
  rewrite (H x), IH; [done| |apply list_elem_of_here].
  intros y Hy. by apply H, list_elem_of_further.
Qed.

Lemma foldl_ext_elem {A B} (f g : B → A → B) l b :
  (∀ b x, x ∈ l → f b x = g b x) → foldl f b l = foldl g b l.
Proof.
  revert b. induction l as [|x l IH]; intros b H; simpl; [done|].
  rewrite H by apply list_elem_of_here. apply IH.
  intros b' y Hy. by apply H, list_elem_of_further.
Qed.

Lemma NoDup_fmap_elem_inj {A B} (f : A → B) l x y :
  NoDup (map f l) → x ∈ l → y ∈ l → f x = f y → x = y.
Proof.
  induction l as [|z l IH]; simpl; [by intros _ ?%elem_of_nil|].
  intros [Hz Hnd]%NoDup_cons [->|Hx]%elem_of_cons [->|Hy]%elem_of_cons Hf.
  - done.
  - destruct Hz. rewrite Hf. apply list_elem_of_fmap. eauto.
  - destruct Hz. rewrite <- Hf. apply list_elem_of_fmap. eauto.
  - by apply IH.
Qed.

(** The sorted types of the defensive script depend on the records
    only, not on their order. *)
Lemma cv_types_perm_eq caps caps' :
  caps ≡ₚ caps' → ClassVis.types caps = ClassVis.types caps'.
Proof.
  intros Hp. apply string_lt_unique; [apply types_increasing..|].
  apply NoDup_Permutation; [apply types_NoDup..|].
  intros k. rewrite !types_elem. by setoid_rewrite Hp.
Qed.

Lemma cv_members_perm caps caps' typ :
  caps ≡ₚ caps' →
  ClassVis.sort_caps (filter (λ c, ClassVis.type c = typ) caps)
  ≡ₚ ClassVis.sort_caps (filter (λ c, ClassVis.type c = typ) caps').
Proof. intros Hp. by rewrite !sort_caps_perm, Hp. Qed.

(** The info of a group depends on the order of its members in the
    list of members only. *)
Lemma cv_info_of_perm l l' :
  l ≡ₚ l' →
  ClassVis.ti_min (ClassVis.info_of l) = ClassVis.ti_min (ClassVis.info_of l')
  ∧ ClassVis.ti_max (ClassVis.info_of l) = ClassVis.ti_max (ClassVis.info_of l')
  ∧ ClassVis.ti_height (ClassVis.info_of l) = ClassVis.ti_height (ClassVis.info_of l')
  ∧ ClassVis.ti_y_positions (ClassVis.info_of l) = ClassVis.ti_y_positions (ClassVis.info_of l').
Proof.
  intros Hp.
  assert (ClassVis.get_ref_range l = ClassVis.get_ref_range l') as Hr.
  { rewrite !cv_get_ref_range_range_of. apply range_of_perm. by rewrite Hp. }
  pose proof (info_of_range l) as H1. pose proof (info_of_range l') as H2.
  rewrite Hr, <- H2 in H1. injection H1 as Hmin Hmax.
  split_and!; [done..| |].
  - rewrite !info_of_height, Hmin, Hmax. by rewrite (Permutation_length Hp).
  - rewrite !info_of_rows. unfold ClassVis.y_positions_of. apply rows_perm. by rewrite Hp.
Qed.

Lemma cv_draw_type_perm caps caps' typ :
  caps ≡ₚ caps' → typ ∈ ClassVis.types caps →
  ClassVis.draw_type caps typ ≡ₚ ClassVis.draw_type caps' typ.
Proof.
  intros Hp Htyp. pose proof (cv_types_perm_eq _ _ Hp) as Hty.
  unfold ClassVis.draw_type, ClassVis.type_axes. rewrite <- Hty.
  rewrite !type_info_lookup by (by rewrite <- ?Hty).
  destruct (cv_info_of_perm _ _ (cv_members_perm _ _ typ Hp)) as (Hmin & Hmax & _ & Hrows).
  unfold ClassVis.draw_empty, ClassVis.occupied, ClassVis.draw_caps.
  rewrite Hmin, Hmax, Hrows, !info_of_caps.
  f_equiv. f_equiv. apply flat_map_perm, cv_members_perm, Hp.
Qed.

(** X10.  The order of the records in the input does not move the
    layout of the defensive script: two inputs with the same records have
    the same grid, figure size and assignment of types to axes, and the
    same drawing calls on every axis up to their order.  When no two
    records of a type have the same sort key, the whole figure is the
    same, arrows and their jitter included. *)
Theorem X10_record_order_and_the_figure (ctr : nat → nat → nat → Q) (rnd : nat → Q)
    (data data' : list item) :
  data ≡ₚ data' →
  fig_grid (ClassVis.run ctr rnd data) = fig_grid (ClassVis.run ctr rnd data')
  ∧ fig_size (ClassVis.run ctr rnd data) = fig_size (ClassVis.run ctr rnd data')
  ∧ fig_axes (ClassVis.run ctr rnd data) = fig_axes (ClassVis.run ctr rnd data')
  ∧ fig_drawn (ClassVis.run ctr rnd data) ≡ₚ fig_drawn (ClassVis.run ctr rnd data')
  ∧ (NoDup (map (λ c, (ClassVis.type c, ClassVis.sort_key c)) (ClassVis.capabilities data)) →
     ClassVis.run ctr rnd data = ClassVis.run ctr rnd data').
Proof.
  intros Hdata.
  assert (ClassVis.capabilities data ≡ₚ ClassVis.capabilities data') as Hp
    by (unfold ClassVis.capabilities; by rewrite Hdata).
  set (caps := ClassVis.capabilities data) in *.
  set (caps' := ClassVis.capabilities data') in *.
  pose proof (cv_types_perm_eq _ _ Hp) as Hty.
  assert (∀ typ, typ ∈ ClassVis.types caps →
            ClassVis.ti_height (ClassVis.type_info caps !!! typ)
            = ClassVis.ti_height (ClassVis.type_info caps' !!! typ)) as Hheight.
  { intros typ Htyp. rewrite !type_info_lookup by (by rewrite <- ?Hty).
    by destruct (cv_info_of_perm _ _ (cv_members_perm _ _ typ Hp)) as (_ & _ & -> & _). }
  unfold ClassVis.run. fold caps caps'. simpl. split_and!.
  - unfold ClassVis.n_types. by rewrite Hty.
  - unfold ClassVis.figsize, ClassVis.n_types, ClassVis.max_height. rewrite <- Hty.
    destruct (grid_layout _) as [nrows ncols]. f_equal. f_equal.
    apply foldl_ext_elem. intros b typ Htyp. by rewrite Hheight.
  - unfold ClassVis.type_axes. by rewrite Hty.
  - unfold ClassVis.draw_all. rewrite <- Hty. apply flat_map_perm_ext.
    intros typ Htyp. by apply cv_draw_type_perm.
  - intros Hnd.
    assert (ClassVis.type_info caps = ClassVis.type_info caps') as Hinfo.
    { unfold ClassVis.type_info. rewrite <- Hty. f_equal. apply map_ext. intros typ.
      rewrite !type_caps_get. f_equal. f_equal.
      eapply StronglySorted_unique_strong;
        [|apply cv_sort_caps_sorted..|by apply cv_members_perm].
      intros x1 x2 H1 H2 Hle1 Hle2. simpl in Hle1, Hle2.
      rewrite sort_caps_perm, list_elem_of_filter in H1, H2.
      rewrite <- Hp in H2. destruct H1 as [Ht1 H1], H2 as [Ht2 H2].
      apply (NoDup_fmap_elem_inj _ _ _ _ Hnd H1 H2). f_equal; [congruence|lia]. }
    unfold ClassVis.figsize, ClassVis.max_height, ClassVis.n_types, ClassVis.draw_all,
      ClassVis.draw_type, ClassVis.arrows, ClassVis.arrows_from, ClassVis.type_axes_info,
      ClassVis.n_types, ClassVis.type_axes.
    by rewrite <- Hty, <- Hinfo.
Qed.

(** ** The two scripts on an input both accept *)

Section SortedMap.
Context {A B : Type} (f : A → B) (b : A → A → bool) (b' : B → B → bool).



End SortedMap.












Section CollectBoth.
Context {A A' B : Type} (R : B → B → Prop) (f : A' → A).


End CollectBoth.




(** ** How many arrows *)

Section CollectLength.
Context {A B : Type} (n : A → nat).
Implicit Types (body : A → nat → list B * nat) (l : list A) (k : nat).

Lemma collect_length body l k :
  (∀ x k, x ∈ l → length (body x k).1 = n x) →
  length (collect body l k).1 = sum_list (map n l).
Proof.
  revert k. induction l as [|x l IH]; intros k H; simpl; [done|].
  pose proof (H x k (list_elem_of_here _ _)) as Hx.
  destruct (body x k) as [ys k1]. simpl in Hx.
  specialize (IH k1 (λ y k' Hy, H y k' (list_elem_of_further _ _ _ Hy))).
  destruct (collect body l k1) as [zs k2]. simpl in *.
  rewrite length_app. lia.
Qed.

Lemma collectM_length (bodyM : A → nat → result (list B * nat)) l k res :
  (∀ x k r, x ∈ l → bodyM x k = Ok r → length r.1 = n x) →
  Visualization.collectM bodyM l k = Ok res →
  length res.1 = sum_list (map n l).
Proof.
  revert k res. induction l as [|x l IH]; intros k res H; simpl.
  - by intros [= <-].
  - intros Hres. apply bind_Ok_inv in Hres as (r1 & Hr1 & Hres).
    apply bind_Ok_inv in Hres as (r2 & Hr2 & [= <-]). simpl.
    rewrite length_app, (H x k r1 (list_elem_of_here _ _) Hr1).
    f_equal. apply (IH r1.2); [|done].
    intros y k' r Hy. by apply H, list_elem_of_further.
Qed.

End CollectLength.

Lemma sum_list_indicator {A} (p : A → bool) l :
  sum_list (map (λ x, if p x then 1 else 0)%nat l) = length (filter (λ x, p x = true) l).
Proof.
  induction l as [|x l IH]; simpl; [done|].
  rewrite filter_cons. destruct (decide (p x = true)) as [E|E].
  - rewrite E. simpl. by rewrite IH.
  - apply not_true_is_false in E. by rewrite E.
Qed.

Lemma sum_list_single (x : string) (m : nat) l :
  NoDup l → x ∈ l → sum_list (map (λ t, if decide (x = t) then m else 0)%nat l) = m.
Proof.
  induction l as [|y l IH]; simpl; [by intros _ ?%elem_of_nil|].
  intros [Hy Hnd]%NoDup_cons Hx. destruct (decide (x = y)) as [->|Hne].
  - assert (sum_list (map (λ t, if decide (y = t) then m else 0)%nat l) = 0%nat) as ->; [|lia].
    clear IH Hx Hnd. induction l as [|z l IH]; simpl; [done|].
    rewrite decide_False by (intros ->; apply Hy, list_elem_of_here).
    apply IH. intros Hin. by apply Hy, list_elem_of_further.
  - apply elem_of_cons in Hx as [?|Hx]; [done|]. by rewrite IH.
Qed.

(** The groups of a list by a key with values in [tys] split the
    list. *)
Lemma partition_count {A} (key : A → string) (P : A → Prop) `{!∀ x, Decision (P x)}
    (tys : list string) (l : list A) :
  NoDup tys → (∀ x, x ∈ l → key x ∈ tys) →
  sum_list (map (λ t, length (filter P (filter (λ x, key x = t) l))) tys)
  = length (filter P l).
Proof.
  intros Hnd. induction l as [|x l IH]; intros Hk; simpl.
  - clear Hnd Hk. induction tys as [|t tys IH]; simpl; [done|]. by rewrite IH.
  - assert (∀ tys', sum_list (map (λ t, length (filter P (filter (λ y, key y = t) (x :: l)))) tys')
            = (sum_list (map (λ t, if decide (key x = t)
                                   then if decide (P x) then 1 else 0 else 0) tys')
               + sum_list (map (λ t, length (filter P (filter (λ y, key y = t) l))) tys'))%nat)
      as Hsplit.
    { induction tys' as [|t tys' IH']; simpl; [done|].
      rewrite IH', filter_cons. destruct (decide (key x = t)); [|simpl; lia].
      rewrite filter_cons. destruct (decide (P x)); simpl; lia. }
    rewrite Hsplit, (sum_list_single (key x) _ tys Hnd) by apply Hk, list_elem_of_here.
    rewrite IH by (intros y Hy; by apply Hk, list_elem_of_further).
    rewrite filter_cons. by destruct (decide (P x)).
Qed.

(** The range of a panel is the range of the references of the records
    of its type. *)
Lemma cv_panel_range ctr caps t :
  t ∈ ClassVis.types caps →
  (ClassVis.ai_min (ClassVis.type_axes_info ctr caps !!! t),
   ClassVis.ai_max (ClassVis.type_axes_info ctr caps !!! t))
  = ClassVis.get_ref_range (filter (λ c, ClassVis.type c = t) caps).
Proof.
  intros Ht. rewrite type_axes_info_lookup by done. simpl.
  rewrite type_info_lookup by done. rewrite info_of_range.
  rewrite !cv_get_ref_range_range_of. apply range_of_perm.
  by rewrite sort_caps_perm.
Qed.

(** The target of an address in a run of the defensive script: the
    least type, in the order of strings, whose range covers the address,
    when that type is not the empty string. *)
Lemma cv_resolution ctr caps addr t :
  ClassVis.target_type (ClassVis.types caps) (ClassVis.type_axes_info ctr caps) addr = Some t ↔
  t ∈ ClassVis.types caps ∧ t ≠ EmptyString
  ∧ (ClassVis.get_ref_range (filter (λ c, ClassVis.type c = t) caps)).1 ≤ addr
    ≤ (ClassVis.get_ref_range (filter (λ c, ClassVis.type c = t) caps)).2
  ∧ ∀ u, u ∈ ClassVis.types caps →
         (ClassVis.get_ref_range (filter (λ c, ClassVis.type c = u) caps)).1 ≤ addr
         ≤ (ClassVis.get_ref_range (filter (λ c, ClassVis.type c = u) caps)).2 →
         t = u ∨ string_lt t u.
Proof.
  set (tai := ClassVis.type_axes_info ctr caps).
  assert (∀ u, u ∈ ClassVis.types caps →
    (ClassVis.ai_min (tai !!! u) ≤ addr ≤ ClassVis.ai_max (tai !!! u)
     ↔ (ClassVis.get_ref_range (filter (λ c, ClassVis.type c = u) caps)).1 ≤ addr
       ≤ (ClassVis.get_ref_range (filter (λ c, ClassVis.type c = u) caps)).2)) as Hrange.
  { intros u Hu. by rewrite <- (cv_panel_range ctr caps u Hu). }
  rewrite target_type_Some. split.
  - intros [Hfind Hne]. pose proof (cv_find_target_elem _ _ _ _ Hfind) as Ht.
    apply cv_find_target_first in Hfind as (before & after & Hsplit & Hcov & Hbefore).
    split; [done|]. split; [done|]. split; [by apply Hrange|].
    intros u Hu Hcu%Hrange; [|done].
    destruct (first_is_least
      (λ u, ClassVis.ai_min (tai !!! u) ≤ addr ≤ ClassVis.ai_max (tai !!! u))
      _ _ _ _ (types_increasing caps) Hsplit Hbefore u Hu Hcu); auto.
  - intros (Ht & Hne & Hcov & Hleast). split; [|done].
    destruct (ClassVis.find_target (ClassVis.types caps) tai addr) as [t'|] eqn:Hfind.
    + pose proof (cv_find_target_elem _ _ _ _ Hfind) as Ht'.
      apply cv_find_target_first in Hfind as (before & after & Hsplit & Hcov' & Hbefore).
      destruct (Hleast t' Ht') as [->|Hlt]; [by apply Hrange|done|].
      destruct (first_is_least
        (λ u, ClassVis.ai_min (tai !!! u) ≤ addr ≤ ClassVis.ai_max (tai !!! u))
        _ _ _ _ (types_increasing caps) Hsplit Hbefore t Ht) as [->|Hlt'];
        [by apply Hrange|done|].
      unfold string_lt in *. pose proof (string_ltb_trans _ _ _ Hlt Hlt') as Hbad.
      by rewrite string_ltb_irrefl in Hbad.
    + rewrite cv_find_target_none in Hfind. destruct (Hfind t Ht). by apply Hrange.
Qed.

(** X12.  The defensive script draws one arrow for each record that
    has a reference and an address that resolves, and no other arrow.  An
    address resolves when the least type, in the order of strings, whose
    range of references covers it is not the empty string. *)
Theorem X12_one_arrow_per_resolved_record (ctr : nat → nat → nat → Q) (rnd : nat → Q)
    (caps : list ClassVis.Capability) :
  ∃ resolved : ClassVis.Capability → bool,
    (∀ c, resolved c = true ↔
       is_Some (ClassVis.reference c)
       ∧ ∃ addr t,
           ClassVis.getAddress c = Some addr
           ∧ t ∈ ClassVis.types caps ∧ t ≠ EmptyString
           ∧ (ClassVis.get_ref_range (filter (λ c, ClassVis.type c = t) caps)).1 ≤ addr
             ≤ (ClassVis.get_ref_range (filter (λ c, ClassVis.type c = t) caps)).2
           ∧ ∀ u, u ∈ ClassVis.types caps →
                  (ClassVis.get_ref_range (filter (λ c, ClassVis.type c = u) caps)).1 ≤ addr
                  ≤ (ClassVis.get_ref_range (filter (λ c, ClassVis.type c = u) caps)).2 →
                  t = u ∨ string_lt t u)
    ∧ length (ClassVis.arrows ctr rnd caps) = length (filter (λ c, resolved c = true) caps).
Proof.
  set (tys := ClassVis.types caps). set (tai := ClassVis.type_axes_info ctr caps).
  exists (λ c, match ClassVis.reference c, ClassVis.getAddress c with
               | Some _, Some addr =>
                   match ClassVis.target_type tys tai addr with
                   | Some _ => true
                   | None => false
                   end
               | _, _ => false
               end).
  split.
  - intros c. destruct (ClassVis.reference c) as [r|]; [|split; [done|by intros [[? ?] _]]].
    destruct (ClassVis.getAddress c) as [addr|];
      [|split; [done|by intros [_ (? & ? & ? & _)]]].
    destruct (ClassVis.target_type tys tai addr) as [t|] eqn:Htarget.
    + split; [intros _|done]. split; [by exists r|]. exists addr, t. split; [done|].
      by apply cv_resolution in Htarget.
    + split; [done|]. intros [_ (addr' & t & [= <-] & Hres)].
      apply (cv_resolution ctr) in Hres. fold tys tai in Hres. congruence.
  - unfold ClassVis.arrows, ClassVis.arrows_from. fold tys tai.
    set (resolved := λ c, match ClassVis.reference c, ClassVis.getAddress c with
               | Some _, Some addr =>
                   match ClassVis.target_type tys tai addr with
                   | Some _ => true
                   | None => false
                   end
               | _, _ => false
               end).
    rewrite (collect_length
               (λ typ, length (filter (λ c, resolved c = true)
                                 (filter (λ c, ClassVis.type c = typ) caps)))).
    + apply partition_count; [apply types_NoDup|].
      intros c Hc. apply types_elem. eauto.
    + intros typ k Htyp. rewrite type_info_lookup, info_of_caps by done.
      rewrite (collect_length (λ c, if resolved c then 1 else 0)%nat).
      * rewrite sum_list_indicator. apply Permutation_length.
        by rewrite sort_caps_perm.
      * intros c k' _. unfold ClassVis.arrow_of, resolved.
        destruct (ClassVis.reference c); [|done].
        destruct (ClassVis.getAddress c); [|done].
        destruct (ClassVis.target_type tys tai _); [|done].
        by destruct (if String.eqb typ _ then _ else _) as [[? ?] ?].
Qed.

(** The target of an address in a successful run of the strict script
    exists exactly when two records of one type have references that
    enclose the address. *)
Lemma vz_resolution ctr data tc ti addr :
  Visualization.type_caps data = Ok tc → Visualization.type_info tc = Ok ti →
  is_Some (Visualization.find_target (Visualization.types tc)
             (Visualization.type_axes_info ctr (Visualization.types tc) ti) addr) ↔
  ∃ c1 c2 lo hi, c1 ∈ data ∧ c2 ∈ data ∧ type_of c1 = type_of c2
    ∧ Visualization.ref_int c1 = Ok lo ∧ Visualization.ref_int c2 = Ok hi
    ∧ lo ≤ addr ≤ hi.
Proof.
  intros Htc Hti. set (tys := Visualization.types tc).
  set (tai := Visualization.type_axes_info ctr tys ti). split.
  - intros [t Hfind]. pose proof (vz_find_target_elem _ _ _ _ Hfind) as Ht.
    apply vz_find_target_first in Hfind as (l1 & l2 & _ & Hcov & _).
    unfold tai in Hcov. rewrite vz_type_axes_info_lookup in Hcov by done. simpl in Hcov.
    destruct (vz_type_info_of_run _ _ _ _ Htc Hti Ht)
      as (refs & Hrefs & Hperm & _ & Hlo & Hhi & _ & Hne).
    rewrite Hlo, Hhi in Hcov.
    destruct (range_of_attained refs Hne) as [H1 H2].
    apply (vz_refs_elem _ _ _ Hrefs) in H1 as (c1 & Hc1 & Hlo1).
    apply (vz_refs_elem _ _ _ Hrefs) in H2 as (c2 & Hc2 & Hhi2).
    rewrite Hperm, list_elem_of_filter in Hc1, Hc2.
    destruct Hc1 as [Hty1 Hc1], Hc2 as [Hty2 Hc2].
    exists c1, c2, (range_of refs).1, (range_of refs).2.
    split_and!; try done; try lia. congruence.
  - intros (c1 & c2 & lo & hi & Hc1 & Hc2 & Hty & Hlo & Hhi & Hcov).
    assert (type_of c1 ∈ tys) as Ht by (apply (vz_types_elem _ _ _ Htc); eauto).
    destruct (vz_type_info_of_run _ _ _ _ Htc Hti Ht)
      as (refs & Hrefs & Hperm & _ & Hmin & Hmax & _ & _).
    assert (lo ∈ refs) as Hlo'.
    { apply (vz_refs_elem _ _ _ Hrefs). exists c1. split; [|done].
      rewrite Hperm, list_elem_of_filter. done. }
    assert (hi ∈ refs) as Hhi'.
    { apply (vz_refs_elem _ _ _ Hrefs). exists c2. split; [|done].
      rewrite Hperm, list_elem_of_filter. done. }
    apply range_of_bounds in Hlo', Hhi'.
    destruct (Visualization.find_target tys tai addr) as [t|] eqn:Hfind; [by exists t|].
    rewrite vz_find_target_none in Hfind. destruct (Hfind _ Ht).
    unfold tai. rewrite vz_type_axes_info_lookup by done. simpl. lia.
Qed.

(** X13.  A successful run of the strict script draws one arrow for
    each record whose address reads as an integer that lies between the
    references of two records of one type, and no other arrow. *)
Theorem X13_one_arrow_per_resolved_record_strict (ctr : nat → nat → nat → Q) (rnd : nat → Q)
    (data : list item) (fig : Figure) :
  Visualization.run ctr rnd data = Ok fig →
  ∃ resolved : item → bool,
    (∀ c, resolved c = true ↔
       ∃ v addr c1 c2 lo hi,
         i_Address c = Some v ∧ py_int_of_str v = Some addr
         ∧ c1 ∈ data ∧ c2 ∈ data ∧ type_of c1 = type_of c2
         ∧ Visualization.ref_int c1 = Ok lo ∧ Visualization.ref_int c2 = Ok hi
         ∧ lo ≤ addr ≤ hi)
    ∧ length (fig_arrows fig) = length (filter (λ c, resolved c = true) data).
Proof.
  intros (tc & ti & drawn & res & Htc & Hti & _ & Hres & ->)%vz_run_inv. simpl.
  set (tys := Visualization.types tc) in *.
  set (tai := Visualization.type_axes_info ctr tys ti).
  set (resolved := λ c : item,
         match i_Address c with
         | Some v => match py_int_of_str v with
                     | Some addr => match Visualization.find_target tys tai addr with
                                    | Some _ => true
                                    | None => false
                                    end
                     | None => false
                     end
         | None => false
         end).
  exists resolved. split.
  - intros c. unfold resolved.
    destruct (i_Address c) as [v|]; [|split; [done|by intros (? & ? & ? & ? & ? & ? & ? & _)]].
    destruct (py_int_of_str v) as [addr|] eqn:Haddr.
    2:{ split; [done|]. intros (? & ? & ? & ? & ? & ? & [= <-] & ? & _). congruence. }
    pose proof (vz_resolution ctr data tc ti addr Htc Hti) as Hres'. fold tys tai in Hres'.
    destruct (Visualization.find_target tys tai addr) as [t|].
    + split; [intros _|done].
      destruct (proj1 Hres') as (c1 & c2 & lo & hi & H); [by exists t|].
      exists v, addr, c1, c2, lo, hi. split; [done|]. split; [done|]. exact H.
    + split; [done|]. intros (v' & addr' & c1 & c2 & lo & hi & [= <-] & Ha & H).
      rewrite Haddr in Ha. injection Ha as <-.
      destruct (proj2 Hres') as [? ?]; [|done]. by exists c1, c2, lo, hi.
  - unfold Visualization.arrows_from in Hres. fold tai in Hres.
    assert (∀ typ c k r, Visualization.arrow_of rnd tys ti tai typ c k = Ok r →
                         length r.1 = if resolved c then 1%nat else 0%nat) as Hone.
    { intros typ c k r. unfold Visualization.arrow_of, resolved.
      intros (ref & _ & H)%bind_Ok_inv. apply bind_Ok_inv in H as (v & Hv & H).
      assert (i_Address c = Some v) as ->.
      { unfold getitem in Hv. destruct (i_Address c); by simplify_eq. }
      destruct (py_int_of_str v); [|by injection H as <-].
      destruct (Visualization.find_target tys tai _); [|by injection H as <-].
      destruct (if String.eqb typ _ then _ else _) as [[? ?] ?]. by injection H as <-. }
    assert (∀ typ k r, typ ∈ tys →
              Visualization.collectM (Visualization.arrow_of rnd tys ti tai typ)
                (Visualization.ti_caps (ti !!! typ)) k = Ok r →
              length r.1 = length (filter (λ c, resolved c = true)
                                     (filter (λ c, type_of c = typ) data))) as Hinner.
    { intros typ k r Htyp Hr.
      destruct (vz_type_info_of_run _ _ _ _ Htc Hti Htyp) as (_ & _ & Hperm & Hcaps & _).
      rewrite (collectM_length (λ c, if resolved c then 1 else 0)%nat _ _ _ _
                 (λ c k' r' _, Hone typ c k' r') Hr).
      rewrite sum_list_indicator. apply Permutation_length. by rewrite Hcaps, Hperm. }
    rewrite (collectM_length
               (λ typ, length (filter (λ c, resolved c = true)
                                 (filter (λ c, type_of c = typ) data))) _ _ _ _ Hinner Hres).
    apply partition_count; [by eapply vz_types_NoDup|].
    intros c Hc. apply (vz_types_elem _ _ _ Htc). eauto.
Qed.

(** ** The size of the figure *)

Lemma tallest_panel (h : string → Q) l (m0 : Q) :
  let r := foldl (λ m typ, py_max2 m (h typ)) m0 l in
  (r = m0 ∨ ∃ typ, typ ∈ l ∧ r = h typ) ∧ (m0 <= r)%Q ∧ ∀ typ, typ ∈ l → (h typ <= r)%Q.
Proof.
  revert m0. induction l as [|t l IH]; intros m0; simpl.
  - split_and!; [by left|apply Qle_refl|by intros ? ?%elem_of_nil].
  - destruct (IH (py_max2 m0 (h t))) as (Hr & Hle & Hall).
    assert (m0 <= py_max2 m0 (h t) ∧ h t <= py_max2 m0 (h t))%Q as [H1 H2].
    { unfold py_max2. destruct (Qgtb (h t) m0) eqn:E.
      - apply Qgtb_true in E. split; [by apply Qlt_le_weak|apply Qle_refl].
      - apply Qgtb_false in E. split; [apply Qle_refl|exact E]. }
    split_and!.
    + destruct Hr as [Hr|(typ & Hin & Hr)].
      * assert (py_max2 m0 (h t) = h t ∨ py_max2 m0 (h t) = m0) as [Hm|Hm]
          by (unfold py_max2; destruct (Qgtb _ _); auto).
        -- right. exists t. split; [apply list_elem_of_here|]. by rewrite Hr.
        -- left. by rewrite Hr.
      * right. exists typ. split; [by apply list_elem_of_further|done].
    + by eapply Qle_trans.
    + intros typ [->|Hin]%elem_of_cons; [by eapply Qle_trans|by apply Hall].
Qed.

Lemma tallest_panel_attained (h : string → Q) l :
  l ≠ [] → (∀ typ, typ ∈ l → 0 < h typ)%Q →
  ∃ typ, typ ∈ l ∧ foldl (λ m typ, py_max2 m (h typ)) 0%Q l = h typ.
Proof.
  intros Hne Hpos. destruct (tallest_panel h l 0%Q) as ([Hr|Hr] & _ & Hall); [|done].
  destruct l as [|t l]; [done|].
  pose proof (Hall t (list_elem_of_here _ _)) as Hle. rewrite Hr in Hle.
  pose proof (Hpos t (list_elem_of_here _ _)) as Hlt.
  destruct (Qlt_not_le _ _ Hlt Hle).
Qed.

Lemma cv_panel_height_bounds caps typ :
  typ ∈ ClassVis.types caps →
  (6 <= ClassVis.ti_height (ClassVis.type_info caps !!! typ) <= 10)%Q.
Proof.
  intros Htyp. rewrite type_info_lookup, info_of_height by done. split.
  - apply capped_base; [apply height_of_base|done].
  - rewrite py_min2_Qmin. apply Q.le_min_r.
Qed.

(** X14.  The figure is seven units wide per column of the grid, and
    as high as its tallest panel times the number of rows of the grid.  In
    the defensive script this is between 6 and 10 units per row; in the
    strict script it is at least 6 units per row. *)
Theorem X14_figure_size :
  (∀ caps, caps ≠ [] →
     (ClassVis.figsize caps).1
       = inject_Z (7 * Z.of_nat (grid_layout (length (ClassVis.types caps))).2)
     ∧ (∃ typ, typ ∈ ClassVis.types caps
          ∧ (ClassVis.figsize caps).2
            = (ClassVis.ti_height (ClassVis.type_info caps !!! typ)
               * inject_Z (Z.of_nat (grid_layout (length (ClassVis.types caps))).1))%Q)
     ∧ (∀ typ, typ ∈ ClassVis.types caps →
          (ClassVis.ti_height (ClassVis.type_info caps !!! typ)
             * inject_Z (Z.of_nat (grid_layout (length (ClassVis.types caps))).1)
           <= (ClassVis.figsize caps).2)%Q)
     ∧ (6 * inject_Z (Z.of_nat (grid_layout (length (ClassVis.types caps))).1)
        <= (ClassVis.figsize caps).2
        <= 10 * inject_Z (Z.of_nat (grid_layout (length (ClassVis.types caps))).1))%Q)
  ∧ (∀ data tc ti, data ≠ [] →
       Visualization.type_caps data = Ok tc → Visualization.type_info tc = Ok ti →
       (Visualization.figsize (Visualization.types tc) ti).1
         = inject_Z (7 * Z.of_nat (grid_layout (length (Visualization.types tc))).2)
       ∧ (∃ typ, typ ∈ Visualization.types tc
            ∧ (Visualization.figsize (Visualization.types tc) ti).2
              = (Visualization.ti_height (ti !!! typ)
                 * inject_Z (Z.of_nat (grid_layout (length (Visualization.types tc))).1))%Q)
       ∧ (∀ typ, typ ∈ Visualization.types tc →
            (Visualization.ti_height (ti !!! typ)
               * inject_Z (Z.of_nat (grid_layout (length (Visualization.types tc))).1)
             <= (Visualization.figsize (Visualization.types tc) ti).2)%Q)
       ∧ (6 * inject_Z (Z.of_nat (grid_layout (length (Visualization.types tc))).1)
          <= (Visualization.figsize (Visualization.types tc) ti).2)%Q).
Proof.
  assert (∀ n : nat, (0 <= inject_Z (Z.of_nat n))%Q) as Hrows.
  { intros n. change 0%Q with (inject_Z 0). rewrite <- Zle_Qle. lia. }
  split.
  - intros caps Hne.
    assert (ClassVis.types caps ≠ []) as Hty.
    { destruct caps as [|c caps]; [done|]. intros Hnil.
      assert (ClassVis.type c ∈ ClassVis.types (c :: caps)) as Hin
        by (apply types_elem; exists c; split; [apply list_elem_of_here|done]).
      rewrite Hnil in Hin. by apply elem_of_nil in Hin. }
    unfold ClassVis.figsize, ClassVis.n_types, ClassVis.max_height.
    destruct (grid_layout (length (ClassVis.types caps))) as [nrows ncols]. simpl.
    set (h := λ typ, ClassVis.ti_height (ClassVis.type_info caps !!! typ)).
    destruct (tallest_panel_attained h (ClassVis.types caps) Hty) as (typ & Htyp & Hmax).
    { intros typ Htyp. eapply Qlt_le_trans; [|apply (cv_panel_height_bounds caps typ Htyp)].
      done. }
    destruct (tallest_panel h (ClassVis.types caps) 0%Q) as (_ & _ & Hall).
    unfold h in *. simpl in *. split_and!; [done|by exists typ; rewrite Hmax| | |].
    + intros t Ht. apply Qmult_le_compat_r; [by apply Hall|apply Hrows].
    + rewrite Hmax. apply Qmult_le_compat_r; [|apply Hrows].
      apply (cv_panel_height_bounds caps typ Htyp).
    + rewrite Hmax. apply Qmult_le_compat_r; [|apply Hrows].
      apply (cv_panel_height_bounds caps typ Htyp).
  - intros data tc ti Hne Htc Hti.
    assert (Visualization.types tc ≠ []) as Hty.
    { destruct data as [|c data]; [done|]. intros Hnil.
      assert (type_of c ∈ Visualization.types tc) as Hin
        by (apply (vz_types_elem _ _ _ Htc); exists c; split; [apply list_elem_of_here|done]).
      rewrite Hnil in Hin. by apply elem_of_nil in Hin. }
    assert (∀ typ, typ ∈ Visualization.types tc →
                   (6 <= Visualization.ti_height (ti !!! typ))%Q) as Hsix.
    { intros typ Htyp.
      pose proof (vz_type_info_lookup _ _ _ (vz_types_NoDup _ _ Htc) Hti Htyp) as Hi.
      destruct (vz_info_of_Ok _ _ Hi) as [refs Hrefs].
      rewrite (vz_info_of_refs _ _ Hrefs) in Hi. injection Hi as <-. simpl.
      apply height_of_base. }
    unfold Visualization.figsize, Visualization.max_subplot_height.
    destruct (grid_layout (length (Visualization.types tc))) as [nrows ncols]. simpl.
    set (h := λ typ, Visualization.ti_height (ti !!! typ)).
    destruct (tallest_panel_attained h (Visualization.types tc) Hty) as (typ & Htyp & Hmax).
    { intros typ Htyp. eapply Qlt_le_trans; [|apply (Hsix typ Htyp)]. done. }
    destruct (tallest_panel h (Visualization.types tc) 0%Q) as (_ & _ & Hall).
    unfold h in *. simpl in *. split_and!; [done|by exists typ; rewrite Hmax| |].
    + intros t Ht. apply Qmult_le_compat_r; [by apply Hall|apply Hrows].
    + rewrite Hmax. apply Qmult_le_compat_r; [|apply Hrows]. by apply Hsix.
Qed.

(** ** The fields of a row *)

(** X15.  The coloured boxes of a row tile it from left to right: the
    loop draws a box and its label for each field, the box of field j
    starts where the widths of the fields before it end and has the j-th
    colour from the first one, its label is centred on it, and the loop
    leaves the right end of the last box. *)
Theorem X15_fields_tile_the_row (y start : Z) (i : nat) (l : list (value * Z)) :
  (draw_fields y start i l).2 = start + foldr Z.add 0 (map snd l)
  ∧ length (draw_fields y start i l).1 = (2 * length l)%nat
  ∧ ∀ j lab w, l !! j = Some (lab, w) →
      (draw_fields y start i l).1 !! (2 * j)%nat
        = Some (broken_barh (start + foldr Z.add 0 (take j (map snd l)), w)
                  (inject_Z y + (44 # 100), 4 # 10)%Q (tab20 (i + j)))
      ∧ (draw_fields y start i l).1 !! (2 * j + 1)%nat
        = Some (text (inject_Z (start + foldr Z.add 0%Z (take j (map snd l))) + inject_Z w / 2)%Q
                  (inject_Z y + (6 # 10))%Q (Field lab)).
Proof.
  revert start i. induction l as [|[lab0 w0] l IH]; intros start i.
  - cbn [draw_fields fst snd map foldr length]. split_and!; [lia|done|done].
  - destruct (IH (start + w0) (S i)) as (Hfinal & Hlen & Hbox).
    cbn [draw_fields]. destruct (draw_fields y (start + w0) (S i) l) as [ps final].
    cbn [fst snd map foldr length] in *. split_and!; [lia|lia|].
    intros [|j] lab w Hj.
    + injection Hj as <- <-. cbn [take map foldr]. rewrite Z.add_0_r, Nat.add_0_r. done.
    + change (l !! j = Some (lab, w)) in Hj. destruct (Hbox j lab w Hj) as [H1 H2].
      replace (2 * S j)%nat with (S (S (2 * j))) by lia.
      replace (S (S (2 * j)) + 1)%nat with (S (S (2 * j + 1))) by lia.
      assert (∀ (a b : prim) n, (a :: b :: ps) !! S (S n) = ps !! n) as Hskip by done.
      rewrite !Hskip. cbn [take map foldr snd]. rewrite H1, H2.
      replace (start + (w0 + foldr Z.add 0 (take j (map snd l))))
        with (start + w0 + foldr Z.add 0 (take j (map snd l))) by lia.
      replace (i + S j)%nat with (S (i + j)) by lia. done.
Qed.

(** ** Where the arrows end *)

Lemma cv_arrow_target ctr rnd caps a :
  a ∈ ClassVis.arrows ctr rnd caps →
  ∃ addr target n,
    target ∈ ClassVis.types caps
    ∧ ClassVis.ti_min (ClassVis.type_info caps !!! target) ≤ addr
      ≤ ClassVis.ti_max (ClassVis.type_info caps !!! target)
    ∧ tgt_ax a = ClassVis.type_axes caps !!! target
    ∧ (tgt_pt a).2 = (inject_Z addr + uniform (1 # 10) (6 # 10) (rnd n))%Q.
Proof.
  unfold ClassVis.arrows, ClassVis.arrows_from.
  intros (typ & k1 & Htyp & Ha)%collect_elem.
  apply collect_elem in Ha as (c & k2 & Hc & Ha).
  unfold ClassVis.arrow_of in Ha.
  destruct (ClassVis.reference c) as [ref|]; [|by apply elem_of_nil in Ha].
  destruct (ClassVis.getAddress c) as [addr|]; [|by apply elem_of_nil in Ha].
  destruct (ClassVis.target_type _ _ addr) as [target|] eqn:Ht; [|by apply elem_of_nil in Ha].
  apply target_type_Some in Ht as [Hfind _].
  pose proof (cv_find_target_elem _ _ _ _ Hfind) as Htarget.
  apply cv_find_target_first in Hfind as (l1 & l2 & _ & Hcov & _).
  rewrite type_axes_info_lookup in Hcov by done. simpl in Hcov.
  exists addr, target, k2.
  destruct (if String.eqb typ target then _ else _) as [[sx tx] sty].
  apply list_elem_of_singleton in Ha. subst a. simpl.
  rewrite type_axes_info_lookup by done. done.
Qed.

Lemma vz_arrow_target ctr rnd tys ti k res a :
  Visualization.arrows_from ctr rnd tys ti k = Ok res → a ∈ res.1 →
  ∃ addr target n,
    target ∈ tys
    ∧ Visualization.ti_min (ti !!! target) ≤ addr ≤ Visualization.ti_max (ti !!! target)
    ∧ tgt_ax a = Visualization.type_to_axis tys !!! target
    ∧ (tgt_pt a).2 = (inject_Z addr + uniform (1 # 10) (6 # 10) (rnd n))%Q.
Proof.
  unfold Visualization.arrows_from. intros Hres Ha.
  destruct (collectM_elem _ _ _ _ _ Hres Ha) as (typ & k1 & r1 & Htyp & Hr1 & Ha1).
  destruct (collectM_elem _ _ _ _ _ Hr1 Ha1) as (c & k2 & r2 & Hc & Hr2 & Ha2).
  unfold Visualization.arrow_of in Hr2.
  apply bind_Ok_inv in Hr2 as (ref & Href & Hr2).
  apply bind_Ok_inv in Hr2 as (v & Hv & Hr2).
  destruct (py_int_of_str v) as [addr|];
    [|injection Hr2 as <-; by apply elem_of_nil in Ha2].
  destruct (Visualization.find_target _ _ addr) as [target|] eqn:Hfind;
    [|injection Hr2 as <-; by apply elem_of_nil in Ha2].
  pose proof (vz_find_target_elem _ _ _ _ Hfind) as Htarget.
  apply vz_find_target_first in Hfind as (l1 & l2 & _ & Hcov & _).
  rewrite vz_type_axes_info_lookup in Hcov by done. simpl in Hcov.
  exists addr, target, k2.
  destruct (if String.eqb typ target then _ else _) as [[sx tx] sty].
  injection Hr2 as <-. apply list_elem_of_singleton in Ha2. subst a. simpl.
  rewrite vz_type_axes_info_lookup by done. done.
Qed.

Lemma cv_draw_all_elem caps typ p :
  typ ∈ ClassVis.types caps →
  p ∈ ClassVis.draw_caps (ClassVis.type_info caps !!! typ)
      ++ ClassVis.draw_empty (ClassVis.type_info caps !!! typ) →
  (ClassVis.type_axes caps !!! typ, p) ∈ ClassVis.draw_all caps.
Proof.
  intros Htyp Hp. unfold ClassVis.draw_all. apply list_elem_of_In, in_flat_map.
  exists typ. rewrite <- !list_elem_of_In. split; [done|].
  unfold ClassVis.draw_type. apply list_elem_of_fmap. by exists p.
Qed.

Lemma vz_draw_all_elem tys ti drawn typ :
  Visualization.draw_all tys ti = Ok drawn → typ ∈ tys →
  ∃ rows, Visualization.draw_caps (ti !!! typ) = Ok rows
    ∧ ∀ p, p ∈ rows ++ Visualization.draw_empty (ti !!! typ) →
           (Visualization.type_to_axis tys !!! typ, p) ∈ drawn.
Proof.
  unfold Visualization.draw_all. intros (l & Hl & [= <-])%bind_Ok_inv Htyp.
  apply mapM_Ok_iff in Hl. apply list_elem_of_lookup in Htyp as [i Hi].
  destruct (Forall2_lookup_l _ _ _ _ _ Hl Hi) as (ps & Hps & Hd).
  unfold Visualization.draw_type in Hd. apply bind_Ok_inv in Hd as (rows & Hrows & [= <-]).
  exists rows. split; [done|]. intros p Hp.
  apply list_elem_of_In, in_concat. eexists. rewrite <- !list_elem_of_In.
  split; [by eapply list_elem_of_lookup_2|]. apply list_elem_of_fmap. by exists p.
Qed.

(** X16.  No arrow ends in the void: the address an arrow points at,
    on the axis it ends on, is the row of a record with that reference, or
    an empty block drawn there.  Both scripts. *)
Theorem X16_arrows_end_on_drawn_rows (ctr : nat → nat → nat → Q) (rnd : nat → Q) :
  (∀ caps a, a ∈ ClassVis.arrows ctr rnd caps →
     ∃ (addr : Z) (n : nat),
       (tgt_pt a).2 = (inject_Z addr + uniform (1 # 10) (6 # 10) (rnd n))%Q
       ∧ ((tgt_ax a, empty_block addr) ∈ ClassVis.draw_all caps
          ∨ ∃ c, c ∈ caps ∧ ClassVis.reference c = Some addr
                 ∧ ClassVis.type_axes caps !!! ClassVis.type c = tgt_ax a
                 ∧ ∀ p, p ∈ ClassVis.draw_capability c addr →
                        (tgt_ax a, p) ∈ ClassVis.draw_all caps))
  ∧ (∀ data fig a, Visualization.run ctr rnd data = Ok fig → a ∈ fig_arrows fig →
     ∃ (addr : Z) (n : nat),
       (tgt_pt a).2 = (inject_Z addr + uniform (1 # 10) (6 # 10) (rnd n))%Q
       ∧ ((tgt_ax a, empty_block addr) ∈ fig_drawn fig
          ∨ ∃ c row, c ∈ data ∧ Visualization.ref_int c = Ok addr
                 ∧ fig_axes fig !!! type_of c = tgt_ax a
                 ∧ Visualization.draw_capability c addr = Ok row
                 ∧ ∀ p, p ∈ row → (tgt_ax a, p) ∈ fig_drawn fig)).
Proof.
  split.
  - intros caps a (addr & target & n & Htarget & Hcov & -> & Hy)%cv_arrow_target.
    exists addr, n. split; [done|].
    set (info := ClassVis.type_info caps !!! target).
    destruct (decide (addr ∈ ClassVis.occupied info)) as [Hocc|Hocc].
    + right. unfold info in Hocc. rewrite type_info_lookup in Hocc by done.
      apply occupied_elem in Hocc as (c & Hc & Href).
      pose proof Hc as Hc'. rewrite sort_caps_perm, list_elem_of_filter in Hc'.
      destruct Hc' as [Hty Hcaps]. exists c. rewrite Hty. split_and!; [done..|].
      intros p Hp. apply cv_draw_all_elem; [done|]. apply elem_of_app. left.
      eapply cv_row_in_draw_caps; [|exact Href|].
      * by rewrite type_info_lookup, info_of_caps by done.
      * rewrite type_info_lookup by done. by rewrite info_of_rows, row_of_reference.
    + left. apply cv_draw_all_elem; [done|]. apply elem_of_app. right.
      unfold ClassVis.draw_empty. apply list_elem_of_fmap. exists addr. split; [done|].
      by apply empty_addresses_elem.
  - intros data fig a (tc & ti & drawn & res & Htc & Hti & Hdrawn & Hres & ->)%vz_run_inv.
    simpl. intros (addr & target & n & Htarget & Hcov & -> & Hy)%(vz_arrow_target _ _ _ _ _ _ _ Hres).
    exists addr, n. split; [done|].
    destruct (vz_draw_all_elem _ _ _ _ Hdrawn Htarget) as (rows & Hrows & Hin).
    pose proof (vz_type_info_lookup _ _ _ (vz_types_NoDup _ _ Htc) Hti Htarget) as Hinfo.
    destruct (vz_type_info_of_run _ _ _ _ Htc Hti Htarget)
      as (refs & Hrefs & Hperm & Hcaps & _ & _ & Hpos & _).
    destruct (decide (addr ∈ Visualization.occupied (ti !!! target))) as [Hocc|Hocc].
    + right. apply (vz_occupied_elem _ _ _ Hinfo) in Hocc as (c & Hc & Href).
      rewrite <- Hcaps in Hc.
      destruct (vz_row_in_draw_caps _ _ _ _ Hrows Hc Href) as (row & Hrow & Hps).
      assert (default addr (Visualization.ti_y_positions (ti !!! target) !! addr) = addr) as Hy'.
      { rewrite Hpos, rows_lookup. by case_decide. }
      rewrite Hy' in Hrow. rewrite Hcaps, Hperm, list_elem_of_filter in Hc.
      destruct Hc as [Hty Hc]. exists c, row. rewrite Hty. split_and!; [done..|].
      intros p Hp. apply Hin, elem_of_app. left. by apply Hps.
    + left. apply Hin, elem_of_app. right.
      unfold Visualization.draw_empty. apply list_elem_of_fmap. exists addr. split; [done|].
      by apply empty_addresses_elem.
Qed.

(** * The properties at concrete inputs *)

Section Witnesses.
Local Open Scope string_scope.

(** C2 at a record of type A with reference 5: address "3" gives the left
    loop in the defensive script, address "5" the right loop in the strict
    one. *)
Lemma C2_intra_panel_arrow_witness :
  (∃ arrow,
     ClassVis.arrow_of half ["A"] ∅ (<["A" := ClassVis.mkAxesInfo 0 3 5 (1 # 2)]> ∅) "A"
       (ClassVis.Capability_init (labelled (Some "A") (Some (VInt 5)) (Some (VStr "3")))) 0
     = ([arrow], 1%nat)
     ∧ left_loop arrow)
  ∧ (∃ arrow,
     Visualization.arrow_of half ["A"] ∅ (<["A" := Visualization.mkAxesInfo 0 3 5 (1 # 2)]> ∅) "A"
       (labelled (Some "A") (Some (VInt 5)) (Some (VStr "5"))) 0
     = Ok ([arrow], 1%nat)
     ∧ right_loop arrow).
Proof.
  split.
  - destruct (proj1 C2_intra_panel_arrow half ["A"] ∅
                (<["A" := ClassVis.mkAxesInfo 0 3 5 (1 # 2)]> ∅) "A"
                (ClassVis.Capability_init (labelled (Some "A") (Some (VInt 5)) (Some (VStr "3"))))
                0%nat 5 3)
      as [_ (arrow & H & _ & Hleft & _)];
      [reflexivity|vm_compute; reflexivity|vm_compute; reflexivity|].
    exists arrow. split; [exact H|]. apply Hleft. lia.
  - destruct (proj2 C2_intra_panel_arrow half ["A"] ∅
                (<["A" := Visualization.mkAxesInfo 0 3 5 (1 # 2)]> ∅) "A"
                (labelled (Some "A") (Some (VInt 5)) (Some (VStr "5")))
                0%nat 5 (VStr "5") 5)
      as [_ (arrow & H & _ & _ & Hright)];
      [reflexivity|reflexivity|vm_compute; reflexivity|vm_compute; reflexivity|].
    exists arrow. split; [exact H|]. apply Hright. lia.
Defined.

(** C3 at two panels A, left, and B, right: an arrow from A to B leaves
    rightwards, an arrow from B to A leftwards. *)
Lemma C3_cross_panel_arrow_witness :
  (∃ arrow,
     ClassVis.arrow_of half ["A"; "B"] ∅
       (<["A" := ClassVis.mkAxesInfo 0 0 10 (1 # 4)]>
          (<["B" := ClassVis.mkAxesInfo 1 20 30 (3 # 4)]> ∅)) "A"
       (ClassVis.Capability_init (labelled (Some "A") (Some (VInt 5)) (Some (VStr "25")))) 0
     = ([arrow], 1%nat)
     ∧ rightwards arrow)
  ∧ (∃ arrow,
     Visualization.arrow_of half ["A"; "B"] ∅
       (<["A" := Visualization.mkAxesInfo 0 0 10 (1 # 4)]>
          (<["B" := Visualization.mkAxesInfo 1 20 30 (3 # 4)]> ∅)) "B"
       (labelled (Some "B") (Some (VInt 25)) (Some (VInt 5))) 0
     = Ok ([arrow], 1%nat)
     ∧ leftwards arrow).
Proof.
  split.
  - destruct (proj1 C3_cross_panel_arrow half ["A"; "B"] ∅
                (<["A" := ClassVis.mkAxesInfo 0 0 10 (1 # 4)]>
                   (<["B" := ClassVis.mkAxesInfo 1 20 30 (3 # 4)]> ∅)) "A"
                (ClassVis.Capability_init (labelled (Some "A") (Some (VInt 5)) (Some (VStr "25"))))
                0%nat 5 25 "B")
      as (arrow & H & _ & _ & Hright & _);
      [reflexivity|vm_compute; reflexivity|vm_compute; reflexivity|discriminate|].
    exists arrow. split; [exact H|]. apply Hright. vm_compute. reflexivity.
  - destruct (proj1 (proj2 C3_cross_panel_arrow) half ["A"; "B"] ∅
                (<["A" := Visualization.mkAxesInfo 0 0 10 (1 # 4)]>
                   (<["B" := Visualization.mkAxesInfo 1 20 30 (3 # 4)]> ∅)) "B"
                (labelled (Some "B") (Some (VInt 25)) (Some (VInt 5)))
                0%nat 25 (VInt 5) 5 "A")
      as (arrow & H & _ & _ & _ & Hleft);
      [reflexivity|reflexivity|reflexivity|vm_compute; reflexivity|discriminate|].
    exists arrow. split; [exact H|]. apply Hleft. vm_compute. discriminate.
Defined.

(** C4 at five records of four types: a grid of two rows and two
    columns. *)
Lemma C4_grid_shape_witness :
  fig_grid (ClassVis.run even_centres half
              [labelled (Some "A") (Some (VInt 1)) (Some (VStr "1"));
               labelled (Some "B") (Some (VInt 2)) (Some (VStr "1"));
               labelled (Some "C") (Some (VInt 3)) (Some (VStr "1"));
               labelled (Some "A") (Some (VInt 4)) (Some (VStr "1"));
               labelled (Some "D") (Some (VInt 5)) (Some (VStr "1"))]) = (2, 2)%nat
  ∧ ∃ fig,
      Visualization.run even_centres half
              [labelled (Some "A") (Some (VInt 1)) (Some (VStr "1"));
               labelled (Some "B") (Some (VInt 2)) (Some (VStr "1"));
               labelled (Some "C") (Some (VInt 3)) (Some (VStr "1"));
               labelled (Some "A") (Some (VInt 4)) (Some (VStr "1"));
               labelled (Some "D") (Some (VInt 5)) (Some (VStr "1"))] = Ok fig
      ∧ fig_grid fig = (2, 2)%nat.
Proof.
  destruct (C4_grid_shape even_centres half
              [labelled (Some "A") (Some (VInt 1)) (Some (VStr "1"));
               labelled (Some "B") (Some (VInt 2)) (Some (VStr "1"));
               labelled (Some "C") (Some (VInt 3)) (Some (VStr "1"));
               labelled (Some "A") (Some (VInt 4)) (Some (VStr "1"));
               labelled (Some "D") (Some (VInt 5)) (Some (VStr "1"))]) as [H1 H2].
  split; [exact H1|].
  eexists. split; [vm_compute; reflexivity|]. apply H2. vm_compute. reflexivity.
Defined.

(** C5 at a group of two members spanning 2 and a group of three
    spanning 5. *)
Lemma C5_panel_height_witness :
  (ClassVis.ti_height (ClassVis.info_of (ClassVis.capabilities
       [labelled (Some "A") (Some (VInt 0)) None; labelled (Some "A") (Some (VInt 2)) None]))
   <= ClassVis.ti_height (ClassVis.info_of (ClassVis.capabilities
       [labelled (Some "A") (Some (VInt 0)) None; labelled (Some "A") (Some (VInt 5)) None;
        labelled (Some "A") (Some (VInt 3)) None])))%Q
  ∧ ∃ info info',
      Visualization.info_of
        [labelled (Some "A") (Some (VInt 0)) None; labelled (Some "A") (Some (VInt 2)) None]
      = Ok info
      ∧ Visualization.info_of
        [labelled (Some "A") (Some (VInt 0)) None; labelled (Some "A") (Some (VInt 5)) None;
         labelled (Some "A") (Some (VInt 3)) None]
      = Ok info'
      ∧ (Visualization.ti_height info <= Visualization.ti_height info')%Q.
Proof.
  split.
  - apply (proj1 C5_panel_height); [vm_compute; discriminate|simpl; lia].
  - destruct (proj2 C5_panel_height
        [labelled (Some "A") (Some (VInt 0)) None; labelled (Some "A") (Some (VInt 2)) None]
        [labelled (Some "A") (Some (VInt 0)) None; labelled (Some "A") (Some (VInt 5)) None;
         labelled (Some "A") (Some (VInt 3)) None] _ _ eq_refl eq_refl) as (_ & _ & _ & Hmono).
    eexists _, _. split; [reflexivity|]. split; [reflexivity|].
    apply Hmono; [vm_compute; discriminate|simpl; lia].
Defined.


(** C7 at a group of type A with one member without reference. *)
Lemma C7_grouping_sorted_unreferenced_skipped_witness :
  ClassVis.ti_caps
    (ClassVis.type_info (ClassVis.capabilities
       [labelled (Some "A") None (Some (VStr "3")); labelled (Some "A") (Some (VInt 3)) (Some (VStr "7"))])
     !!! "A")
  = od_get "A" (ClassVis.type_caps (ClassVis.capabilities
       [labelled (Some "A") None (Some (VStr "3")); labelled (Some "A") (Some (VInt 3)) (Some (VStr "7"))])).
Proof.
  apply (C7_grouping_sorted_unreferenced_skipped
           [labelled (Some "A") None (Some (VStr "3")); labelled (Some "A") (Some (VInt 3)) (Some (VStr "7"))]
           "A").
  vm_compute. left.
Defined.


(** C9 at the scenario of the specification, with the draws 1/2 in one
    run and 1/4 in the other. *)
Lemma C9_rerun_same_figure_witness :
  same_figure
    (ClassVis.run even_centres half
       [labelled (Some "A") (Some (VInt 5)) (Some (VStr "3"));
        labelled (Some "A") (Some (VInt 3)) (Some (VStr "7"))])
    (ClassVis.run even_centres quarter
       [labelled (Some "A") (Some (VInt 5)) (Some (VStr "3"));
        labelled (Some "A") (Some (VInt 3)) (Some (VStr "7"))]).
Proof.
  apply (C9_rerun_same_figure even_centres half quarter).
  - intros k. split; vm_compute; [discriminate|reflexivity].
  - intros k. split; vm_compute; [discriminate|reflexivity].
Defined.

(** X1 at two records of the types A and B. *)
Lemma X1_types_strictly_sorted_witness :
  ∃ tc, Visualization.type_caps
          [labelled (Some "B") (Some (VInt 10)) (Some (VStr "1"));
           labelled (Some "A") (Some (VInt 1)) (Some (VStr "10"))] = Ok tc
        ∧ StronglySorted string_lt (Visualization.types tc)
        ∧ NoDup (Visualization.types tc).
Proof.
  eassert (Visualization.type_caps
          [labelled (Some "B") (Some (VInt 10)) (Some (VStr "1"));
           labelled (Some "A") (Some (VInt 1)) (Some (VStr "10"))] = Ok _) as E
    by (vm_compute; reflexivity).
  eexists. split; [exact E|].
  destruct (proj2 X1_types_strictly_sorted _ _ E) as (H1 & H2 & _). split; [exact H1|exact H2].
Defined.

(** X3 at two records with the references 5 and 3. *)
Lemma X3_reference_range_tight_witness :
  ∃ c, c ∈ ClassVis.capabilities
             [labelled (Some "A") (Some (VInt 5)) (Some (VStr "3"));
              labelled (Some "A") (Some (VInt 3)) (Some (VStr "7"))]
       ∧ ClassVis.reference c
         = Some (ClassVis.get_ref_range
                   (ClassVis.capabilities
                      [labelled (Some "A") (Some (VInt 5)) (Some (VStr "3"));
                       labelled (Some "A") (Some (VInt 3)) (Some (VStr "7"))])).1.
Proof.
  pose proof (proj1 X3_reference_range_tight
                (ClassVis.capabilities
                   [labelled (Some "A") (Some (VInt 5)) (Some (VStr "3"));
                    labelled (Some "A") (Some (VInt 3)) (Some (VStr "7"))])) as H.
  cbv zeta in H. destruct H as (_ & _ & H & _).
  apply H. eexists. split; [apply list_elem_of_here|]. vm_compute. eexists. reflexivity.
Defined.

(** X4 at the types A and B: B is on the second axis. *)
Lemma X4_axes_fit_the_grid_witness :
  ClassVis.types (ClassVis.capabilities
                    [labelled (Some "B") (Some (VInt 10)) (Some (VStr "1"));
                     labelled (Some "A") (Some (VInt 1)) (Some (VStr "10"))])
    !! (ClassVis.type_axes (ClassVis.capabilities
                    [labelled (Some "B") (Some (VInt 10)) (Some (VStr "1"));
                     labelled (Some "A") (Some (VInt 1)) (Some (VStr "10"))]) !!! "B")
  = Some "B".
Proof.
  apply (proj1 X4_axes_fit_the_grid
           (ClassVis.capabilities
                    [labelled (Some "B") (Some (VInt 10)) (Some (VStr "1"));
                     labelled (Some "A") (Some (VInt 1)) (Some (VStr "10"))]) "B").
  apply list_elem_of_In. vm_compute. right. left. reflexivity.
Defined.

(** X5 at one arrow: it is made of the first draw. *)
Lemma X5_one_draw_per_arrow_witness :
  ∃ a (addr : Z),
    (ClassVis.arrows_from even_centres half
       (ClassVis.capabilities
          [labelled (Some "A") (Some (VInt 5)) (Some (VStr "3"));
           labelled (Some "A") (Some (VInt 3)) (Some (VStr "7"))]) 0).1 !! 0%nat = Some a
    ∧ (tgt_pt a).2 = (inject_Z addr + uniform (1 # 10) (6 # 10) (half 0))%Q.
Proof.
  eassert ((ClassVis.arrows_from even_centres half
       (ClassVis.capabilities
          [labelled (Some "A") (Some (VInt 5)) (Some (VStr "3"));
           labelled (Some "A") (Some (VInt 3)) (Some (VStr "7"))]) 0).1 !! 0%nat = Some _) as E
    by (vm_compute; reflexivity).
  destruct (proj2 (X5_one_draw_per_arrow _ _ _ _) _ _ E) as [addr H].
  eexists. exists addr. split; [exact E|exact H].
Defined.

(** X6 at the arrow of the record with reference 5 and address "3". *)
Lemma X6_arrows_join_rows_to_covering_panels_witness :
  ∃ a c ref,
    a ∈ ClassVis.arrows even_centres half
          (ClassVis.capabilities
             [labelled (Some "A") (Some (VInt 5)) (Some (VStr "3"));
              labelled (Some "A") (Some (VInt 3)) (Some (VStr "7"))])
    ∧ c ∈ ClassVis.capabilities
            [labelled (Some "A") (Some (VInt 5)) (Some (VStr "3"));
             labelled (Some "A") (Some (VInt 3)) (Some (VStr "7"))]
    ∧ ClassVis.reference c = Some ref
    ∧ (src_pt a).2 = (inject_Z ref + (5 # 10))%Q.
Proof.
  eassert (ClassVis.arrows even_centres half
          (ClassVis.capabilities
             [labelled (Some "A") (Some (VInt 5)) (Some (VStr "3"));
              labelled (Some "A") (Some (VInt 3)) (Some (VStr "7"))]) = _ :: _) as E
    by (vm_compute; reflexivity).
  eassert (_ ∈ ClassVis.arrows even_centres half
          (ClassVis.capabilities
             [labelled (Some "A") (Some (VInt 5)) (Some (VStr "3"));
              labelled (Some "A") (Some (VInt 3)) (Some (VStr "7"))])) as Hin
    by (rewrite E; apply list_elem_of_here).
  destruct (X6_arrows_join_rows_to_covering_panels _ _ _ _ Hin)
    as (c & ref & addr & target & n & Hc & Href & _ & _ & _ & _ & _ & _ & Hsrc & _).
  eexists. exists c, ref. split; [exact Hin|]. split; [exact Hc|]. split; [exact Href|exact Hsrc].
Defined.

(** X7 at one panel with one record that points into it. *)
Lemma X7_one_draw_per_arrow_strict_witness :
  ∃ res,
    Visualization.arrows_from even_centres half ["A"]
      (<["A" := Visualization.mkTypeInfo 3 5 6
                  [labelled (Some "A") (Some (VInt 5)) (Some (VStr "3"))] ∅]> ∅) 0 = Ok res
    ∧ res.2 = (0 + length res.1)%nat.
Proof.
  eassert (Visualization.arrows_from even_centres half ["A"]
      (<["A" := Visualization.mkTypeInfo 3 5 6
                  [labelled (Some "A") (Some (VInt 5)) (Some (VStr "3"))] ∅]> ∅) 0 = Ok _) as E
    by (vm_compute; reflexivity).
  eexists. split; [exact E|].
  apply (proj1 (X7_one_draw_per_arrow_strict _ _ _ _ _ _ E)).
Defined.

(** X8 at the arrow of the record with reference 5 and address "3". *)
Lemma X8_arrows_join_rows_to_covering_panels_strict_witness :
  ∃ fig a c ref,
    Visualization.run even_centres half
      [labelled (Some "A") (Some (VInt 5)) (Some (VStr "3"));
       labelled (Some "A") (Some (VInt 3)) (Some (VStr "7"))] = Ok fig
    ∧ a ∈ fig_arrows fig
    ∧ c ∈ [labelled (Some "A") (Some (VInt 5)) (Some (VStr "3"));
           labelled (Some "A") (Some (VInt 3)) (Some (VStr "7"))]
    ∧ Visualization.ref_int c = Ok ref
    ∧ (src_pt a).2 = (inject_Z ref + (5 # 10))%Q.
Proof.
  eassert (Visualization.run even_centres half
      [labelled (Some "A") (Some (VInt 5)) (Some (VStr "3"));
       labelled (Some "A") (Some (VInt 3)) (Some (VStr "7"))] = Ok _) as E
    by (vm_compute; reflexivity).
  match type of E with _ = Ok ?f =>
    eassert (_ ∈ fig_arrows f) as Hin by (simpl; apply list_elem_of_here)
  end.
  destruct (X8_arrows_join_rows_to_covering_panels_strict _ _ _ _ _ E Hin)
    as (c & ref & v & addr & c1 & c2 & lo & hi & n & Hc & Href & _ & _ & _ & _ & _ & _ & _
        & _ & _ & _ & Hsrc & _).
  eexists. eexists. exists c, ref.
  split; [exact E|]. split; [exact Hin|]. split; [exact Hc|]. split; [exact Href|exact Hsrc].
Defined.


(** X10 at two records in the two orders. *)
Lemma X10_record_order_and_the_figure_witness :
  ClassVis.run even_centres half
    [labelled (Some "A") (Some (VInt 5)) (Some (VStr "3"));
     labelled (Some "A") (Some (VInt 3)) (Some (VStr "7"))]
  = ClassVis.run even_centres half
      [labelled (Some "A") (Some (VInt 3)) (Some (VStr "7"));
       labelled (Some "A") (Some (VInt 5)) (Some (VStr "3"))].
Proof.
  apply (X10_record_order_and_the_figure even_centres half).
  - apply perm_swap.
  - vm_compute. repeat constructor; set_solver.
Defined.


(** X12 at two records, one of which resolves. *)
Lemma X12_one_arrow_per_resolved_record_witness :
  ∃ resolved : ClassVis.Capability → bool,
    length (ClassVis.arrows even_centres half
              (ClassVis.capabilities
                 [labelled (Some "A") (Some (VInt 5)) (Some (VStr "3"));
                  labelled (Some "A") (Some (VInt 3)) (Some (VStr "7"))]))
    = length (filter (λ c, resolved c = true)
                (ClassVis.capabilities
                   [labelled (Some "A") (Some (VInt 5)) (Some (VStr "3"));
                    labelled (Some "A") (Some (VInt 3)) (Some (VStr "7"))])).
Proof.
  destruct (X12_one_arrow_per_resolved_record even_centres half
              (ClassVis.capabilities
                 [labelled (Some "A") (Some (VInt 5)) (Some (VStr "3"));
                  labelled (Some "A") (Some (VInt 3)) (Some (VStr "7"))]))
    as (resolved & _ & H).
  exists resolved. exact H.
Defined.

(** X13 at two records, one of which resolves. *)
Lemma X13_one_arrow_per_resolved_record_strict_witness :
  ∃ fig (resolved : item → bool),
    Visualization.run even_centres half
      [labelled (Some "A") (Some (VInt 5)) (Some (VStr "3"));
       labelled (Some "A") (Some (VInt 3)) (Some (VStr "7"))] = Ok fig
    ∧ length (fig_arrows fig)
      = length (filter (λ c, resolved c = true)
                  [labelled (Some "A") (Some (VInt 5)) (Some (VStr "3"));
                   labelled (Some "A") (Some (VInt 3)) (Some (VStr "7"))]).
Proof.
  eassert (Visualization.run even_centres half
      [labelled (Some "A") (Some (VInt 5)) (Some (VStr "3"));
       labelled (Some "A") (Some (VInt 3)) (Some (VStr "7"))] = Ok _) as E
    by (vm_compute; reflexivity).
  destruct (X13_one_arrow_per_resolved_record_strict _ _ _ _ E) as (resolved & _ & H).
  eexists. exists resolved. split; [exact E|exact H].
Defined.

(** X14 at two types: a grid of one row and two columns, 14 units wide. *)
Lemma X14_figure_size_witness :
  (ClassVis.figsize
     (ClassVis.capabilities
        [labelled (Some "A") (Some (VInt 1)) (Some (VStr "10"));
         labelled (Some "B") (Some (VInt 10)) (Some (VStr "1"))])).1
  = inject_Z (7 * Z.of_nat (grid_layout (length (ClassVis.types
      (ClassVis.capabilities
        [labelled (Some "A") (Some (VInt 1)) (Some (VStr "10"));
         labelled (Some "B") (Some (VInt 10)) (Some (VStr "1"))])))).2).
Proof.
  apply (proj1 X14_figure_size
           (ClassVis.capabilities
              [labelled (Some "A") (Some (VInt 1)) (Some (VStr "10"));
               labelled (Some "B") (Some (VInt 10)) (Some (VStr "1"))])).
  discriminate.
Defined.

(** X15 at two fields of the widths 1 and 16: the second box starts at 0. *)
Lemma X15_fields_tile_the_row_witness :
  (draw_fields 0 (-1) 0 [(VStr "t", 1); (VStr "p", 16)]).1 !! (2 * 1)%nat
  = Some (broken_barh
            (-1 + foldr Z.add 0 (take 1 (map snd [(VStr "t", 1); (VStr "p", 16)])), 16)
            (inject_Z 0 + (44 # 100), 4 # 10)%Q (tab20 (0 + 1))).
Proof.
  apply (proj1 (proj2 (proj2 (X15_fields_tile_the_row 0 (-1) 0%nat
                                [(VStr "t", 1); (VStr "p", 16)]))
                 1%nat (VStr "p") 16 eq_refl)).
Defined.

(** X16 at the arrow of the record with reference 5 and address "3". *)
Lemma X16_arrows_end_on_drawn_rows_witness :
  ∃ a (addr : Z) (n : nat),
    a ∈ ClassVis.arrows even_centres half
          (ClassVis.capabilities
             [labelled (Some "A") (Some (VInt 5)) (Some (VStr "3"));
              labelled (Some "A") (Some (VInt 3)) (Some (VStr "7"))])
    ∧ (tgt_pt a).2 = (inject_Z addr + uniform (1 # 10) (6 # 10) (half n))%Q.
Proof.
  eassert (ClassVis.arrows even_centres half
          (ClassVis.capabilities
             [labelled (Some "A") (Some (VInt 5)) (Some (VStr "3"));
              labelled (Some "A") (Some (VInt 3)) (Some (VStr "7"))]) = _ :: _) as E
    by (vm_compute; reflexivity).
  eassert (_ ∈ ClassVis.arrows even_centres half
          (ClassVis.capabilities
             [labelled (Some "A") (Some (VInt 5)) (Some (VStr "3"));
              labelled (Some "A") (Some (VInt 3)) (Some (VStr "7"))])) as Hin
    by (rewrite E; apply list_elem_of_here).
  destruct (proj1 (X16_arrows_end_on_drawn_rows even_centres half) _ _ Hin)
    as (addr & n & Hy & _).
  eexists. exists addr, n. split; [exact Hin|exact Hy].
Defined.

End Witnesses.
